(** * Playlist Polisher: the asynchronous mutation-job subsystem

    A shallow embedding of the backend's sort engine, job store, undo log,
    scheduler dispatch and recurrence computation, with the properties the
    design document states about them.

    Conventions.
    - Python lists are [list]; [l.pop(i)], [l.insert(i, x)], [l.index(x)] and
      slices are written out in [PyList].
    - JSON objects with a fixed shape (tracks, jobs, operations) are records;
      a key that may be absent or [null] is an [option] field.
    - SQL tables are lists of rows in insertion order.
    - Logging is not modelled.  Of a progress callback the model keeps
      whether one is passed, and the formatting of its message where that
      can raise; what the callback then writes is not modelled.
    - A call that may raise returns [option] or a sum; the remote mutations a
      function issues before raising are kept in its result. *)

From Stdlib Require Import ZArith String Ascii Bool Lia Arith Permutation List.
Import ListNotations.

(* ===================================================================== *)
(** * Python list primitives *)
(* ===================================================================== *)

Module PyList.

Section Ops.
Context {A : Type}.

(** [l.pop(i)] for [0 <= i < len(l)]: the list without position [i]. *)
Definition pop (i : nat) (l : list A) : list A :=
  firstn i l ++ skipn (S i) l.

(** [l.insert(i, x)]: [x] lands at position [i], or at the end when
    [i >= len(l)]. *)
Definition insert (i : nat) (x : A) (l : list A) : list A :=
  firstn i l ++ x :: skipn i l.

(** [l[i:j]] for non-negative bounds. *)
Definition slice (i j : nat) (l : list A) : list A :=
  firstn (j - i) (skipn i l).

(** [enumerate(l)] starting at [start]. *)
Fixpoint enumerate_from (start : nat) (l : list A) : list (nat * A) :=
  match l with
  | [] => []
  | x :: l' => (start, x) :: enumerate_from (S start) l'
  end.

Definition enumerate (l : list A) : list (nat * A) := enumerate_from 0 l.
End Ops.

(** [l.index(x)] on a list of integers: first position of [x], [None]
    where Python raises [ValueError]. *)
Fixpoint index (x : nat) (l : list nat) : option nat :=
  match l with
  | [] => None
  | y :: l' =>
      if Nat.eqb y x then Some 0
      else match index x l' with
           | Some i => Some (S i)
           | None => None
           end
  end.

(** [range(0, n, step)] for a positive [step], by fuel on [n]. *)
Fixpoint range_step_from (fuel i n step : nat) : list nat :=
  match fuel with
  | 0 => []
  | S fuel' =>
      if i <? n then i :: range_step_from fuel' (i + step) n step else []
  end.

Definition range_step (n step : nat) : list nat := range_step_from n 0 n step.

(** [x = l.pop(c); l.insert(p, x)]: position [c] is taken out and its
    element put back at [p]. *)
Definition move_item {A : Type} (c p : nat) (l : list A) : list A :=
  match nth_error l c with
  | Some x => insert p x (pop c l)
  | None => l
  end.

End PyList.

(* ===================================================================== *)
(** * Tracks and sort keys (services/sort_service.py) *)
(* ===================================================================== *)

Record Artist := { artist_name : option string }.

Record Album := {
  album_name : option string;
  album_release_date : option string
}.

(** The track object the worker builds from a playlist item: the fields the
    sort engine and the undo log read.  [track_added_at] is copied from the
    enclosing playlist item. *)
Record Track := {
  track_id : option string;
  track_name : option string;
  track_uri : option string;
  track_artists : option (list Artist);
  track_album : option Album;
  track_duration_ms : option Z;
  track_added_at : option string
}.

Inductive SortField := title | artist | album | release_date | date_added | duration.

Inductive Direction := asc | desc.

Inductive Method := fast | preserve.

(** A sort key is a Python [str] or [int]. *)
Inductive SortKey :=
| KStr (s : string)
| KInt (n : Z).

(** Python's [<] on keys.  Keys of one field all have the same type, so the
    mixed cases (a [TypeError] in Python) are never evaluated. *)
Definition key_lt (a b : SortKey) : bool :=
  match a, b with
  | KStr x, KStr y => String.ltb x y
  | KInt x, KInt y => Z.ltb x y
  | _, _ => false
  end.

Module SortService.

(** [str.lower()].  Strings are byte strings here and only the letters
    [A] to [Z] are folded: text outside the ASCII range is outside the
    model. *)
Definition lower_char (c : ascii) : ascii :=
  let n := nat_of_ascii c in
  if andb (65 <=? n) (n <=? 90) then ascii_of_nat (n + 32) else c.

Fixpoint lower (s : string) : string :=
  match s with
  | EmptyString => EmptyString
  | String c s' => String (lower_char c) (lower s')
  end.

(** The tail of [safe_get]: a missing or [None] value gives the default, and
    so does a falsy one ([value or default]). *)
Definition or_default_str (v : option string) (default : string) : string :=
  match v with
  | None => default
  | Some EmptyString => default
  | Some s => s
  end.

(** [safe_get(t, 'artists', '0', 'name', default='')]. *)
Definition first_artist_name (t : Track) : string :=
  match track_artists t with
  | None => EmptyString
  | Some [] => EmptyString
  | Some (a :: _) => or_default_str (artist_name a) EmptyString
  end.

Definition album_field (f : Album -> option string) (default : string) (t : Track) : string :=
  match track_album t with
  | None => default
  | Some a => or_default_str (f a) default
  end.

(** [int(safe_get(t, 'duration_ms', default='0'))]: a missing, [None] or
    zero duration falls to the default ['0']. *)
Definition duration_key (t : Track) : Z :=
  match track_duration_ms t with
  | None => 0%Z
  | Some d => d
  end.

(** [get_sort_key_function(sort_by, direction)]: the key extractor and the
    [reverse] flag. *)
Definition key_func (sort_by : SortField) (t : Track) : SortKey :=
  match sort_by with
  | title => KStr (lower (or_default_str (track_name t) EmptyString))
  | artist => KStr (lower (first_artist_name t))
  | album => KStr (lower (album_field album_name EmptyString t))
  | release_date => KStr (album_field album_release_date "0000-00-00" t)
  | date_added => KStr (or_default_str (track_added_at t) "1970-01-01T00:00:00Z")
  | duration => KInt (duration_key t)
  end.

Definition reverse_flag (direction : Direction) : bool :=
  match direction with
  | desc => true
  | asc => false
  end.

Definition get_sort_key_function (sort_by : SortField) (direction : Direction)
  : (Track -> SortKey) * bool :=
  (key_func sort_by, reverse_flag direction).

(** ** Python's [sorted(l, key=..., reverse=...)]

    [sorted] is stable and compares keys with [<] only.  With
    [reverse=True] CPython reverses the list, sorts it, and reverses the
    result, which keeps equal keys in their original order. *)
Section Sorted.
Context {A : Type} (key : A -> SortKey).

Fixpoint insert_sorted (x : A) (l : list A) : list A :=
  match l with
  | [] => [x]
  | y :: l' =>
      if key_lt (key y) (key x) then y :: insert_sorted x l' else x :: l
  end.

Definition stable_sort (l : list A) : list A := fold_right insert_sorted [] l.

Definition sorted (l : list A) (reverse : bool) : list A :=
  if reverse then rev (stable_sort (rev l)) else stable_sort l.
End Sorted.

(** Keys in the order [sorted] leaves them: no key is smaller than the one
    before it. *)
Fixpoint keys_in_order (ks : list SortKey) : Prop :=
  match ks with
  | a :: ((b :: _) as rest) => key_lt b a = false /\ keys_in_order rest
  | _ => True
  end.

Definition option_string_eqb (a b : option string) : bool :=
  match a, b with
  | Some x, Some y => String.eqb x y
  | None, None => true
  | _, _ => false
  end.

(** [calculate_moves_needed]: positions where the ids of the current and of
    the sorted order differ. *)
Fixpoint calculate_moves_needed (current_order sorted_order : list Track) : nat :=
  match current_order, sorted_order with
  | current :: cs, sorted_track :: ss =>
      (if option_string_eqb (track_id current) (track_id sorted_track) then 0 else 1)
      + calculate_moves_needed cs ss
  | _, _ => 0
  end.

(** [targetOrder]: the order both strategies aim at. *)
Definition target_order (tracks : list Track) (sort_by : SortField) (direction : Direction)
  : list Track :=
  let '(key, reverse) := get_sort_key_function sort_by direction in
  sorted key tracks reverse.

(** One [sp.playlist_reorder_items] call. *)
Record Move := {
  range_start : nat;
  insert_before : nat;
  range_length : nat
}.

Inductive Outcome :=
| AlreadySorted   (* early return, moves_needed == 0 *)
| Completed       (* the loop ran to its end *)
| Cancelled       (* should_cancel() answered True *)
| Raised          (* list.index raised ValueError *)
| RaisedTypeError. (* target_track['name'][:40] raised TypeError on a null name *)

Definition IndexedTrack : Type := nat * Track * SortKey.

Definition orig_idx (x : IndexedTrack) : nat := fst (fst x).
Definition indexed_track (x : IndexedTrack) : Track := snd (fst x).
Definition indexed_key (x : IndexedTrack) : SortKey := snd x.

Definition index_tracks (key : Track -> SortKey) (tracks : list Track) : list IndexedTrack :=
  map (fun it => (fst it, snd it, key (snd it))) (PyList.enumerate tracks).

(** [sum(1 for i, (orig_idx, _, _) in enumerate(sorted_indexed) if orig_idx != i)] *)
Definition count_out_of_place (sorted_indexed : list IndexedTrack) : nat :=
  length (filter (fun it => negb (Nat.eqb (orig_idx (snd it)) (fst it)))
                 (PyList.enumerate sorted_indexed)).

(** [target_track['name'][:40]] in the progress message of a move: slicing
    raises [TypeError] when the name is [null]. *)
Definition name_is_null (t : Track) : bool :=
  match track_name t with
  | None => true
  | Some _ => false
  end.

(** The insertion loop.  [rest] is what is left of [sorted_indexed],
    [target_pos] the loop index, [current_positions] the tracking list.
    [progress_callback] says whether a callback was passed: with one, the
    message of each move is formatted after the reorder call.
    [should_cancel] is polled once per iteration; its answer is given per
    iteration index. *)
Fixpoint preserve_loop (progress_callback : bool) (should_cancel : nat -> bool)
    (rest : list IndexedTrack) (target_pos : nat) (current_positions : list nat)
  : list Move * Outcome :=
  match rest with
  | [] => ([], Completed)
  | target :: rest' =>
      if should_cancel target_pos then ([], Cancelled)
      else
        match PyList.index (orig_idx target) current_positions with
        | None => ([], Raised)
        | Some current_pos =>
            if Nat.eqb current_pos target_pos
            then preserve_loop progress_callback should_cancel rest' (S target_pos)
                   current_positions
            else
              let call := {| range_start := current_pos;
                             insert_before := if target_pos <? current_pos
                                              then target_pos else target_pos + 1;
                             range_length := 1 |} in
              let current_positions' :=
                PyList.insert target_pos (orig_idx target)
                              (PyList.pop current_pos current_positions) in
              if progress_callback && name_is_null (indexed_track target)
              then ([call], RaisedTypeError)
              else
                let '(calls, out) :=
                  preserve_loop progress_callback should_cancel rest' (S target_pos)
                    current_positions' in
                (call :: calls, out)
        end
  end.

(** [sort_playlist_preserve_dates]: the reorder calls it issues, in order,
    and how it ended.  [progress_callback] says whether a callback is
    passed, [should_cancel] answers per poll ([should_cancel=None] is the
    function that always answers [False]). *)
Definition sort_playlist_preserve_dates (tracks : list Track) (sort_by : SortField)
    (direction : Direction) (progress_callback : bool) (should_cancel : nat -> bool)
  : list Move * Outcome :=
  let '(key, reverse) := get_sort_key_function sort_by direction in
  let indexed_tracks := index_tracks key tracks in
  let sorted_indexed := sorted indexed_key indexed_tracks reverse in
  let moves_needed := count_out_of_place sorted_indexed in
  if Nat.eqb moves_needed 0 then ([], AlreadySorted)
  else preserve_loop progress_callback should_cancel sorted_indexed 0
         (seq 0 (length tracks)).

(** [sort_playlist_fast]: the uri batches it sends; the first replaces the
    playlist, the others are appended.  [track['uri']] raises [KeyError] on a
    track without a uri, before any call is made.  The messages of its
    progress callback are formatted from numbers only, so whether one is
    passed makes no difference here. *)
Fixpoint uris_strict (tracks : list Track) : option (list string) :=
  match tracks with
  | [] => Some []
  | t :: ts =>
      match track_uri t, uris_strict ts with
      | Some u, Some us => Some (u :: us)
      | _, _ => None
      end
  end.

Definition batches (batch_size : nat) (l : list string) : list (list string) :=
  map (fun i => PyList.slice i (i + batch_size) l)
      (PyList.range_step (length l) batch_size).

Definition sort_playlist_fast (tracks : list Track) (sort_by : SortField)
    (direction : Direction) : option (list (list string)) :=
  let '(key, reverse) := get_sort_key_function sort_by direction in
  let sorted_tracks := sorted key tracks reverse in
  match uris_strict sorted_tracks with
  | None => None
  | Some track_uris => Some (batches 100 track_uris)
  end.

End SortService.

(* ===================================================================== *)
(** * The remote playlist (the Spotify Web API as the core uses it) *)
(* ===================================================================== *)

Module Remote.

(** Modelled from the spec: the remote collaborator's single-range move
    [moveRange(collection, start, length, insertBefore)], which is
    [sp.playlist_reorder_items].  The items [range_start .. range_start +
    range_length - 1] are taken out and put back in front of the item that
    was at [insert_before] before the removal; once the range is out, every
    later position has shifted left by [range_length]. *)
Definition playlist_reorder_items {A : Type} (items : list A)
    (range_start insert_before range_length : nat) : list A :=
  let moved := firstn range_length (skipn range_start items) in
  let others := firstn range_start items ++ skipn (range_start + range_length) items in
  let dest := if insert_before <=? range_start then insert_before
              else insert_before - range_length in
  firstn dest others ++ moved ++ skipn dest others.

(** Modelled from the spec: [replaceOrder], [sp.playlist_replace_items]: the
    playlist becomes exactly the given items. *)
Definition playlist_replace_items {A : Type} (items batch : list A) : list A := batch.

(** Modelled from the spec: [appendItems] and [insertItem],
    [sp.playlist_add_items(playlist, items, position=None)]: the items go to
    the end, or in front of [position] when one is given. *)
Definition playlist_add_items {A : Type} (items batch : list A) (position : option nat)
  : list A :=
  match position with
  | None => items ++ batch
  | Some p => firstn p items ++ batch ++ skipn p items
  end.

(** Replaying the reorder calls of the preserve strategy, in order. *)
Definition apply_move {A : Type} (items : list A) (m : SortService.Move) : list A :=
  playlist_reorder_items items (SortService.range_start m)
    (SortService.insert_before m) (SortService.range_length m).

Definition replay_moves {A : Type} (items : list A) (calls : list SortService.Move)
  : list A :=
  fold_left apply_move calls items.

(** Sending the batches of the fast strategy: the first replaces, the others
    are appended. *)
Definition send_batches {A : Type} (items : list A) (bs : list (list A)) : list A :=
  match bs with
  | [] => items
  | first_batch :: others =>
      fold_left (fun acc b => playlist_add_items acc b None) others
                (playlist_replace_items items first_batch)
  end.

End Remote.

(* ===================================================================== *)
(** * Persisted job records (services/job_service.py) *)
(* ===================================================================== *)

(** Instants are microseconds since the epoch; the tables store them as ISO
    strings of UTC times, which compare the same way. *)
Definition Timestamp : Type := Z.

Definition minutes (n : Z) : Z := (n * 60 * 1000000)%Z.

Inductive JobStatus := pending | in_progress | completed | failed | cancelled.

Definition JobStatus_eqb (a b : JobStatus) : bool :=
  match a, b with
  | pending, pending | in_progress, in_progress | completed, completed
  | failed, failed | cancelled, cancelled => true
  | _, _ => false
  end.

(** The text of a job's [message] column: one constructor per template the
    code formats. *)
Inductive Message :=
| MsgSortJobCreated
| MsgFetchingPlaylistTracks
| MsgFetchingTracksLoaded (loaded : nat)
| MsgAnalyzing (tracks_to_move : nat)
| MsgCancelledByUser
| MsgSortCancelledByUser
| MsgJobCancelledByUser
| MsgPlaylistAlreadySorted
| MsgSortCompleted (tracks : nat)
| MsgProgress (text_of : nat)
| MsgSortFailed (err : string)
| MsgJobFailedToStart
| MsgJobInterruptedByRestart.

(** One row of [sort_jobs]. *)
Record Job := {
  job_id : string;
  job_playlist_id : string;
  job_user_id : string;
  job_sort_by : SortField;
  job_direction : Direction;
  job_method : Method;
  job_status : JobStatus;
  job_progress : nat;
  job_total : nat;
  job_started_at : Timestamp;
  job_updated_at : Timestamp;
  job_completed_at : option Timestamp;
  job_tracks_to_move : nat;
  job_estimated_time : nat;
  job_message : option Message;
  job_error : option string
}.

Module SortJobService.

(** [status IN ('pending', 'in_progress')] *)
Definition is_active (j : Job) : bool :=
  match job_status j with
  | pending | in_progress => true
  | _ => false
  end.

(** [status in ('completed', 'failed', 'cancelled')] *)
Definition is_terminal (st : JobStatus) : bool :=
  match st with
  | completed | failed | cancelled => true
  | _ => false
  end.

(** [create_job]: a new [pending] row.  The uuid-based id is an input. *)
Definition create_job (jobs : list Job) (now : Timestamp) (new_job_id : string)
    (playlist_id user_id : string) (sort_by : SortField) (direction : Direction)
    (method : Method) (total_tracks tracks_to_move estimated_time : nat) : list Job :=
  jobs ++ [ {| job_id := new_job_id;
               job_playlist_id := playlist_id;
               job_user_id := user_id;
               job_sort_by := sort_by;
               job_direction := direction;
               job_method := method;
               job_status := pending;
               job_progress := 0;
               job_total := total_tracks;
               job_started_at := now;
               job_updated_at := now;
               job_completed_at := None;
               job_tracks_to_move := tracks_to_move;
               job_estimated_time := estimated_time;
               job_message := Some MsgSortJobCreated;
               job_error := None |} ].

Definition get_job (jobs : list Job) (id : string) : option Job :=
  find (fun j => String.eqb (job_id j) id) jobs.

Definition or_else {A : Type} (new : option A) (old : A) : A :=
  match new with
  | Some v => v
  | None => old
  end.

Definition or_keep {A : Type} (new old : option A) : option A :=
  match new with
  | Some v => Some v
  | None => old
  end.

(** The [SET] clause of [update_job] on one row. *)
Definition apply_update (now : Timestamp) (status : option JobStatus)
    (progress : option nat) (message : option Message) (error : option string)
    (total : option nat) (j : Job) : Job :=
  {| job_id := job_id j;
     job_playlist_id := job_playlist_id j;
     job_user_id := job_user_id j;
     job_sort_by := job_sort_by j;
     job_direction := job_direction j;
     job_method := job_method j;
     job_status := or_else status (job_status j);
     job_progress := or_else progress (job_progress j);
     job_total := or_else total (job_total j);
     job_started_at := job_started_at j;
     job_updated_at := now;
     job_completed_at :=
       match status with
       | Some st => if is_terminal st then Some now else job_completed_at j
       | None => job_completed_at j
       end;
     job_tracks_to_move := job_tracks_to_move j;
     job_estimated_time := job_estimated_time j;
     job_message := or_keep message (job_message j);
     job_error := or_keep error (job_error j) |}.

(** [update_job]: [UPDATE sort_jobs SET ... WHERE job_id = ?]. *)
Definition update_job (jobs : list Job) (now : Timestamp) (id : string)
    (status : option JobStatus) (progress : option nat) (message : option Message)
    (error : option string) (total : option nat) : list Job :=
  map (fun j => if String.eqb (job_id j) id
                then apply_update now status progress message error total j
                else j) jobs.

(** [ORDER BY started_at DESC LIMIT 1]: the row started last; among rows
    started at the same instant, the first in table order. *)
Fixpoint latest_started (rows : list Job) : option Job :=
  match rows with
  | [] => None
  | j :: rest =>
      match latest_started rest with
      | Some k => if (job_started_at j <? job_started_at k)%Z then Some k else Some j
      | None => Some j
      end
  end.

Definition timeout_minutes (total_tracks : nat) : Z :=
  if total_tracks <? 100 then 2%Z
  else if total_tracks <? 500 then 5%Z
  else if total_tracks <? 1000 then 10%Z
  else 15%Z.

(** [get_active_job_for_playlist]: the latest active job of the playlist,
    unless it is a [pending] job older than its timeout, which is marked
    [failed] and not returned. *)
Definition get_active_job_for_playlist (jobs : list Job) (now : Timestamp)
    (playlist_id : string) : option Job * list Job :=
  match latest_started
          (filter (fun j => andb (String.eqb (job_playlist_id j) playlist_id) (is_active j))
                  jobs) with
  | None => (None, jobs)
  | Some job =>
      match job_status job with
      | pending =>
          let age := (now - job_started_at job)%Z in
          if (minutes (timeout_minutes (job_total job)) <? age)%Z
          then (None,
                update_job jobs now (job_id job) (Some failed) None
                  (Some MsgJobFailedToStart)
                  (Some "Job timed out - did not start within expected timeframe"%string)
                  None)
          else (Some job, jobs)
      | _ => (Some job, jobs)
      end
  end.

(** [cancel_job] *)
Definition cancel_job (jobs : list Job) (now : Timestamp) (id : string) : list Job :=
  update_job jobs now id (Some cancelled) None (Some MsgJobCancelledByUser) None None.

(** [get_user_active_job_count] *)
Definition get_user_active_job_count (jobs : list Job) (user_id : string) : nat :=
  length (filter (fun j => andb (String.eqb (job_user_id j) user_id) (is_active j)) jobs).

Definition interrupted_error : string := "Service restarted while job was running".

(** [recover_interrupted_jobs]: one [UPDATE] over every active row; the two
    timestamps are two readings of the clock.  Returns the row count too. *)
Definition recover_row (updated_at completed_at : Timestamp) (j : Job) : Job :=
  if is_active j then
    {| job_id := job_id j;
       job_playlist_id := job_playlist_id j;
       job_user_id := job_user_id j;
       job_sort_by := job_sort_by j;
       job_direction := job_direction j;
       job_method := job_method j;
       job_status := failed;
       job_progress := job_progress j;
       job_total := job_total j;
       job_started_at := job_started_at j;
       job_updated_at := updated_at;
       job_completed_at := Some completed_at;
       job_tracks_to_move := job_tracks_to_move j;
       job_estimated_time := job_estimated_time j;
       job_message := Some MsgJobInterruptedByRestart;
       job_error := Some interrupted_error |}
  else j.

Definition recover_interrupted_jobs (jobs : list Job) (updated_at completed_at : Timestamp)
  : nat * list Job :=
  (length (filter is_active jobs), map (recover_row updated_at completed_at) jobs).

(** What the recovery sweep is expected to do to one row: an active row
    becomes failed with the restart error and both timestamps set, any other
    row is left alone. *)
Definition swept (t1 t2 : Timestamp) (j j' : Job) : Prop :=
  job_id j' = job_id j
  /\ if is_active j
     then job_status j' = failed
          /\ job_error j' = Some interrupted_error
          /\ job_updated_at j' = t1
          /\ job_completed_at j' = Some t2
     else j' = j.

End SortJobService.

(** main.py, [lifespan]: the startup part that touches the job table. *)
Module Main.

Definition lifespan_startup (jobs : list Job) (t1 t2 : Timestamp) : list Job :=
  snd (SortJobService.recover_interrupted_jobs jobs t1 t2).

End Main.

(* ===================================================================== *)
(** * The Spotify client as the core sees it *)
(* ===================================================================== *)

(** One element of the [items] array the Web API returns for a playlist:
    [Some t] for an item whose [track] is the object [t] (which carries the
    item's [added_at]), [None] for an item whose [track] is [null]. *)
Definition PlaylistItem : Type := option Track.

(** [(item.get("track") or {}).get("uri")] *)
Definition item_uri (item : PlaylistItem) : option string :=
  match item with
  | Some t => track_uri t
  | None => None
  end.

(** Modelled from the spec: the remote ordered collection behind
    [getOrder], [getVersionToken], [replaceOrder], [appendItems],
    [insertItem] and [moveRange].  The state is that of the playlist a
    request addresses: its items in order, the number of mutations it has
    seen, the opaque version token it reports after each mutation, and the
    catalogue entry a uri resolves to when it is added. *)
Record Spotify := {
  sp_items : list PlaylistItem;
  sp_version : nat;
  sp_token : nat -> option string;
  sp_catalog : string -> Track
}.

Module SpotifyClient.

(** [sp.playlist(playlist_id, fields="snapshot_id").get("snapshot_id")] *)
Definition snapshot_id (sp : Spotify) : option string := sp_token sp (sp_version sp).

Definition mutate (sp : Spotify) (items : list PlaylistItem) : Spotify :=
  {| sp_items := items;
     sp_version := S (sp_version sp);
     sp_token := sp_token sp;
     sp_catalog := sp_catalog sp |}.

(** The items a list of uris becomes when it is sent to the playlist. *)
Definition resolve (sp : Spotify) (uris : list string) : list PlaylistItem :=
  map (fun uri => Some (sp_catalog sp uri)) uris.

Definition playlist_reorder_items (sp : Spotify) (m : SortService.Move) : Spotify :=
  mutate sp (Remote.apply_move (sp_items sp) m).

Definition playlist_replace_items (sp : Spotify) (uris : list string) : Spotify :=
  mutate sp (Remote.playlist_replace_items (sp_items sp) (resolve sp uris)).

Definition playlist_add_items (sp : Spotify) (uris : list string) (position : option nat)
  : Spotify :=
  mutate sp (Remote.playlist_add_items (sp_items sp) (resolve sp uris) position).

(** The uris of the playlist, in order: the identity of its items. *)
Definition uris (sp : Spotify) : list (option string) := map item_uri (sp_items sp).

End SpotifyClient.

(* ===================================================================== *)
(** * The undo log (db/operations.py) *)
(* ===================================================================== *)

(** One entry of [payload["removed_items"]]. *)
Record RemovedItem := {
  removed_uri : option string;
  removed_position : option nat
}.

(** The JSON payload of an operation; an absent key is an empty list or
    [None]. *)
Record Payload := {
  payload_removed_items : list RemovedItem;
  payload_original_order : list string;
  payload_sort_by : option SortField;
  payload_direction : option Direction;
  payload_method : option Method;
  payload_source : option string;
  payload_schedule_id : option nat;
  payload_tracks_moved : option nat
}.

(** One row of [playlist_operations]. *)
Record Operation := {
  op_id : nat;
  op_playlist_id : string;
  op_user_id : string;
  op_type : string;
  op_snapshot_before : option string;
  op_snapshot_after : option string;
  op_payload : Payload;
  op_created_at : Timestamp;
  op_expires_at : Timestamp;
  op_undone : bool;
  op_changes_made : bool
}.

Module OpStore.

Definition DEFAULT_EXPIRY_DAYS : Z := 7.

Definition days (n : Z) : Z := (n * 24 * 60 * 60 * 1000000)%Z.

(** [cur.lastrowid] of the [AUTOINCREMENT] key, drawn as one more than the
    largest id in the table.  SQLite also never hands out again the id of a
    deleted row, which a table kept as its list of rows does not record: the
    number drawn differs from SQLite's once the newest row has been swept.
    Ids are unique among the rows either way. *)
Definition next_id (ops : list Operation) : nat :=
  S (fold_right (fun o m => Nat.max (op_id o) m) 0 ops).

(** [record_operation] with the default expiry. *)
Definition record_operation (ops : list Operation) (now : Timestamp)
    (playlist_id user_id op_type : string) (snapshot_before snapshot_after : option string)
    (payload : Payload) (changes_made : bool) : list Operation :=
  ops ++ [ {| op_id := next_id ops;
              op_playlist_id := playlist_id;
              op_user_id := user_id;
              op_type := op_type;
              op_snapshot_before := snapshot_before;
              op_snapshot_after := snapshot_after;
              op_payload := payload;
              op_created_at := now;
              op_expires_at := (now + days DEFAULT_EXPIRY_DAYS)%Z;
              op_undone := false;
              op_changes_made := changes_made |} ].

(** [ORDER BY created_at DESC LIMIT 1]; among rows created at the same
    instant, the first in table order. *)
Fixpoint latest_created (rows : list Operation) : option Operation :=
  match rows with
  | [] => None
  | o :: rest =>
      match latest_created rest with
      | Some k => if (op_created_at o <? op_created_at k)%Z then Some k else Some o
      | None => Some o
      end
  end.

(** [get_latest_operation]: the most recent entry of the playlist and user
    that is not undone, not expired, and made changes. *)
Definition get_latest_operation (ops : list Operation) (now : Timestamp)
    (playlist_id user_id : string) : option Operation :=
  latest_created
    (filter (fun o =>
               String.eqb (op_playlist_id o) playlist_id
               && String.eqb (op_user_id o) user_id
               && negb (op_undone o)
               && (now <? op_expires_at o)%Z
               && op_changes_made o)%bool
            ops).

Definition set_undone (o : Operation) : Operation :=
  {| op_id := op_id o;
     op_playlist_id := op_playlist_id o;
     op_user_id := op_user_id o;
     op_type := op_type o;
     op_snapshot_before := op_snapshot_before o;
     op_snapshot_after := op_snapshot_after o;
     op_payload := op_payload o;
     op_created_at := op_created_at o;
     op_expires_at := op_expires_at o;
     op_undone := true;
     op_changes_made := op_changes_made o |}.

(** [mark_undone] *)
Definition mark_undone (ops : list Operation) (id : nat) : list Operation :=
  map (fun o => if Nat.eqb (op_id o) id then set_undone o else o) ops.

(** [cleanup_expired]: [DELETE ... WHERE expires_at <= now]. *)
Definition cleanup_expired (ops : list Operation) (now : Timestamp) : list Operation :=
  filter (fun o => (now <? op_expires_at o)%Z) ops.

End OpStore.

(* ===================================================================== *)
(** * The background worker (services/task_executor.py) *)
(* ===================================================================== *)

(** The [meta] dictionary of a submission. *)
Record Meta := {
  meta_source : option string;
  meta_schedule_id : option nat
}.

Definition no_meta : Meta := {| meta_source := None; meta_schedule_id := None |}.

(** The arguments [start_sort_job] hands to the thread pool. *)
Record SortTask := {
  task_job_id : string;
  task_playlist_id : string;
  task_user_id : string;
  task_sort_by : SortField;
  task_direction : Direction;
  task_method : Method;
  task_session_id : option string;
  task_meta : Meta
}.

(** The per-job [threading.Event].  The worker polls it once per fetched
    page, once per iteration of the preserve loop and once after the sort;
    polls are numbered in that order, the one after the sort with a number
    past every poll of the loop.  An event that is set stays set:
    [cancel_set_at] is the first poll that sees it. *)
Record CancelEvent := { cancel_set_at : option nat }.

Definition is_set (ev : CancelEvent) (poll : nat) : bool :=
  match cancel_set_at ev with
  | Some t => t <=? poll
  | None => false
  end.

Definition never_set : CancelEvent := {| cancel_set_at := None |}.

(** What a worker run reads and writes: the playlist behind the client, the
    job table and the undo log.  [w_client_ok] says whether
    [get_spotify_client] gives a client for the user. *)
Record World := {
  w_client_ok : bool;
  w_sp : Spotify;
  w_jobs : list Job;
  w_ops : list Operation
}.

Module TaskExecutor.
Import SortService.

Definition with_jobs (w : World) (jobs : list Job) : World :=
  {| w_client_ok := w_client_ok w; w_sp := w_sp w; w_jobs := jobs; w_ops := w_ops w |}.

Definition with_sp (w : World) (sp : Spotify) : World :=
  {| w_client_ok := w_client_ok w; w_sp := sp; w_jobs := w_jobs w; w_ops := w_ops w |}.

Definition with_ops (w : World) (ops : list Operation) : World :=
  {| w_client_ok := w_client_ok w; w_sp := w_sp w; w_jobs := w_jobs w; w_ops := ops |}.

(** [start_sort_job]: the task is queued; the pool runs [_run_sort_job] on
    it later. *)
Definition start_sort_job (job_id playlist_id user_id : string) (sort_by : SortField)
    (direction : Direction) (method : Method) (session_id : option string)
    (meta : option Meta) : SortTask :=
  {| task_job_id := job_id;
     task_playlist_id := playlist_id;
     task_user_id := user_id;
     task_sort_by := sort_by;
     task_direction := direction;
     task_method := method;
     task_session_id := session_id;
     task_meta := match meta with Some m => m | None => no_meta end |}.

(** Pages of 100 the fetch loop asks for: it stops at the first page that
    is not full. *)
Definition fetch_pages (n_items : nat) : nat := n_items / 100 + 1.

(** The fetch loop's [if item and item.get('track'): ... tracks.append(track)]:
    items whose track is [null] are left out, so a track's index in the
    result is not its position in the playlist when such an item precedes
    it. *)
Fixpoint fetched_tracks (items : list PlaylistItem) : list Track :=
  match items with
  | [] => []
  | Some track :: rest => track :: fetched_tracks rest
  | None :: rest => fetched_tracks rest
  end.

(** [[t.get("uri") for t in tracks if t.get("uri")]] *)
Fixpoint original_order_of (tracks : list Track) : list string :=
  match tracks with
  | [] => []
  | t :: ts =>
      match track_uri t with
      | Some (String c u) => String c u :: original_order_of ts
      | _ => original_order_of ts
      end
  end.

(** The [except Exception] arm: the job is marked [failed]. *)
Definition fail_job (w : World) (now : Timestamp) (id err : string) : World :=
  with_jobs w (SortJobService.update_job (w_jobs w) now id (Some failed) None
                 (Some (MsgSortFailed err)) (Some err) None).

(** The sort proper, with the worker's [progress_callback] and
    [should_cancel] passed to the strategy: the client after the calls the
    strategy made, and the text of the exception when it raised ([KeyError]
    on a missing uri in the fast strategy; [ValueError] from [list.index]
    or [TypeError] from the name of a moved track in the preserve one). *)
Definition execute_sort (sp : Spotify) (tracks : list Track) (task : SortTask)
    (ev : CancelEvent) (first_poll : nat) : Spotify * option string :=
  match task_method task with
  | fast =>
      match sort_playlist_fast tracks (task_sort_by task) (task_direction task) with
      | None => (sp, Some "'uri'"%string)
      | Some [] => (sp, None)
      | Some (first_batch :: others) =>
          (fold_left (fun acc b => SpotifyClient.playlist_add_items acc b None) others
                     (SpotifyClient.playlist_replace_items sp first_batch),
           None)
      end
  | preserve =>
      let '(calls, out) :=
        sort_playlist_preserve_dates tracks (task_sort_by task) (task_direction task)
          true (fun p => is_set ev (first_poll + p)) in
      let sp' := fold_left SpotifyClient.playlist_reorder_items calls sp in
      match out with
      | Raised => (sp', Some "x is not in list"%string)
      | RaisedTypeError => (sp', Some "'NoneType' object is not subscriptable"%string)
      | _ => (sp', None)
      end
  end.

(** [_run_sort_job].  The worker's progress callback rewrites the
    [progress] and [message] columns of the running job while the event is
    not set; these writes are not modelled.  All clock readings of one run
    are the single [now]. *)
Definition _run_sort_job (w : World) (now : Timestamp) (task : SortTask)
    (ev : CancelEvent) : World :=
  let id := task_job_id task in
  let w1 := with_jobs w (SortJobService.update_job (w_jobs w) now id (Some in_progress)
                           None (Some MsgFetchingPlaylistTracks) None None) in
  if negb (w_client_ok w1)
  then fail_job w1 now id "Failed to get Spotify client - authentication may have expired"
  else
    let sp := w_sp w1 in
    let snapshot_before := SpotifyClient.snapshot_id sp in
    let items := sp_items sp in
    let pages := fetch_pages (length items) in
    if is_set ev (pages - 1)
    then with_jobs w1 (SortJobService.update_job (w_jobs w1) now id (Some cancelled) None
                         (Some MsgCancelledByUser) None None)
    else
      let tracks := fetched_tracks items in
      let '(key, reverse) := get_sort_key_function (task_sort_by task) (task_direction task) in
      let sorted_tracks := sorted key tracks reverse in
      let tracks_to_move := calculate_moves_needed tracks sorted_tracks in
      let total_moves :=
        match task_method task with
        | preserve => tracks_to_move
        | fast => length tracks
        end in
      let w2 := with_jobs w1 (SortJobService.update_job (w_jobs w1) now id None None
                                (Some (MsgAnalyzing tracks_to_move)) None (Some total_moves)) in
      let original_order := original_order_of tracks in
      match execute_sort sp tracks task ev pages with
      | (sp', Some err) => fail_job (with_sp w2 sp') now id err
      | (sp', None) =>
          let w3 := with_sp w2 sp' in
          if is_set ev (pages + length items)
          then with_jobs w3 (SortJobService.update_job (w_jobs w3) now id (Some cancelled)
                               None (Some MsgSortCancelledByUser) None None)
          else
            let w4 := with_jobs w3
              (SortJobService.update_job (w_jobs w3) now id (Some completed)
                 (Some total_moves)
                 (Some (if Nat.eqb tracks_to_move 0 then MsgPlaylistAlreadySorted
                        else MsgSortCompleted (length tracks)))
                 None (Some total_moves)) in
            let snapshot_after := SpotifyClient.snapshot_id sp' in
            let changes_made := 0 <? tracks_to_move in
            with_ops w4
              (OpStore.record_operation (OpStore.cleanup_expired (w_ops w4) now) now
                 (task_playlist_id task) (task_user_id task) "sort_reorder"
                 snapshot_before snapshot_after
                 {| payload_removed_items := [];
                    payload_original_order := original_order;
                    payload_sort_by := Some (task_sort_by task);
                    payload_direction := Some (task_direction task);
                    payload_method := Some (task_method task);
                    payload_source := meta_source (task_meta task);
                    payload_schedule_id := meta_schedule_id (task_meta task);
                    payload_tracks_moved := Some tracks_to_move |}
                 changes_made)
      end.

End TaskExecutor.

(* ===================================================================== *)
(** * Request handlers (routes/sort.py, routes/playlists.py) *)
(* ===================================================================== *)

(** The [detail] of an [HTTPException].  A handler that catches an
    exception and answers with [detail=str(e)] wraps the text of the one it
    caught, which for an [HTTPException] is its status and detail. *)
Inductive Detail :=
| DetailText (text : string)
| DetailTooManyJobs (active_count : nat)
| DetailUnsupportedUndo (op_type : string)
| DetailWrapped (status : nat) (inner : Detail).

Inductive Http (A : Type) :=
| HttpOk (body : A)
| HttpError (status : nat) (detail : Detail).

Arguments HttpOk {A} body.
Arguments HttpError {A} status detail.

Definition is_error {A : Type} (r : Http A) : Prop :=
  match r with
  | HttpError _ _ => True
  | HttpOk _ => False
  end.

(** The session behind a request. *)
Record Session := {
  session_authenticated : bool;
  session_user_id : string;
  session_id : option string
}.




(** Python truthiness of an optional string. *)
Definition truthy (s : option string) : bool :=
  match s with
  | Some (String _ _) => true
  | _ => false
  end.

Module SortRoutes.




End SortRoutes.

Record UndoResponse := {
  undo_restored : nat;
  undo_snapshot_id : option string;
  undo_operation_id : nat;
  undo_op_type : string
}.

Module PlaylistRoutes.

(** [x.get("position", 0)], the sort key of a recorded item.  The records
    [remove_duplicates] writes always carry the key, so [None] is a [null]
    position: it is never compared (see [sort_by_position]). *)
Definition position_key (item : RemovedItem) : SortKey :=
  match removed_position item with
  | Some p => KInt (Z.of_nat p)
  | None => KInt 0
  end.

Definition position_is_null (item : RemovedItem) : bool :=
  match removed_position item with
  | None => true
  | Some _ => false
  end.

(** [sorted(removed_items, key=lambda x: x.get("position", 0))]: sorting
    two or more items compares every key with another one, and [<] raises
    [TypeError] when one of the two is [None]; [None] is that exception. *)
Definition sort_by_position (removed_items : list RemovedItem)
  : option (list RemovedItem) :=
  if (2 <=? length removed_items) && existsb position_is_null removed_items
  then None
  else Some (SortService.sorted position_key removed_items false).

(** The reinsertion loop of the [duplicates_remove] undo. *)
Definition reinsert (sp : Spotify) (item : RemovedItem) : Spotify :=
  if truthy (removed_uri item)
  then match removed_uri item with
       | Some uri => SpotifyClient.playlist_add_items sp [uri] (removed_position item)
       | None => sp
       end
  else sp.

(** The replay of a [sort_reorder] undo: the first 100 uris replace the
    playlist, the rest is appended in batches of 100. *)
Definition restore_order (sp : Spotify) (original_order : list string) : Spotify :=
  let first_batch := PyList.slice 0 100 original_order in
  let rest := skipn 100 original_order in
  fold_left (fun acc i => SpotifyClient.playlist_add_items acc
                            (PyList.slice i (i + 100) rest) None)
            (PyList.range_step (length rest) 100)
            (SpotifyClient.playlist_replace_items sp first_batch).

(** Step 3 of the undo protocol: the replay of the inverse of [op], by
    [op_type], and the [mark_undone] that follows a successful replay. *)
Definition replay_operation (sp : Spotify) (ops1 : list Operation) (op : Operation)
  : Http UndoResponse * Spotify * list Operation :=
  if String.eqb (op_type op) "duplicates_remove"
  then
    let removed_items := payload_removed_items (op_payload op) in
    match removed_items with
    | [] => (HttpError 400 (DetailText "No removal data stored for undo."), sp, ops1)
    | _ =>
        match sort_by_position removed_items with
        | None => (HttpError 500 (DetailText "Failed to undo last operation"), sp, ops1)
        | Some in_order =>
            let sp' := fold_left reinsert in_order sp in
            (HttpOk {| undo_restored := length removed_items;
                       undo_snapshot_id := SpotifyClient.snapshot_id sp';
                       undo_operation_id := op_id op;
                       undo_op_type := op_type op |},
             sp', OpStore.mark_undone ops1 (op_id op))
        end
    end
  else if String.eqb (op_type op) "sort_reorder"
  then
    let original_order := payload_original_order (op_payload op) in
    match original_order with
    | [] => (HttpError 400 (DetailText "No sort history stored for undo."), sp, ops1)
    | _ =>
        let sp' := restore_order sp original_order in
        (HttpOk {| undo_restored := length original_order;
                   undo_snapshot_id := SpotifyClient.snapshot_id sp';
                   undo_operation_id := op_id op;
                   undo_op_type := op_type op |},
         sp', OpStore.mark_undone ops1 (op_id op))
    end
  else (HttpError 400 (DetailUnsupportedUndo (op_type op)), sp, ops1).

(** The guard in front of the replay: a conflict is reported only when both
    tokens are truthy and differ. *)
Definition snapshot_conflict (expected_snapshot current_snapshot : option string) : bool :=
  (truthy expected_snapshot && truthy current_snapshot
   && negb (SortService.option_string_eqb current_snapshot expected_snapshot))%bool.

Definition conflict_detail : Detail :=
  DetailText "Playlist changed since this action; undo not available. Refresh and try again if you just updated.".

(** [undo_last_operation]: the response, the client and the undo log
    afterwards. *)
Definition undo_last_operation (sp : Spotify) (client_ok : bool)
    (ops : list Operation) (now : Timestamp) (playlist_id user_id : string)
  : Http UndoResponse * Spotify * list Operation :=
  if negb client_ok
  then (HttpError 401 (DetailText "Spotify authentication expired"), sp, ops)
  else
    let ops1 := OpStore.cleanup_expired ops now in
    match OpStore.get_latest_operation ops1 now playlist_id user_id with
    | None =>
        (HttpError 404 (DetailText "No undoable operations found for this playlist"),
         sp, ops1)
    | Some op =>
        let current_snapshot := SpotifyClient.snapshot_id sp in
        let expected_snapshot := op_snapshot_after op in
        if snapshot_conflict expected_snapshot current_snapshot
        then (HttpError 409 conflict_detail, sp, ops1)
        else replay_operation sp ops1 op
    end.

End PlaylistRoutes.

(* ===================================================================== *)
(** * Scheduled sorts (services/scheduler_service.py) *)
(* ===================================================================== *)

(** The [params] object of a schedule: the sort to run and the recurrence.
    An absent key is [None]. *)
Record ScheduleParams := {
  param_sort_by : option SortField;
  param_direction : option Direction;
  param_method : option Method;
  param_schedule_type : option string;
  param_hour_of_day : option Z;
  param_day_of_week : option string;
  param_day_of_month : option Z;
  param_timezone_offset_minutes : option Z
}.

Inductive SortDispatch :=
| DispatchSkipped
| DispatchSubmitted (job_id : string)
| DispatchRaised (err : string).

Module SchedulerSort.

Definition scheduled_meta (schedule_id : nat) : Meta :=
  {| meta_source := Some "scheduled"%string; meta_schedule_id := Some schedule_id |}.

(** [_run_sort_schedule]: what happened, the job table afterwards, and the
    tasks handed to the worker pool. *)
Definition _run_sort_schedule (jobs : list Job) (now : Timestamp) (new_job_id : string)
    (client_ok : bool) (total : nat) (playlist_id user_id : string)
    (session_id : option string) (params : ScheduleParams) (schedule_id : nat)
  : SortDispatch * list Job * list SortTask :=
  let sort_by := SortJobService.or_else (param_sort_by params) date_added in
  let direction := SortJobService.or_else (param_direction params) desc in
  let method := SortJobService.or_else (param_method params) preserve in
  let '(active, jobs1) := SortJobService.get_active_job_for_playlist jobs now playlist_id in
  let skip :=
    match active with
    | Some job => String.eqb (job_user_id job) user_id
    | None => false
    end in
  if skip then (DispatchSkipped, jobs1, [])
  else if negb client_ok
  then (DispatchRaised "Spotify authentication expired for scheduled task", jobs1, [])
  else
    let jobs2 := SortJobService.create_job jobs1 now new_job_id playlist_id user_id
                   sort_by direction method total 0 0 in
    let task := TaskExecutor.start_sort_job new_job_id playlist_id user_id
                  sort_by direction method session_id
                  (Some (scheduled_meta schedule_id)) in
    (DispatchSubmitted new_job_id, jobs2, [task]).

End SchedulerSort.

(* ===================================================================== *)
(** * Python's [datetime] as the scheduler uses it *)
(* ===================================================================== *)

(** The standard library's proleptic Gregorian calendar, after its pure
    Python implementation: ordinals count days from 0001-01-01 = 1, [//] and
    [%] are floor division and remainder.  All datetimes here carry the UTC
    tzinfo, so they compare field by field. *)
Module PyDatetime.
Local Open Scope Z_scope.

Record datetime := {
  year : Z;
  month : Z;
  day : Z;
  hour : Z;
  minute : Z;
  second : Z;
  microsecond : Z
}.

Definition MINYEAR : Z := 1.
Definition MAXYEAR : Z := 9999.
Definition _MAXORDINAL : Z := 3652059.

Definition _is_leap (y : Z) : bool :=
  (y mod 4 =? 0) && (negb (y mod 100 =? 0) || (y mod 400 =? 0)).

Definition _days_before_year (y : Z) : Z :=
  let y' := y - 1 in y' * 365 + y' / 4 - y' / 100 + y' / 400.

(** [_DAYS_IN_MONTH[m]] *)
Definition _DAYS_IN_MONTH (m : Z) : Z :=
  match m with
  | 1 => 31 | 2 => 28 | 3 => 31 | 4 => 30 | 5 => 31 | 6 => 30
  | 7 => 31 | 8 => 31 | 9 => 30 | 10 => 31 | 11 => 30 | 12 => 31
  | _ => -1
  end.

(** [_DAYS_BEFORE_MONTH[m]] *)
Definition _DAYS_BEFORE_MONTH (m : Z) : Z :=
  match m with
  | 1 => 0 | 2 => 31 | 3 => 59 | 4 => 90 | 5 => 120 | 6 => 151
  | 7 => 181 | 8 => 212 | 9 => 243 | 10 => 273 | 11 => 304 | 12 => 334
  | _ => -1
  end.

Definition leap_day (y : Z) : Z := if _is_leap y then 1 else 0.

Definition _days_in_month (y m : Z) : Z :=
  if (m =? 2) && _is_leap y then 29 else _DAYS_IN_MONTH m.

Definition _days_before_month (y m : Z) : Z :=
  _DAYS_BEFORE_MONTH m + (if (2 <? m) && _is_leap y then 1 else 0).

Definition _ymd2ord (y m d : Z) : Z :=
  _days_before_year y + _days_before_month y m + d.

Definition _DI400Y : Z := 146097.
Definition _DI100Y : Z := 36524.
Definition _DI4Y : Z := 1461.

(** The part of [_ord2ymd] after the 400-year cycles are split off: [n] is
    the zero-based day within the cycle, [year0] the first year of the
    cycle. *)
Definition _ord2ymd_in_cycle (year0 n : Z) : Z * Z * Z :=
  let n100 := n / _DI100Y in
  let n := n mod _DI100Y in
  let n4 := n / _DI4Y in
  let n := n mod _DI4Y in
  let n1 := n / 365 in
  let n := n mod 365 in
  let y := year0 + n100 * 100 + n4 * 4 + n1 in
  if (n1 =? 4) || (n100 =? 4) then (y - 1, 12, 31)
  else
    let leapyear := (n1 =? 3) && (negb (n4 =? 24) || (n100 =? 3)) in
    let m := Z.shiftr (n + 50) 5 in
    let preceding := _DAYS_BEFORE_MONTH m + (if (2 <? m) && leapyear then 1 else 0) in
    if n <? preceding
    then
      let m' := m - 1 in
      let preceding' :=
        preceding - (_DAYS_IN_MONTH m' + (if (m' =? 2) && leapyear then 1 else 0)) in
      (y, m', n - preceding' + 1)
    else (y, m, n - preceding + 1).

Definition _ord2ymd (n : Z) : Z * Z * Z :=
  let n := n - 1 in
  let n400 := n / _DI400Y in
  let n := n mod _DI400Y in
  _ord2ymd_in_cycle (n400 * 400 + 1) n.

(** [_check_date_fields] and [_check_time_fields] *)
Definition valid_date (y m d : Z) : bool :=
  (MINYEAR <=? y) && (y <=? MAXYEAR) && (1 <=? m) && (m <=? 12)
  && (1 <=? d) && (d <=? _days_in_month y m).

Definition valid_time (h mi s us : Z) : bool :=
  (0 <=? h) && (h <=? 23) && (0 <=? mi) && (mi <=? 59)
  && (0 <=? s) && (s <=? 59) && (0 <=? us) && (us <=? 999999).

Definition valid (dt : datetime) : bool :=
  valid_date (year dt) (month dt) (day dt)
  && valid_time (hour dt) (minute dt) (second dt) (microsecond dt).

(** The constructor: [None] where it raises [ValueError]. *)
Definition make (y m d h mi s us : Z) : option datetime :=
  if valid_date y m d && valid_time h mi s us
  then Some {| year := y; month := m; day := d;
               hour := h; minute := mi; second := s; microsecond := us |}
  else None.

(** [dt.replace(minute=0, second=0, microsecond=0, hour=h)] *)
Definition replace_time (dt : datetime) (h mi s us : Z) : option datetime :=
  make (year dt) (month dt) (day dt) h mi s us.

(** [dt.replace(year=y, month=m, day=d)] *)
Definition replace_date (dt : datetime) (y m d : Z) : option datetime :=
  make y m d (hour dt) (minute dt) (second dt) (microsecond dt).

Definition toordinal (dt : datetime) : Z := _ymd2ord (year dt) (month dt) (day dt).

(** [dt.weekday()]: Monday is 0. *)
Definition weekday (dt : datetime) : Z := (toordinal dt + 6) mod 7.

(** A [timedelta], as its total of microseconds. *)
Definition timedelta : Type := Z.

Definition US_PER_DAY : Z := 86400000000.

(** [timedelta(minutes=m)] and [timedelta(days=d)]: [None] where the
    constructor raises [OverflowError] (more than 999999999 days). *)
Definition checked (us : Z) : option timedelta :=
  if (Z.abs (us / US_PER_DAY) <=? 999999999) then Some us else None.

Definition timedelta_minutes (m : Z) : option timedelta := checked (m * 60000000).

Definition timedelta_days (d : Z) : option timedelta := checked (d * US_PER_DAY).

(** The time of day in microseconds. *)
Definition time_of_day (dt : datetime) : Z :=
  ((hour dt * 60 + minute dt) * 60 + second dt) * 1000000 + microsecond dt.

(** [dt + td]: [None] where it raises [OverflowError]. *)
Definition add (dt : datetime) (td : timedelta) : option datetime :=
  let total := toordinal dt * US_PER_DAY + time_of_day dt + td in
  let days := total / US_PER_DAY in
  let rest := total mod US_PER_DAY in
  let seconds := rest / 1000000 in
  let us := rest mod 1000000 in
  let h := seconds / 3600 in
  let rem := seconds mod 3600 in
  let mi := rem / 60 in
  let s := rem mod 60 in
  if (0 <? days) && (days <=? _MAXORDINAL)
  then let '(y, m, d) := _ord2ymd days in
       Some {| year := y; month := m; day := d;
               hour := h; minute := mi; second := s; microsecond := us |}
  else None.

(** [dt - td] *)
Definition sub (dt : datetime) (td : timedelta) : option datetime := add dt (- td).

(** Comparison of two datetimes with the same tzinfo: the field tuples
    [(year, month, day, hour, minute, second, microsecond)] in
    lexicographic order. *)
Fixpoint lex_compare (a b : list Z) : comparison :=
  match a, b with
  | x :: a', y :: b' =>
      match x ?= y with
      | Eq => lex_compare a' b'
      | c => c
      end
  | [], [] => Eq
  | [], _ :: _ => Lt
  | _ :: _, [] => Gt
  end.

Definition fields (dt : datetime) : list Z :=
  [year dt; month dt; day dt; hour dt; minute dt; second dt; microsecond dt].

Definition compare (a b : datetime) : comparison := lex_compare (fields a) (fields b).

(** [a <= b] *)
Definition leb (a b : datetime) : bool :=
  match compare a b with
  | Gt => false
  | _ => true
  end.

(** [a < b] *)
Definition ltb (a b : datetime) : bool :=
  match compare a b with
  | Lt => true
  | _ => false
  end.

(** What [_ord2ymd] must satisfy on the day [r] of a 400-year cycle that
    starts with year 1. *)
Definition cycle_day_ok (r : Z) : bool :=
  let '(y, m, d) := _ord2ymd_in_cycle 1 r in
  (1 <=? y) && (y <=? 400) && (1 <=? m) && (m <=? 12)
  && (1 <=? d) && (d <=? _days_in_month y m)
  && (_ymd2ord y m d =? r + 1).

(** [P] on every integer of [lo .. lo + len - 1], by halving; [fuel]
    halvings reach ranges of up to [2 ^ fuel] integers. *)
Fixpoint all_in_range (fuel : nat) (lo len : Z) (P : Z -> bool) : bool :=
  match fuel with
  | O => if len <=? 0 then true else if len =? 1 then P lo else false
  | S fuel' =>
      let h := len / 2 in
      all_in_range fuel' lo h P && all_in_range fuel' (lo + h) (len - h) P
  end.

(** The instant a datetime denotes, in microseconds from the start of day
    0 of the calendar. *)
Definition instant (dt : datetime) : Z := toordinal dt * US_PER_DAY + time_of_day dt.

End PyDatetime.

(* ===================================================================== *)
(** * Recurrence computation and schedule rows (db/schedules.py) *)
(* ===================================================================== *)

(** One row of [playlist_schedules].  The run times, stored as ISO strings,
    are kept as datetimes. *)
Record Schedule := {
  sched_id : nat;
  sched_playlist_id : string;
  sched_user_id : string;
  sched_session_id : option string;
  sched_action_type : string;
  sched_params : option ScheduleParams;
  sched_frequency_minutes : option Z;
  sched_next_run_at : option PyDatetime.datetime;
  sched_last_run_at : option PyDatetime.datetime;
  sched_enabled : bool;
  sched_status : string;
  sched_last_error : option string
}.

Module Schedules.
Import PyDatetime.
Local Open Scope Z_scope.

Definition bind {A B : Type} (x : option A) (k : A -> option B) : option B :=
  match x with
  | Some a => k a
  | None => None
  end.

(** [try: a  except Exception: b] *)
Definition try_except {A : Type} (a b : option A) : option A :=
  match a with
  | Some v => Some v
  | None => b
  end.

Definition empty_params : ScheduleParams :=
  {| param_sort_by := None; param_direction := None; param_method := None;
     param_schedule_type := None; param_hour_of_day := None;
     param_day_of_week := None; param_day_of_month := None;
     param_timezone_offset_minutes := None |}.

(** [dow_map.get(dow, 0)] *)
Definition dow_map (dow : string) : Z :=
  if String.eqb dow "mon" then 0
  else if String.eqb dow "tue" then 1
  else if String.eqb dow "wed" then 2
  else if String.eqb dow "thu" then 3
  else if String.eqb dow "fri" then 4
  else if String.eqb dow "sat" then 5
  else if String.eqb dow "sun" then 6
  else 0.

(** The [monthly] arm: the anchor day of this month, or of the next one
    when it has passed. *)
Definition monthly_candidate (base_local target_local : datetime) (dom : Z)
  : option datetime :=
  let y := year target_local in
  let m := month target_local in
  let d := Z.max 1 (Z.min dom 28) in
  bind (try_except (replace_date target_local y m d) (replace_date target_local y m 1))
    (fun candidate =>
       if leb candidate base_local
       then
         let '(y', m') := if m =? 12 then (y + 1, 1) else (y, m + 1) in
         try_except (replace_date candidate y' m' d) (replace_date candidate y' m' 1)
       else Some candidate).

(** [schedule.get("params") or {}] and the reads of its keys with their
    defaults. *)
Definition params_of (params : option ScheduleParams) : ScheduleParams :=
  match params with
  | Some p => p
  | None => empty_params
  end.

Definition schedule_type_of (params : option ScheduleParams) : string :=
  SortJobService.or_else (param_schedule_type (params_of params)) "daily"%string.

Definition hour_of (params : option ScheduleParams) : Z :=
  SortJobService.or_else (param_hour_of_day (params_of params)) 9.

Definition day_of_week_of (params : option ScheduleParams) : string :=
  SortService.lower (SortService.or_default_str (param_day_of_week (params_of params)) "mon").

Definition day_of_month_of (params : option ScheduleParams) : Z :=
  SortJobService.or_else (param_day_of_month (params_of params)) 1.

Definition offset_minutes_of (params : option ScheduleParams) : Z :=
  SortJobService.or_else (param_timezone_offset_minutes (params_of params)) 0.

(** The three recurrence types of the schedule routes. *)
Definition recurring (sched_type : string) : Prop :=
  sched_type = "daily"%string \/ sched_type = "weekly"%string
  \/ sched_type = "monthly"%string.

(** The arm of [_compute_next_run] chosen by the schedule type: the local
    time of the next run. *)
Definition next_local (params : option ScheduleParams) (frequency_minutes : option Z)
    (base_local target_local : datetime) : option datetime :=
  let sched_type := schedule_type_of params in
  if String.eqb sched_type "daily" then
    if leb target_local base_local
    then bind (timedelta_days 1) (add target_local)
    else Some target_local
  else if String.eqb sched_type "weekly" then
    let wanted := dow_map (day_of_week_of params) in
    let days_ahead := (wanted - weekday target_local) mod 7 in
    let days_ahead :=
      if (days_ahead =? 0) && leb target_local base_local then 7 else days_ahead in
    bind (timedelta_days days_ahead) (add target_local)
  else if String.eqb sched_type "monthly" then
    monthly_candidate base_local target_local (day_of_month_of params)
  else
    let fallback :=
      match frequency_minutes with
      | Some 0 | None => 1440
      | Some f => f
      end in
    bind (timedelta_minutes fallback) (add base_local).

(** [_compute_next_run(schedule, from_time=base)]: the datetime whose ISO
    form the function returns, [None] where it raises.  [params] and
    [frequency_minutes] are the two keys the function reads from
    [schedule]. *)
Definition _compute_next_run (params : option ScheduleParams)
    (frequency_minutes : option Z) (base : datetime) : option datetime :=
  bind (timedelta_minutes (offset_minutes_of params)) (fun offset =>
  bind (add base offset) (fun base_local =>
  bind (replace_time base_local (hour_of params) 0 0 0) (fun target_local =>
  bind (next_local params frequency_minutes base_local target_local)
       (fun target_local => sub target_local offset)))).

Definition set_run (now : datetime) (next_run : option datetime) (success : bool)
    (error : option string) (r : Schedule) : Schedule :=
  {| sched_id := sched_id r;
     sched_playlist_id := sched_playlist_id r;
     sched_user_id := sched_user_id r;
     sched_session_id := sched_session_id r;
     sched_action_type := sched_action_type r;
     sched_params := sched_params r;
     sched_frequency_minutes := sched_frequency_minutes r;
     sched_next_run_at := next_run;
     sched_last_run_at := Some now;
     sched_enabled := sched_enabled r;
     sched_status := if success then "ok"%string else "failed"%string;
     sched_last_error := error |}.

Definition get_schedule (rows : list Schedule) (schedule_id : nat) (user_id : string)
  : option Schedule :=
  find (fun r => Nat.eqb (sched_id r) schedule_id && String.eqb (sched_user_id r) user_id)%bool
       rows.

(** [mark_run]: the table after the run is recorded, [None] where the
    recurrence computation raises.  The clock is read once. *)
Definition mark_run (rows : list Schedule) (now : datetime) (schedule_id : nat)
    (user_id : string) (frequency_minutes : Z) (success : bool) (error : option string)
  : option (list Schedule) :=
  bind
    (match get_schedule rows schedule_id user_id with
     | Some sched =>
         _compute_next_run (sched_params sched) (sched_frequency_minutes sched) now
     | None => bind (timedelta_minutes frequency_minutes) (add now)
     end)
    (fun next_run =>
       Some (map (fun r =>
                    if (Nat.eqb (sched_id r) schedule_id
                        && String.eqb (sched_user_id r) user_id)%bool
                    then set_run now (Some next_run) success error r
                    else r)
                 rows)).

(** [due_schedules]' filter: enabled, with a next run at or before [now]. *)
Definition is_due (now : datetime) (r : Schedule) : bool :=
  (sched_enabled r
   && match sched_next_run_at r with
      | Some t => leb t now
      | None => false
      end)%bool.

End Schedules.

(* ===================================================================== *)
(** * Status and cancellation of a job (routes/sort.py) *)
(* ===================================================================== *)

Inductive CancelResponse :=
| RespJobNotRunning (status : JobStatus)
| RespCancellationRequested
| RespJobCancelled.

Module JobRoutes.

(** [cancel_sort_job] of the task executor: the job's event is set when the
    job is in the registry of running jobs. *)
Definition cancel_sort_job (running : list string) (job_id : string) : bool :=
  existsb (String.eqb job_id) running.

(** [get_sort_status]: the row of the job, for its owner. *)
Definition get_sort_status (jobs : list Job) (session : Session) (job_id : string)
  : Http Job :=
  if negb (session_authenticated session)
  then HttpError 401 (DetailText "Not authenticated")
  else
    match SortJobService.get_job jobs job_id with
    | None => HttpError 404 (DetailText "Job not found")
    | Some job =>
        if negb (String.eqb (job_user_id job) (session_user_id session))
        then HttpError 403 (DetailText "Not authorized to view this job")
        else HttpOk job
    end.

(** [cancel_sort]: the response, the job table afterwards, and the jobs
    whose cancellation event was set.  [running] holds the ids in the
    executor's registry of running jobs. *)
Definition cancel_sort (jobs : list Job) (running : list string) (now : Timestamp)
    (session : Session) (job_id : string)
  : Http CancelResponse * list Job * list string :=
  if negb (session_authenticated session)
  then (HttpError 401 (DetailText "Not authenticated"), jobs, [])
  else
    match SortJobService.get_job jobs job_id with
    | None => (HttpError 404 (DetailText "Job not found"), jobs, [])
    | Some job =>
        if negb (String.eqb (job_user_id job) (session_user_id session))
        then (HttpError 403 (DetailText "Not authorized to cancel this job"), jobs, [])
        else if negb (SortJobService.is_active job)
        then (HttpOk (RespJobNotRunning (job_status job)), jobs, [])
        else if cancel_sort_job running job_id
        then (HttpOk RespCancellationRequested,
              SortJobService.cancel_job jobs now job_id, [job_id])
        else (HttpOk RespJobCancelled, SortJobService.cancel_job jobs now job_id, [])
    end.

End JobRoutes.

(* ===================================================================== *)
(** * One scheduler dispatch (services/scheduler_service.py) *)
(* ===================================================================== *)

Module SchedulerService.
Import Schedules.

(** [sched.get("frequency_minutes") or 1440] *)
Definition frequency_or_default (frequency_minutes : option Z) : Z :=
  match frequency_minutes with
  | Some 0%Z | None => 1440%Z
  | Some f => f
  end.

(** [_run_schedule]: the schedule table after the run is recorded ([None]
    where [mark_run] raises, which it then does in the [except] arm too),
    the job table, and the tasks handed to the worker pool.  [cache_error]
    is what [CacheService.clear_expired()] does for a [cache_clear]
    schedule: [None] when it returns, the text of its exception when it
    raises.  [now] and [now_ts] are the clock as the schedule table and the
    job table record it. *)
Definition _run_schedule (rows : list Schedule) (jobs : list Job)
    (now : PyDatetime.datetime) (now_ts : Timestamp) (new_job_id : string)
    (client_ok : bool) (total : nat) (cache_error : option string) (sched : Schedule)
  : option (list Schedule) * list Job * list SortTask :=
  let frequency_minutes := frequency_or_default (sched_frequency_minutes sched) in
  let record success error :=
    mark_run rows now (sched_id sched) (sched_user_id sched) frequency_minutes
      success error in
  if String.eqb (sched_action_type sched) "sort" then
    match SchedulerSort._run_sort_schedule jobs now_ts new_job_id client_ok total
            (sched_playlist_id sched) (sched_user_id sched) (sched_session_id sched)
            (params_of (sched_params sched)) (sched_id sched) with
    | (DispatchRaised err, jobs1, tasks) => (record false (Some err), jobs1, tasks)
    | (_, jobs1, tasks) => (record true None, jobs1, tasks)
    end
  else if String.eqb (sched_action_type sched) "cache_clear" then
    match cache_error with
    | Some err => (record false (Some err), jobs, [])
    | None => (record true None, jobs, [])
    end
  else (record false (Some "Unsupported action"%string), jobs, []).

End SchedulerService.

(* ===================================================================== *)
(** * Removal of duplicates (routes/playlists.py) *)
(* ===================================================================== *)

(** One selected occurrence of the request body. *)
Record DuplicateOccurrence := {
  occ_uri : string;
  occ_position : Z
}.

Inductive RemoveResponse :=
| RespNoDuplicatesSelected
| RespNoDuplicatesRemoved
| RespDuplicatesRemoved (removed : nat).

Module DuplicateRoutes.

(** Modelled from the spec: the remote collaborator's
    [removeItemsAtPositions(collection, positions, expectedVersionToken)],
    reached through [sp._delete("playlists/{id}/tracks", payload)]: the items
    at the given positions of the current order are taken out. *)
Definition remove_from {A : Type} (positions : list nat) (start : nat) (items : list A)
  : list A :=
  map snd (filter (fun it => negb (existsb (Nat.eqb (fst it)) positions))
                  (PyList.enumerate_from start items)).

Definition remove_items_at_positions {A : Type} (items : list A) (positions : list nat)
  : list A :=
  remove_from positions 0 items.

(** Modelled from the spec: the call carries an [expectedVersionToken]; the
    model refuses a call whose token is not the live one, and an accepted call
    advances the version of the collection. *)
Definition delete_positions (sp : Spotify) (positions : list nat)
    (expected : option string) : option Spotify :=
  if SortService.option_string_eqb expected (SpotifyClient.snapshot_id sp)
  then Some (SpotifyClient.mutate sp (remove_items_at_positions (sp_items sp) positions))
  else None.

(** [occ.position in occ_map.get(occ.uri, [])]: the item at that position
    has this uri, and the uri is not empty. *)
Definition occurs_at (current_items : list PlaylistItem) (occ : DuplicateOccurrence)
  : bool :=
  ((0 <=? occ_position occ)%Z
   && match nth_error current_items (Z.to_nat (occ_position occ)) with
      | Some item => truthy (item_uri item)
                     && SortService.option_string_eqb (item_uri item) (Some (occ_uri occ))
      | None => false
      end)%bool.

(** [sorted(set(positions))] *)
Fixpoint insert_unique (p : nat) (l : list nat) : list nat :=
  match l with
  | [] => [p]
  | q :: l' =>
      if p <? q then p :: l
      else if p =? q then l
      else q :: insert_unique p l'
  end.

Definition sorted_set (positions : list nat) : list nat :=
  fold_right insert_unique [] positions.

(** The undo record of the item at [pos]. *)
Definition removed_item (current_items : list PlaylistItem) (pos : nat) : RemovedItem :=
  {| removed_uri := match nth_error current_items pos with
                    | Some item => item_uri item
                    | None => None
                    end;
     removed_position := Some pos |}.

(** [remove_duplicates]: the response, the client and the undo log
    afterwards. *)
Definition remove_duplicates (sp : Spotify) (client_ok : bool) (ops : list Operation)
    (now : Timestamp) (playlist_id user_id : string) (items : list DuplicateOccurrence)
    (body_snapshot : option string)
  : Http RemoveResponse * Spotify * list Operation :=
  match items with
  | [] => (HttpOk RespNoDuplicatesSelected, sp, ops)
  | _ =>
      if negb client_ok
      then (HttpError 401 (DetailText "Spotify authentication expired"), sp, ops)
      else
        let current_items := sp_items sp in
        let current_snapshot :=
          if truthy body_snapshot then body_snapshot else SpotifyClient.snapshot_id sp in
        let positions_to_remove :=
          map (fun occ => Z.to_nat (occ_position occ))
              (filter (occurs_at current_items) items) in
        match positions_to_remove with
        | [] => (HttpOk RespNoDuplicatesRemoved, sp, ops)
        | _ =>
            let removed_items :=
              map (removed_item current_items)
                  (filter (fun pos => pos <? length current_items)
                          (sorted_set positions_to_remove)) in
            let positions_desc :=
              SortService.sorted (fun p => KInt (Z.of_nat p)) positions_to_remove true in
            match delete_positions sp positions_desc current_snapshot with
            | None => (HttpError 500 (DetailText "Failed to remove duplicates"), sp, ops)
            | Some sp' =>
                let removed_count := length current_items - length (sp_items sp') in
                let after_snapshot := SpotifyClient.snapshot_id sp' in
                (HttpOk (RespDuplicatesRemoved removed_count), sp',
                 OpStore.record_operation (OpStore.cleanup_expired ops now) now
                   playlist_id user_id "duplicates_remove" current_snapshot after_snapshot
                   {| payload_removed_items := removed_items;
                      payload_original_order := [];
                      payload_sort_by := None;
                      payload_direction := None;
                      payload_method := None;
                      payload_source := None;
                      payload_schedule_id := None;
                      payload_tracks_moved := None |}
                   true)
            end
        end
  end.

End DuplicateRoutes.

(* ===================================================================== *)
(** * Sample data used by the worked examples *)
(* ===================================================================== *)

Module Samples.

Definition mk_track (id name uri : string) : Track :=
  {| track_id := Some id; track_name := Some name; track_uri := Some uri;
     track_artists := None; track_album := None;
     track_duration_ms := None; track_added_at := None |}.

Definition sample_tracks : list Track :=
  [ mk_track "t1" "Delta" "spotify:track:t1";
    mk_track "t2" "alpha" "spotify:track:t2";
    mk_track "t3" "Charlie" "spotify:track:t3";
    mk_track "t4" "bravo" "spotify:track:t4" ].

Definition never_cancel : nat -> bool := fun _ => false.

Definition sample_catalog (uri : string) : Track := mk_track uri uri uri.

(** A playlist whose version tokens are [v0], [v1], ... *)
Definition sample_token (version : nat) : option string :=
  Some (String "v" (String (ascii_of_nat (48 + version)) EmptyString)).

Definition sample_sp : Spotify :=
  {| sp_items := map Some sample_tracks;
     sp_version := 3;
     sp_token := sample_token;
     sp_catalog := sample_catalog |}.

Definition sample_payload : Payload :=
  {| payload_removed_items := [];
     payload_original_order := ["spotify:track:t2"; "spotify:track:t1"]%string;
     payload_sort_by := Some title;
     payload_direction := Some asc;
     payload_method := Some preserve;
     payload_source := None;
     payload_schedule_id := None;
     payload_tracks_moved := Some 2 |}.

Definition sample_op (snapshot_after : option string) : Operation :=
  {| op_id := 1;
     op_playlist_id := "pl1";
     op_user_id := "u1";
     op_type := "sort_reorder";
     op_snapshot_before := Some "v2"%string;
     op_snapshot_after := snapshot_after;
     op_payload := sample_payload;
     op_created_at := 100%Z;
     op_expires_at := 1000%Z;
     op_undone := false;
     op_changes_made := true |}.

Definition sorted_sample_tracks : list Track :=
  [ mk_track "t2" "alpha" "spotify:track:t2";
    mk_track "t4" "bravo" "spotify:track:t4";
    mk_track "t3" "Charlie" "spotify:track:t3";
    mk_track "t1" "Delta" "spotify:track:t1" ].

Definition sorted_sample_sp : Spotify :=
  {| sp_items := map Some sorted_sample_tracks;
     sp_version := 3;
     sp_token := sample_token;
     sp_catalog := sample_catalog |}.

Definition sample_task : SortTask :=
  TaskExecutor.start_sort_job "sort_a" "pl1" "u1" title asc preserve
    (Some "sess1"%string) None.

(** A job table in which user [u1] has two jobs under way, on [pl1] and
    [pl2]. *)
Definition sample_jobs : list Job :=
  SortJobService.update_job
    (SortJobService.create_job
       (SortJobService.create_job [] 100%Z "sort_a" "pl1" "u1" title asc preserve 40 0 0)
       110%Z "sort_b" "pl2" "u1" artist desc fast 60 0 0)
    120%Z "sort_a" (Some in_progress) None (Some MsgFetchingPlaylistTracks) None None.



(** The first row of [sample_jobs]. *)
Definition sample_job_a : Job :=
  {| job_id := "sort_a";
     job_playlist_id := "pl1";
     job_user_id := "u1";
     job_sort_by := title;
     job_direction := asc;
     job_method := preserve;
     job_status := in_progress;
     job_progress := 0;
     job_total := 40;
     job_started_at := 100%Z;
     job_updated_at := 120%Z;
     job_completed_at := None;
     job_tracks_to_move := 0;
     job_estimated_time := 0;
     job_message := Some MsgFetchingPlaylistTracks;
     job_error := None |}.

Definition other_session : Session :=
  {| session_authenticated := true;
     session_user_id := "u2";
     session_id := Some "sess2"%string |}.

Definition sample_session : Session :=
  {| session_authenticated := true;
     session_user_id := "u1";
     session_id := Some "sess1"%string |}.


Definition sample_params : ScheduleParams :=
  {| param_sort_by := Some title;
     param_direction := Some asc;
     param_method := Some preserve;
     param_schedule_type := Some "daily"%string;
     param_hour_of_day := Some 9%Z;
     param_day_of_week := None;
     param_day_of_month := None;
     param_timezone_offset_minutes := Some 0%Z |}.

(** Two local files: the Web API reports them with [id: null] and a
    [spotify:local:...] uri. *)
Definition local_file (name uri : string) : Track :=
  {| track_id := None; track_name := Some name; track_uri := Some uri;
     track_artists := None; track_album := None;
     track_duration_ms := None; track_added_at := None |}.

Definition local_tracks : list Track :=
  [ local_file "Zulu" "spotify:local:::Zulu:200";
    local_file "Alpha" "spotify:local:::Alpha:180" ].

Definition local_world : World :=
  {| w_client_ok := true;
     w_sp := {| sp_items := map Some local_tracks;
                sp_version := 0;
                sp_token := sample_token;
                sp_catalog := sample_catalog |};
     w_jobs := sample_jobs;
     w_ops := [] |}.

(** A playlist whose last track has no name ([name: null]). *)
Definition unnamed_track (id uri : string) : Track :=
  {| track_id := Some id; track_name := None; track_uri := Some uri;
     track_artists := None; track_album := None;
     track_duration_ms := None; track_added_at := None |}.

Definition unnamed_tracks : list Track :=
  [ mk_track "t1" "Charlie" "spotify:track:t1";
    mk_track "t2" "Bravo" "spotify:track:t2";
    unnamed_track "t3" "spotify:track:t3" ].

Definition unnamed_world : World :=
  {| w_client_ok := true;
     w_sp := {| sp_items := map Some unnamed_tracks;
                sp_version := 0;
                sp_token := sample_token;
                sp_catalog := sample_catalog |};
     w_jobs := sample_jobs;
     w_ops := [] |}.

Definition sorted_sample_world : World :=
  {| w_client_ok := true;
     w_sp := sorted_sample_sp;
     w_jobs := sample_jobs;
     w_ops := [] |}.

Definition on_the_hour (y m d h : Z) : PyDatetime.datetime :=
  {| PyDatetime.year := y; PyDatetime.month := m; PyDatetime.day := d;
     PyDatetime.hour := h; PyDatetime.minute := 0; PyDatetime.second := 0;
     PyDatetime.microsecond := 0 |}.

Definition weekly_params : ScheduleParams :=
  {| param_sort_by := Some title;
     param_direction := Some asc;
     param_method := Some preserve;
     param_schedule_type := Some "weekly"%string;
     param_hour_of_day := Some 9%Z;
     param_day_of_week := Some "Mon"%string;
     param_day_of_month := None;
     param_timezone_offset_minutes := Some 0%Z |}.

Definition monthly_params : ScheduleParams :=
  {| param_sort_by := Some title;
     param_direction := Some asc;
     param_method := Some preserve;
     param_schedule_type := Some "monthly"%string;
     param_hour_of_day := Some 9%Z;
     param_day_of_week := None;
     param_day_of_month := Some 31%Z;
     param_timezone_offset_minutes := Some 0%Z |}.

Definition sample_schedule : Schedule :=
  {| sched_id := 1;
     sched_playlist_id := "pl1";
     sched_user_id := "u1";
     sched_session_id := Some "sess1"%string;
     sched_action_type := "sort";
     sched_params := Some sample_params;
     sched_frequency_minutes := Some 1440%Z;
     sched_next_run_at := Some (on_the_hour 2024 1 1 9);
     sched_last_run_at := None;
     sched_enabled := true;
     sched_status := "scheduled";
     sched_last_error := None |}.


(** [sample_schedule] after a successful run recorded at 2024-01-01T23:00Z. *)
Definition sample_schedule_after_run : Schedule :=
  Schedules.set_run (on_the_hour 2024 1 1 23) (Some (on_the_hour 2024 1 2 9)) true None
    sample_schedule.

(** A daily schedule whose time-zone offset is six thousand million
    minutes, more than eleven thousand years. *)
Definition far_offset_params : ScheduleParams :=
  {| param_sort_by := Some title;
     param_direction := Some asc;
     param_method := Some preserve;
     param_schedule_type := Some "daily"%string;
     param_hour_of_day := Some 9%Z;
     param_day_of_week := None;
     param_day_of_month := None;
     param_timezone_offset_minutes := Some 6000000000%Z |}.

Definition far_offset_schedule : Schedule :=
  {| sched_id := 1;
     sched_playlist_id := "pl1";
     sched_user_id := "u1";
     sched_session_id := Some "sess1"%string;
     sched_action_type := "sort";
     sched_params := Some far_offset_params;
     sched_frequency_minutes := Some 1440%Z;
     sched_next_run_at := Some (on_the_hour 2024 1 1 9);
     sched_last_run_at := None;
     sched_enabled := true;
     sched_status := "scheduled";
     sched_last_error := None |}.

Definition sample_world : World :=
  {| w_client_ok := true;
     w_sp := sample_sp;
     w_jobs := sample_jobs;
     w_ops := [] |}.

Definition earlier_op : Operation :=
  {| op_id := 2;
     op_playlist_id := "pl1";
     op_user_id := "u1";
     op_type := "sort_reorder";
     op_snapshot_before := None;
     op_snapshot_after := None;
     op_payload := sample_payload;
     op_created_at := 90%Z;
     op_expires_at := 990%Z;
     op_undone := false;
     op_changes_made := true |}.

Definition two_op_log : list Operation := [sample_op (Some "v3"%string); earlier_op].

Definition first_undo : Http UndoResponse * Spotify * list Operation :=
  PlaylistRoutes.undo_last_operation sample_sp true two_op_log 140%Z "pl1" "u1".

Definition second_undo : Http UndoResponse * Spotify * list Operation :=
  PlaylistRoutes.undo_last_operation (snd (fst first_undo)) true (snd first_undo) 150%Z
    "pl1" "u1".

(** Fridays at 09:00 in Tokyo (UTC+9). *)
Definition tokyo_friday_params : ScheduleParams :=
  {| param_sort_by := None;
     param_direction := None;
     param_method := None;
     param_schedule_type := Some "weekly"%string;
     param_hour_of_day := Some 9%Z;
     param_day_of_week := Some "fri"%string;
     param_day_of_month := None;
     param_timezone_offset_minutes := Some 540%Z |}.

(** A schedule type outside the three of the routes. *)
Definition hourly_params : ScheduleParams :=
  {| param_sort_by := None;
     param_direction := None;
     param_method := None;
     param_schedule_type := Some "hourly"%string;
     param_hour_of_day := None;
     param_day_of_week := None;
     param_day_of_month := None;
     param_timezone_offset_minutes := Some 120%Z |}.

Definition half_past (y m d h : Z) : PyDatetime.datetime :=
  {| PyDatetime.year := y; PyDatetime.month := m; PyDatetime.day := d;
     PyDatetime.hour := h; PyDatetime.minute := 30; PyDatetime.second := 0;
     PyDatetime.microsecond := 0 |}.

Definition sample_dispatch : option (list Schedule) * list Job * list SortTask :=
  SchedulerService._run_schedule [sample_schedule] []
    (on_the_hour 2024 1 1 23) 130%Z "sort_c" true 40 None sample_schedule.

(** A playlist that holds two tracks twice. *)
Definition dup_sp : Spotify :=
  {| sp_items := [ Some (mk_track "a" "Alpha" "spotify:track:a");
                   Some (mk_track "b" "Bravo" "spotify:track:b");
                   Some (mk_track "a" "Alpha" "spotify:track:a");
                   Some (mk_track "c" "Charlie" "spotify:track:c");
                   Some (mk_track "b" "Bravo" "spotify:track:b") ];
     sp_version := 0;
     sp_token := sample_token;
     sp_catalog := sample_catalog |}.

(** The second occurrences of [a] and [b], and a selection that is out of
    date: position 1 holds [b], not [c]. *)
Definition dup_selection : list DuplicateOccurrence :=
  [ {| occ_uri := "spotify:track:b"; occ_position := 4%Z |};
    {| occ_uri := "spotify:track:c"; occ_position := 1%Z |};
    {| occ_uri := "spotify:track:a"; occ_position := 2%Z |} ].

End Samples.

(* ===================================================================== *)
(** * Properties *)
(* ===================================================================== *)

(** ** Python list facts *)

Module PyListFacts.
Import PyList.

Lemma enumerate_from_length {A} (l : list A) s : length (enumerate_from s l) = length l.
Proof. revert s; induction l; simpl; intros; auto. Qed.

Lemma enumerate_from_fst {A} (l : list A) s :
  map fst (enumerate_from s l) = seq s (length l).
Proof. revert s; induction l; simpl; intros; f_equal; auto. Qed.

Lemma enumerate_from_snd {A} (l : list A) s : map snd (enumerate_from s l) = l.
Proof. revert s; induction l; simpl; intros; f_equal; auto. Qed.

Lemma enumerate_from_nth {A} (l : list A) s d :
  Forall (fun it => nth (fst it - s) l d = snd it /\ s <= fst it) (enumerate_from s l).
Proof.
  revert s; induction l as [|x l IH]; simpl; intros s; constructor.
  - simpl. rewrite Nat.sub_diag. auto.
  - specialize (IH (S s)). rewrite Forall_forall in *. intros it Hit.
    destruct (IH it Hit) as [H1 H2]. split; [|lia].
    replace (fst it - s) with (S (fst it - S s)) by lia. exact H1.
Qed.

Lemma index_Some x l i : index x l = Some i -> nth_error l i = Some x /\ ~ In x (firstn i l).
Proof.
  revert i; induction l as [|y l IH]; simpl; intros i H; [discriminate|].
  destruct (Nat.eqb_spec y x) as [->|Hne].
  - inversion H; subst. simpl. auto.
  - destruct (index x l) as [j|] eqn:E; [|discriminate].
    inversion H; subst. destruct (IH j eq_refl) as [H1 H2]. simpl. split; auto.
    intros [?|?]; auto.
Qed.

Lemma index_In x l : In x l -> exists i, index x l = Some i.
Proof.
  induction l as [|y l IH]; simpl; intros H; [contradiction|].
  destruct (Nat.eqb_spec y x) as [->|Hne]; [eauto|].
  destruct H as [?|H]; [contradiction|]. destruct (IH H) as [i ->]. eauto.
Qed.

Lemma move_item_map {A B} (f : A -> B) c p l :
  map f (move_item c p l) = move_item c p (map f l).
Proof.
  unfold move_item, insert, pop. rewrite nth_error_map.
  destruct (nth_error l c); cbn [option_map]; auto.
  rewrite map_app, map_cons.
  repeat (rewrite firstn_map || rewrite skipn_map || rewrite <- map_app).
  reflexivity.
Qed.

Lemma pop_split {A} (l1 l2 : list A) x : pop (length l1) (l1 ++ x :: l2) = l1 ++ l2.
Proof.
  unfold pop. f_equal.
  - rewrite firstn_app, Nat.sub_diag, firstn_all. cbn [firstn]. apply app_nil_r.
  - change (S (length l1)) with (1 + length l1). rewrite <- skipn_skipn.
    rewrite skipn_app, Nat.sub_diag, skipn_all. reflexivity.
Qed.

Lemma pop_Permutation {A} c (l : list A) x :
  nth_error l c = Some x -> Permutation l (x :: pop c l).
Proof.
  intros H.
  destruct (nth_error_split l c H) as (l1 & l2 & -> & <-).
  rewrite pop_split. symmetry. apply Permutation_middle.
Qed.

Lemma insert_Permutation {A} p (x : A) l : Permutation (x :: l) (insert p x l).
Proof.
  unfold insert. rewrite <- (firstn_skipn p l) at 1. apply Permutation_middle.
Qed.

Lemma move_item_Permutation {A} c p (l : list A) : Permutation l (move_item c p l).
Proof.
  unfold move_item. destruct (nth_error l c) eqn:E; auto.
  etransitivity; [apply pop_Permutation; eauto|]. apply insert_Permutation.
Qed.

Lemma firstn_pop_ge {A} c p (l : list A) : p <= c -> firstn p (pop c l) = firstn p l.
Proof.
  intros H. unfold pop.
  destruct (Nat.le_gt_cases (length l) c) as [Hc|Hc].
  - rewrite (firstn_all2 (n:=c)) by lia. rewrite skipn_all2 by lia. now rewrite app_nil_r.
  - rewrite firstn_app, firstn_firstn, length_firstn.
    replace (Nat.min p c) with p by lia.
    replace (p - Nat.min c (length l)) with 0 by lia. simpl. now rewrite app_nil_r.
Qed.

Lemma firstn_insert {A} p (x : A) l :
  p <= length l -> firstn (S p) (insert p x l) = firstn p l ++ [x].
Proof.
  intros H. unfold insert.
  rewrite firstn_app, length_firstn. replace (Nat.min p (length l)) with p by lia.
  rewrite firstn_all2 by (rewrite length_firstn; lia).
  replace (S p - p) with 1 by lia. reflexivity.
Qed.

End PyListFacts.

(** ** The sort engine *)

Module SortFacts.
Import PyList PyListFacts SortService.

Section SortedFacts.
Context {A : Type} (key : A -> SortKey).

Lemma insert_sorted_Permutation x l : Permutation (x :: l) (insert_sorted key x l).
Proof.
  induction l as [|y l IH]; simpl; auto.
  destruct (key_lt (key y) (key x)); auto.
  etransitivity; [apply perm_swap|]. now constructor.
Qed.

Lemma stable_sort_Permutation l : Permutation l (stable_sort key l).
Proof.
  induction l as [|x l IH]; simpl; auto.
  etransitivity; [|apply insert_sorted_Permutation]. now constructor.
Qed.

Lemma sorted_Permutation l reverse : Permutation l (sorted key l reverse).
Proof.
  unfold sorted. destruct reverse; [|apply stable_sort_Permutation].
  etransitivity; [apply Permutation_rev|].
  etransitivity; [apply stable_sort_Permutation|]. apply Permutation_rev.
Qed.

Lemma sorted_length l reverse : length (sorted key l reverse) = length l.
Proof. symmetry. apply Permutation_length, sorted_Permutation. Qed.
End SortedFacts.

(** Sorting commutes with a projection that preserves the keys. *)
Section SortedMap.
Context {A B : Type} (f : B -> A) (kA : A -> SortKey) (kB : B -> SortKey).

Lemma insert_sorted_map x l :
  Forall (fun b => kB b = kA (f b)) (x :: l) ->
  map f (insert_sorted kB x l) = insert_sorted kA (f x) (map f l).
Proof.
  intros H. inversion H as [|? ? Hx Hl]; subst. clear H.
  induction Hl as [|y l Hy Hl IH]; simpl; auto.
  rewrite Hx, Hy. destruct (key_lt (kA (f y)) (kA (f x))); simpl; auto.
  now rewrite IH.
Qed.

Lemma stable_sort_map l :
  Forall (fun b => kB b = kA (f b)) l ->
  map f (stable_sort kB l) = stable_sort kA (map f l).
Proof.
  induction 1 as [|x l Hx Hl IH]; simpl; auto.
  rewrite insert_sorted_map, IH; auto.
  constructor; auto.
  eapply Permutation_Forall; [apply stable_sort_Permutation|]. exact Hl.
Qed.

Lemma sorted_map l reverse :
  Forall (fun b => kB b = kA (f b)) l ->
  map f (sorted kB l reverse) = sorted kA (map f l) reverse.
Proof.
  intros H. unfold sorted. destruct reverse; [|now apply stable_sort_map].
  rewrite map_rev, stable_sort_map, map_rev; auto.
  eapply Permutation_Forall; [apply Permutation_rev|]. exact H.
Qed.
End SortedMap.

(** *** The indexed copy of the tracks *)

Lemma index_tracks_orig_idx key tracks :
  map orig_idx (index_tracks key tracks) = seq 0 (length tracks).
Proof.
  unfold index_tracks, enumerate. rewrite map_map. cbn [orig_idx fst].
  apply enumerate_from_fst.
Qed.

Lemma index_tracks_track key tracks :
  map indexed_track (index_tracks key tracks) = tracks.
Proof.
  unfold index_tracks, enumerate. rewrite map_map. cbn [indexed_track fst snd].
  apply enumerate_from_snd.
Qed.

Lemma index_tracks_key key tracks :
  Forall (fun it => indexed_key it = key (indexed_track it)) (index_tracks key tracks).
Proof.
  unfold index_tracks. apply Forall_forall. intros it Hit.
  apply in_map_iff in Hit. destruct Hit as (x & <- & _). reflexivity.
Qed.

Lemma index_tracks_nth key tracks d :
  Forall (fun it => nth (orig_idx it) tracks d = indexed_track it) (index_tracks key tracks).
Proof.
  unfold index_tracks, enumerate. apply Forall_forall. intros it Hit.
  apply in_map_iff in Hit. destruct Hit as (x & <- & Hx).
  pose proof (enumerate_from_nth tracks 0 d) as H. rewrite Forall_forall in H.
  destruct (H x Hx) as [H1 _]. cbn. now rewrite Nat.sub_0_r in H1.
Qed.

(** The target order is the track projection of the sorted indexed list. *)
Lemma sorted_indexed_tracks key tracks reverse :
  map indexed_track (sorted indexed_key (index_tracks key tracks) reverse)
  = sorted key tracks reverse.
Proof.
  rewrite (sorted_map indexed_track key indexed_key).
  - now rewrite index_tracks_track.
  - apply index_tracks_key.
Qed.

Lemma sorted_indexed_nth key tracks reverse d :
  map (fun i => nth i tracks d)
      (map orig_idx (sorted indexed_key (index_tracks key tracks) reverse))
  = sorted key tracks reverse.
Proof.
  rewrite <- sorted_indexed_tracks, map_map. apply map_ext_in.
  intros it Hit.
  pose proof (index_tracks_nth key tracks d) as H.
  eapply Permutation_Forall in H; [|apply (sorted_Permutation indexed_key _ reverse)].
  rewrite Forall_forall in H. now apply H.
Qed.

Lemma sorted_indexed_perm key tracks reverse :
  Permutation (seq 0 (length tracks))
    (map orig_idx (sorted indexed_key (index_tracks key tracks) reverse)).
Proof.
  rewrite <- (index_tracks_orig_idx key). apply Permutation_map, sorted_Permutation.
Qed.

Lemma map_nth_seq {A} (l : list A) d : map (fun i => nth i l d) (seq 0 (length l)) = l.
Proof.
  apply nth_ext with (d := d) (d' := d).
  - now rewrite length_map, length_seq.
  - intros n Hn. rewrite length_map, length_seq in Hn.
    rewrite (nth_indep _ d (nth 0 l d)) by (now rewrite length_map, length_seq).
    rewrite (map_nth (fun i => nth i l d) (seq 0 (length l)) 0 n).
    now rewrite seq_nth.
Qed.

End SortFacts.

(** ** The preserve strategy against the remote order *)

Module PreserveFacts.
Import PyList PyListFacts SortService SortFacts.

(** One reorder call of the strategy is "take position [c] out, put it back
    at [p]" on the remote list, whichever side of [c] the target lies on. *)
Lemma reorder_is_move_item {A} (items : list A) c p :
  c < length items ->
  Remote.playlist_reorder_items items c (if p <? c then p else p + 1) 1
  = move_item c p items.
Proof.
  intros Hc. unfold Remote.playlist_reorder_items, move_item.
  destruct (nth_error items c) as [x|] eqn:E;
    [|apply nth_error_None in E; lia].
  destruct (nth_error_split items c E) as (l1 & l2 & -> & <-).
  replace (length l1 + 1) with (S (length l1)) by lia.
  fold (pop (length l1) (l1 ++ x :: l2)). rewrite pop_split.
  assert (Hm : firstn 1 (skipn (length l1) (l1 ++ x :: l2)) = [x]).
  { rewrite skipn_app, Nat.sub_diag, skipn_all. reflexivity. }
  rewrite Hm.
  assert (Hd : (if (if p <? length l1 then p else p + 1) <=? length l1
                then if p <? length l1 then p else p + 1
                else (if p <? length l1 then p else p + 1) - 1) = p).
  { destruct (Nat.ltb_spec p (length l1)).
    - destruct (Nat.leb_spec p (length l1)); lia.
    - destruct (Nat.leb_spec (p + 1) (length l1)); lia. }
  rewrite Hd. reflexivity.
Qed.

Lemma firstn_S_nth_error {A} (l : list A) p x :
  nth_error l p = Some x -> firstn (S p) l = firstn p l ++ [x].
Proof.
  intros H. destruct (nth_error_split l p H) as (l1 & l2 & -> & <-).
  replace (S (length l1)) with (length l1 + 1) by lia.
  rewrite firstn_app_2, firstn_app, Nat.sub_diag, firstn_all. cbn [firstn].
  now rewrite app_nil_r.
Qed.

Lemma index_ge_prefix cp p o c :
  index o cp = Some c -> ~ In o (firstn p cp) -> p <= c.
Proof.
  intros Hi Hn. apply index_Some in Hi. destruct Hi as [Hc _].
  destruct (Nat.le_gt_cases p c) as [|Hlt]; auto.
  exfalso. apply Hn. apply nth_error_In with (n := c).
  now rewrite nth_error_firstn, (proj2 (Nat.ltb_lt c p) Hlt).
Qed.

Lemma move_item_length {A} c p (l : list A) : length (move_item c p l) = length l.
Proof. symmetry. apply Permutation_length, move_item_Permutation. Qed.

(** The loop under any cancellation pattern, with or without a progress
    callback: [list.index] never raises, every call takes one item from
    behind the sorted prefix to its end, and when the loop stops after [k]
    iterations the first [k] positions it was given are in place.  It stops
    at the end of the list, at a poll that answers [True], or, with a
    progress callback, right after the move of a track whose name is
    [null]. *)
Lemma preserve_loop_any {A} (f : nat -> A) progress_callback should_cancel :
  forall rest placed cp,
    firstn (length placed) cp = placed ->
    Permutation cp (placed ++ map orig_idx rest) ->
    NoDup (placed ++ map orig_idx rest) ->
    exists calls out cp' k,
      preserve_loop progress_callback should_cancel rest (length placed) cp = (calls, out)
      /\ Remote.replay_moves (map f cp) calls = map f cp'
      /\ Permutation cp cp'
      /\ firstn (length placed + k) cp' = placed ++ firstn k (map orig_idx rest)
      /\ length calls <= length cp - 1 - length placed
      /\ Forall (fun m => range_length m = 1
                          /\ length placed <= insert_before m
                          /\ insert_before m < range_start m
                          /\ range_start m < length cp) calls
      /\ (forall q, q < k -> should_cancel (length placed + q) = false)
      /\ ((out = Completed /\ k = length rest)
          \/ (out = Cancelled /\ k < length rest
              /\ should_cancel (length placed + k) = true)
          \/ (out = RaisedTypeError /\ progress_callback = true
              /\ exists i target, k = S i /\ nth_error rest i = Some target
                                  /\ name_is_null (indexed_track target) = true))
      /\ (out = RaisedTypeError -> calls <> []).
Proof.
  induction rest as [|target rest IH]; intros placed cp Hpre Hperm Hnd.
  - exists [], Completed, cp, 0. cbn. rewrite Nat.add_0_r, app_nil_r.
    repeat split; auto; try lia; discriminate.
  - cbn [preserve_loop]. destruct (should_cancel (length placed)) eqn:Esc.
    { exists [], Cancelled, cp, 0. cbn [Remote.replay_moves fold_left firstn length].
      rewrite Nat.add_0_r, app_nil_r.
      repeat split; auto; try lia; try discriminate.
      right. left. cbn. repeat split; auto; lia. }
    cbn [map] in *. set (o := orig_idx target) in *.
    assert (Hin : In o cp).
    { eapply Permutation_in; [symmetry; exact Hperm|].
      apply in_or_app. right. now left. }
    destruct (index_In _ _ Hin) as [c Hc]. rewrite Hc.
    assert (Hnot : ~ In o (firstn (length placed) cp)).
    { rewrite Hpre. intros Hp. apply NoDup_remove_2 in Hnd. apply Hnd.
      apply in_or_app. now left. }
    pose proof (index_ge_prefix _ _ _ _ Hc Hnot) as Hge.
    destruct (index_Some _ _ _ Hc) as [Hnth _].
    assert (Hclen : c < length cp) by (apply nth_error_Some; congruence).
    assert (Hshape : placed ++ o :: map orig_idx rest
                     = (placed ++ [o]) ++ map orig_idx rest)
      by (now rewrite <- app_assoc).
    assert (Hlen1 : length (placed ++ [o]) = S (length placed))
      by (rewrite length_app; cbn; lia).
    assert (Hfin : forall (cp' : list nat) k,
               firstn (length (placed ++ [o]) + k) cp'
               = (placed ++ [o]) ++ firstn k (map orig_idx rest) ->
               firstn (length placed + S k) cp'
               = placed ++ firstn (S k) (o :: map orig_idx rest)).
    { intros cp' k H. rewrite Hlen1 in H. cbn [firstn].
      replace (length placed + S k) with (S (length placed) + k) by lia.
      rewrite H. now rewrite <- app_assoc. }
    assert (Hsc : forall k, (forall q, q < k -> should_cancel (length (placed ++ [o]) + q) = false) ->
                  forall q, q < S k -> should_cancel (length placed + q) = false).
    { intros k H q Hq. destruct q as [|q]; [now rewrite Nat.add_0_r|].
      specialize (H q ltac:(lia)). rewrite Hlen1 in H.
      now replace (length placed + S q) with (S (length placed) + q) by lia. }
    assert (Hout : forall out k,
               (out = Completed /\ k = length rest)
               \/ (out = Cancelled /\ k < length rest
                   /\ should_cancel (length (placed ++ [o]) + k) = true)
               \/ (out = RaisedTypeError /\ progress_callback = true
                   /\ exists i tg, k = S i /\ nth_error rest i = Some tg
                                   /\ name_is_null (indexed_track tg) = true) ->
               (out = Completed /\ S k = length (target :: rest))
               \/ (out = Cancelled /\ S k < length (target :: rest)
                   /\ should_cancel (length placed + S k) = true)
               \/ (out = RaisedTypeError /\ progress_callback = true
                   /\ exists i tg, S k = S i /\ nth_error (target :: rest) i = Some tg
                                   /\ name_is_null (indexed_track tg) = true)).
    { intros out k [[-> ->]|[(-> & Hk & Hs)|(-> & Hcb & i & tg & -> & Hi & Hnull)]].
      - left; split; reflexivity.
      - right; left. rewrite Hlen1 in Hs. cbn [length].
        replace (length placed + S k) with (S (length placed) + k) by lia.
        repeat split; auto; lia.
      - right; right. split; [reflexivity|]. split; [exact Hcb|].
        exists (S i), tg. repeat split; auto. }
    destruct (Nat.eqb_spec c (length placed)) as [->|Hne].
    + destruct (IH (placed ++ [o]) cp)
        as (calls & out & cp' & k & Hrun & Hrep & Hp & Hf & Hn & Hall & Hq & Ho & Hne).
      * rewrite Hlen1. now rewrite (firstn_S_nth_error _ _ _ Hnth), Hpre.
      * now rewrite <- Hshape.
      * now rewrite <- Hshape.
      * rewrite Hlen1 in Hrun. exists calls, out, cp', (S k).
        split; [exact Hrun|]. split; [exact Hrep|]. split; [exact Hp|].
        split; [now apply Hfin|]. split; [rewrite Hlen1 in Hn; lia|].
        split; [|split; [now apply Hsc|split; [now apply Hout|exact Hne]]].
        eapply Forall_impl; [|exact Hall]. cbn beta. intros m. rewrite Hlen1. lia.
    + assert (Hcp' : insert (length placed) o (pop c cp) = move_item c (length placed) cp).
      { unfold move_item. now rewrite Hnth. }
      rewrite Hcp'.
      assert (Hcall : Remote.apply_move (map f cp)
                        {| range_start := c;
                           insert_before := if length placed <? c
                                            then length placed else length placed + 1;
                           range_length := 1 |}
                      = map f (move_item c (length placed) cp)).
      { unfold Remote.apply_move. cbn [range_start insert_before range_length].
        rewrite reorder_is_move_item by (now rewrite length_map).
        now rewrite <- move_item_map. }
      assert (Hpre' : firstn (length (placed ++ [o])) (move_item c (length placed) cp)
                      = placed ++ [o]).
      { rewrite Hlen1. rewrite <- Hcp'. rewrite firstn_insert.
        - now rewrite firstn_pop_ge, Hpre by lia.
        - unfold pop. rewrite length_app, length_firstn, length_skipn. lia. }
      assert (Hcallok : range_length {| range_start := c;
                           insert_before := if length placed <? c
                                            then length placed else length placed + 1;
                           range_length := 1 |} = 1
                        /\ length placed
                           <= (if length placed <? c then length placed else length placed + 1)
                        /\ (if length placed <? c then length placed else length placed + 1) < c
                        /\ c < length cp).
      { cbn [range_length]. destruct (Nat.ltb_spec (length placed) c); lia. }
      destruct (progress_callback && name_is_null (indexed_track target))%bool eqn:Eraise.
      { apply andb_true_iff in Eraise. destruct Eraise as [Hcb Hnull].
        exists [ {| range_start := c;
                    insert_before := if length placed <? c
                                     then length placed else length placed + 1;
                    range_length := 1 |} ],
               RaisedTypeError, (move_item c (length placed) cp), 1.
        split; [reflexivity|].
        split; [unfold Remote.replay_moves; cbn [fold_left]; exact Hcall|].
        split; [apply move_item_Permutation|].
        split.
        { rewrite Hlen1 in Hpre'. rewrite Nat.add_1_r. exact Hpre'. }
        split; [cbn [length]; lia|].
        split; [constructor; [exact Hcallok|constructor]|].
        split.
        { intros q Hq. assert (q = 0) by lia. subst q. now rewrite Nat.add_0_r. }
        split; [|intros _; discriminate].
        right; right. split; [reflexivity|]. split; [exact Hcb|].
        exists 0, target. repeat split; auto. }
      destruct (IH (placed ++ [o]) (move_item c (length placed) cp))
        as (calls & out & cp' & k & Hrun & Hrep & Hp & Hf & Hn & Hall & Hq & Ho & _).
      * exact Hpre'.
      * rewrite <- Hshape. etransitivity; [|exact Hperm].
        symmetry. apply move_item_Permutation.
      * now rewrite <- Hshape.
      * rewrite Hlen1 in Hrun. rewrite Hrun.
        rewrite move_item_length in Hn, Hall.
        eexists _, out, cp', (S k). split; [reflexivity|].
        split.
        { unfold Remote.replay_moves. cbn [fold_left]. rewrite Hcall. exact Hrep. }
        split; [etransitivity; [apply move_item_Permutation|exact Hp]|].
        split; [now apply Hfin|]. split; [cbn [length]; rewrite Hlen1 in Hn; lia|].
        split; [|split; [now apply Hsc|split; [now apply Hout|intros _; discriminate]]].
        constructor.
        -- cbn [range_length range_start insert_before] in *. lia.
        -- eapply Forall_impl; [|exact Hall]. cbn beta. intros m. rewrite Hlen1. lia.
Qed.

(** When nothing is out of place the sorted indexed list is in index order. *)
Lemma count_out_of_place_0 (l : list IndexedTrack) :
  count_out_of_place l = 0 -> map orig_idx l = seq 0 (length l).
Proof.
  unfold count_out_of_place, enumerate.
  enough (Hgen : forall s,
             length (filter (fun it => negb (Nat.eqb (orig_idx (snd it)) (fst it)))
                            (enumerate_from s l)) = 0 ->
             map orig_idx l = seq s (length l)) by apply Hgen.
  induction l as [|x l IH]; intros s H; [reflexivity|].
  cbn [enumerate_from filter fst snd] in H. cbn [map length seq].
  destruct (Nat.eqb_spec (orig_idx x) s) as [Heq|Hne]; cbn [negb] in H.
  - f_equal; [exact Heq|]. now apply IH.
  - discriminate H.
Qed.

Lemma firstn_length_eq {A} (l1 l2 : list A) :
  length l1 = length l2 -> firstn (length l1) l1 = firstn (length l1) l2 -> l1 = l2.
Proof. intros Hl H. rewrite firstn_all in H. rewrite Hl, firstn_all in H. exact H. Qed.

Lemma target_order_Permutation tracks sort_by direction :
  Permutation tracks (target_order tracks sort_by direction).
Proof. unfold target_order. cbn [get_sort_key_function]. apply sorted_Permutation. Qed.

Lemma target_order_length tracks sort_by direction :
  length (target_order tracks sort_by direction) = length tracks.
Proof. symmetry. apply Permutation_length, target_order_Permutation. Qed.

(** One run of the preserve strategy under any cancellation pattern, with
    or without a progress callback. *)
Lemma preserve_run_any tracks sort_by direction progress_callback should_cancel :
  exists calls out k,
    sort_playlist_preserve_dates tracks sort_by direction progress_callback should_cancel
    = (calls, out)
    /\ Permutation tracks (Remote.replay_moves tracks calls)
    /\ firstn k (Remote.replay_moves tracks calls)
       = firstn k (target_order tracks sort_by direction)
    /\ length calls <= length tracks - 1
    /\ Forall (fun m => range_length m = 1
                        /\ insert_before m < range_start m
                        /\ range_start m < length tracks) calls
    /\ ((out = AlreadySorted /\ k = length tracks /\ calls = [])
        \/ (out = Completed /\ k = length tracks
            /\ forall q, q < k -> should_cancel q = false)
        \/ (out = Cancelled /\ k < length tracks /\ should_cancel k = true
            /\ forall q, q < k -> should_cancel q = false)
        \/ (out = RaisedTypeError /\ progress_callback = true /\ calls <> []
            /\ (forall q, q < k -> should_cancel q = false)
            /\ exists i t, k = S i
                           /\ nth_error (target_order tracks sort_by direction) i = Some t
                           /\ track_name t = None)).
Proof.
  unfold sort_playlist_preserve_dates, target_order. cbn [get_sort_key_function].
  set (key := key_func sort_by). set (reverse := reverse_flag direction).
  destruct tracks as [|d tracks'].
  { exists [], AlreadySorted, 0. cbn.
    split; [destruct reverse; reflexivity|]. split; [constructor|]. split; [reflexivity|].
    split; [lia|]. split; [constructor|]. left. repeat split; reflexivity. }
  remember (d :: tracks') as tracks eqn:Etracks. clear Etracks tracks'.
  set (sorted_indexed := sorted indexed_key (index_tracks key tracks) reverse).
  assert (Hlen : length sorted_indexed = length tracks).
  { unfold sorted_indexed. rewrite sorted_length. unfold index_tracks.
    rewrite length_map. apply enumerate_from_length. }
  destruct (Nat.eqb_spec (count_out_of_place sorted_indexed) 0) as [H0|Hn0].
  - exists [], AlreadySorted, (length tracks).
    split; [reflexivity|]. cbn [Remote.replay_moves fold_left length].
    split; [reflexivity|]. split.
    { f_equal. apply count_out_of_place_0 in H0. rewrite Hlen in H0.
      rewrite <- (sorted_indexed_nth key tracks reverse d).
      fold sorted_indexed. rewrite H0. symmetry. apply map_nth_seq. }
    split; [lia|]. split; [constructor|]. left; repeat split; reflexivity.
  - destruct (preserve_loop_any (fun i => nth i tracks d) progress_callback should_cancel
                sorted_indexed [] (seq 0 (length tracks)))
      as (calls & out & cp' & k & Hrun & Hrep & Hp & Hf & Hn & Hall & Hq & Ho & Hne).
    + reflexivity.
    + cbn [app]. apply sorted_indexed_perm.
    + cbn [app]. eapply Permutation_NoDup; [apply sorted_indexed_perm|apply seq_NoDup].
    + cbn [length app] in *. rewrite Nat.add_0_l in *. rewrite length_seq in *.
      rewrite map_nth_seq in Hrep.
      exists calls, out, k. split; [exact Hrun|]. rewrite Hrep.
      split.
      { rewrite <- (map_nth_seq tracks d) at 1. now apply Permutation_map. }
      split.
      { rewrite <- (sorted_indexed_nth key tracks reverse d). fold sorted_indexed.
        rewrite (firstn_map _ k cp'), Hf. now rewrite <- firstn_map. }
      split; [lia|]. split.
      { eapply Forall_impl; [|exact Hall]. cbn beta. intros m. lia. }
      rewrite Hlen in Ho.
      destruct Ho as [[-> ->]|[(-> & Hk & Hs)|(-> & Hcb & i & tg & -> & Hi & Hnull)]].
      * right; left. repeat split; auto.
      * right; right; left. repeat split; auto.
      * right; right; right. split; [reflexivity|]. split; [exact Hcb|].
        split; [now apply Hne|]. split; [exact Hq|].
        exists i, (indexed_track tg). split; [reflexivity|]. split.
        -- rewrite <- (sorted_indexed_tracks key tracks reverse). fold sorted_indexed.
           now rewrite nth_error_map, Hi.
        -- unfold name_is_null in Hnull. now destruct (track_name (indexed_track tg)).
Qed.

(** A run that is never cancelled, without a progress callback or on
    tracks that all have a name, reaches the target order and ends
    normally. *)
Lemma preserve_run_complete tracks sort_by direction progress_callback should_cancel
    calls out :
  (forall p, should_cancel p = false) ->
  progress_callback = false \/ (forall t, In t tracks -> track_name t <> None) ->
  sort_playlist_preserve_dates tracks sort_by direction progress_callback should_cancel
  = (calls, out) ->
  Remote.replay_moves tracks calls = target_order tracks sort_by direction
  /\ (out = AlreadySorted \/ out = Completed).
Proof.
  intros Hsc Hnames Hrun.
  destruct (preserve_run_any tracks sort_by direction progress_callback should_cancel)
    as (calls' & out' & k & Hrun' & Hp & Hf & _ & _ & Ho).
  rewrite Hrun in Hrun'. inversion Hrun'; subst calls' out'. clear Hrun'.
  assert (Hk : k = length tracks /\ (out = AlreadySorted \/ out = Completed)).
  { destruct Ho as [(-> & -> & _)|[(-> & -> & _)|[(-> & _ & Hs & _)|
                    (_ & Hcb & _ & _ & i & t & _ & Hi & Hnone)]]].
    - auto.
    - auto.
    - rewrite Hsc in Hs. discriminate.
    - exfalso. destruct Hnames as [Hno|Hall]; [congruence|].
      apply (Hall t); [|exact Hnone].
      eapply Permutation_in; [symmetry; apply target_order_Permutation|].
      eapply nth_error_In; exact Hi. }
  destruct Hk as (-> & Hout). split; [|exact Hout].
  assert (Hl1 : length (Remote.replay_moves tracks calls) = length tracks)
    by (symmetry; now apply Permutation_length).
  rewrite <- Hl1 in Hf. apply firstn_length_eq in Hf; [exact Hf|].
  rewrite Hl1. symmetry. apply target_order_length.
Qed.

End PreserveFacts.

(** ** Correctness of the preserve strategy *)

Module PreserveCorrect.
Import PyList PyListFacts SortService SortFacts PreserveFacts TaskExecutor Samples.

Example sample_preserve_calls :
  sort_playlist_preserve_dates sample_tracks title asc true never_cancel
  = ([ {| range_start := 1; insert_before := 0; range_length := 1 |};
       {| range_start := 3; insert_before := 1; range_length := 1 |};
       {| range_start := 3; insert_before := 2; range_length := 1 |} ],
     Completed).
Proof. reflexivity. Qed.

Example sample_preserve_desc :
  map track_name
      (Remote.replay_moves sample_tracks
         (fst (sort_playlist_preserve_dates sample_tracks title desc true never_cancel)))
  = [Some "Delta"; Some "Charlie"; Some "bravo"; Some "alpha"]%string.
Proof. reflexivity. Qed.

(** C1 on a playlist of three tracks of which the one that sorts first has
    no name ([name: null], which the sort key reads as the empty string).
    The worker passes a progress callback, so the strategy moves that
    track to the front, raises [TypeError] while formatting the progress
    message of the move, and leaves the other two in their old order: the
    remote order is not the target order, the job ends as failed and
    nothing is logged for undo.  Without a callback the same calls go on
    and reach the target order. *)
Theorem preserve_stops_at_unnamed_track :
  let run := sort_playlist_preserve_dates unnamed_tracks title asc true never_cancel in
  let w' := _run_sort_job unnamed_world 130%Z sample_task never_set in
  map track_name unnamed_tracks = [Some "Charlie"; Some "Bravo"; None]%string
  /\ map track_id (target_order unnamed_tracks title asc)
     = [Some "t3"; Some "t2"; Some "t1"]%string
  /\ run = ([ {| range_start := 2; insert_before := 0; range_length := 1 |} ],
            RaisedTypeError)
  /\ map track_id (Remote.replay_moves unnamed_tracks (fst run))
     = [Some "t3"; Some "t1"; Some "t2"]%string
  /\ Remote.replay_moves unnamed_tracks (fst run) <> target_order unnamed_tracks title asc
  /\ Remote.replay_moves unnamed_tracks
       (fst (sort_playlist_preserve_dates unnamed_tracks title asc false never_cancel))
     = target_order unnamed_tracks title asc
  /\ SpotifyClient.uris (w_sp w')
     = [Some "spotify:track:t3"; Some "spotify:track:t1"; Some "spotify:track:t2"]%string
  /\ map (fun j => (job_id j, job_status j, job_error j)) (w_jobs w')
     = [("sort_a"%string, failed, Some "'NoneType' object is not subscriptable"%string);
        ("sort_b"%string, pending, None)]
  /\ w_ops w' = [].
Proof.
  cbv zeta. repeat split; try reflexivity. vm_compute. discriminate.
Qed.

(** X22.  The preserve strategy on a run that is never cancelled, for every
    list of tracks whose order is the remote order, every sort field and
    direction.  When no progress callback is passed, or every track has a
    name, replaying the reorder calls it issues (range_start = current
    position, range_length = 1, insert_before = target_pos when
    target_pos < current_pos and target_pos + 1 otherwise) on the remote
    order gives exactly the target order, the stable sort on the sort key,
    and the run ends normally.  In any case the run either does that, or
    (with a callback) raises [TypeError] right after the move that put a
    track without a name in place; the remote order is then a
    rearrangement of the tracks whose positions up to that track are in
    target order. *)
Theorem preserve_moves_reach_target_order
    (tracks : list Track) (sort_by : SortField) (direction : Direction)
    (progress_callback : bool) (should_cancel : nat -> bool) :
  (forall p, should_cancel p = false) ->
  let run :=
    sort_playlist_preserve_dates tracks sort_by direction progress_callback should_cancel in
  let remote := Remote.replay_moves tracks (fst run) in
  let target := target_order tracks sort_by direction in
  (progress_callback = false \/ (forall t, In t tracks -> track_name t <> None) ->
   remote = target /\ (snd run = AlreadySorted \/ snd run = Completed))
  /\ ((remote = target /\ (snd run = AlreadySorted \/ snd run = Completed))
      \/ (snd run = RaisedTypeError /\ progress_callback = true /\ fst run <> []
          /\ Permutation tracks remote
          /\ exists i t, nth_error target i = Some t /\ track_name t = None
                         /\ firstn (S i) remote = firstn (S i) target)).
Proof.
  intros Hsc. cbv zeta.
  destruct (sort_playlist_preserve_dates tracks sort_by direction progress_callback
              should_cancel) as [calls out] eqn:Erun.
  cbn [fst snd]. split.
  - intros Hnames.
    exact (preserve_run_complete tracks sort_by direction progress_callback should_cancel
             calls out Hsc Hnames Erun).
  - destruct (preserve_run_any tracks sort_by direction progress_callback should_cancel)
      as (calls' & out' & k & Hrun' & Hp & Hf & _ & _ & Ho).
    rewrite Erun in Hrun'. inversion Hrun'; subst calls' out'. clear Hrun'.
    assert (Hl1 : length (Remote.replay_moves tracks calls) = length tracks)
      by (symmetry; now apply Permutation_length).
    assert (Hfull : k = length tracks ->
              Remote.replay_moves tracks calls = target_order tracks sort_by direction).
    { intros ->. rewrite <- Hl1 in Hf. apply firstn_length_eq in Hf; [exact Hf|].
      rewrite Hl1. symmetry. apply target_order_length. }
    destruct Ho as [(-> & Hk & _)|[(-> & Hk & _)|[(-> & _ & Hs & _)|
                    (-> & Hcb & Hne & _ & i & t & -> & Hi & Hnone)]]].
    + left. split; [now apply Hfull|now left].
    + left. split; [now apply Hfull|now right].
    + rewrite Hsc in Hs. discriminate.
    + right. split; [reflexivity|]. split; [exact Hcb|]. split; [exact Hne|].
      split; [exact Hp|]. exists i, t. repeat split; assumption.
Qed.

Lemma preserve_moves_reach_target_order_witness :
  (forall p, never_cancel p = false)
  /\ (true = false \/ (forall t, In t sample_tracks -> track_name t <> None))
  /\ Remote.replay_moves sample_tracks
       (fst (sort_playlist_preserve_dates sample_tracks title asc true never_cancel))
     = target_order sample_tracks title asc
  /\ (snd (sort_playlist_preserve_dates sample_tracks title asc true never_cancel)
      = AlreadySorted
      \/ snd (sort_playlist_preserve_dates sample_tracks title asc true never_cancel)
         = Completed).
Proof.
  assert (H1 : forall p, never_cancel p = false) by (intros p; reflexivity).
  assert (H2 : true = false \/ (forall t, In t sample_tracks -> track_name t <> None)).
  { right. intros t [<-|[<-|[<-|[<-|[]]]]]; discriminate. }
  split; [exact H1|]. split; [exact H2|].
  exact (proj1 (preserve_moves_reach_target_order sample_tracks title asc true never_cancel
                  H1) H2).
Defined.

End PreserveCorrect.

(** ** Crash recovery *)

Module RecoveryFacts.
Import SortJobService.

Lemma recover_row_not_active t1 t2 j : is_active (recover_row t1 t2 j) = false.
Proof.
  unfold recover_row. destruct (is_active j) eqn:E; [reflexivity|exact E].
Qed.

Lemma recover_row_swept t1 t2 j : swept t1 t2 j (recover_row t1 t2 j).
Proof.
  unfold swept, recover_row. destruct (is_active j); cbn; auto.
Qed.

(** C8.  The startup hook runs the recovery sweep: every job that was
    pending or in_progress is now failed, carries the restart-interruption
    error text and has its updated_at and completed_at set to the clock
    readings of the sweep; every other job is untouched; no job of the table
    is pending or in_progress afterwards. *)
Theorem startup_sweep_fails_interrupted_jobs (jobs : list Job) (t1 t2 : Timestamp) :
  Forall2 (swept t1 t2) jobs (Main.lifespan_startup jobs t1 t2)
  /\ Forall (fun j' => job_status j' <> pending /\ job_status j' <> in_progress)
            (Main.lifespan_startup jobs t1 t2)
  /\ fst (recover_interrupted_jobs jobs t1 t2) = length (filter is_active jobs).
Proof.
  unfold Main.lifespan_startup, recover_interrupted_jobs. cbn [fst snd].
  split; [|split; [|reflexivity]].
  - induction jobs as [|j jobs IH]; cbn; constructor; auto.
    apply recover_row_swept.
  - apply Forall_map, Forall_forall. intros j _.
    pose proof (recover_row_not_active t1 t2 j) as H. unfold is_active in H.
    destruct (job_status (recover_row t1 t2 j)); try discriminate H;
      split; discriminate.
Qed.

Example sweep_sample :
  map (fun j => (job_status j, job_error j))
      (Main.lifespan_startup
         (create_job (create_job [] 10%Z "sort_a" "pl1" "u1" title asc preserve 5 0 0)
                     20%Z "sort_b" "pl2" "u1" title asc fast 7 0 0)
         30%Z 31%Z)
  = [(failed, Some interrupted_error); (failed, Some interrupted_error)].
Proof. reflexivity. Qed.

End RecoveryFacts.

(** ** Undo: the optimistic-concurrency check *)

Module UndoFacts.
Import OpStore PlaylistRoutes Samples.

Lemma snapshot_conflict_false_l expected current :
  truthy expected = false -> snapshot_conflict expected current = false.
Proof. intros H. unfold snapshot_conflict. now rewrite H. Qed.

Lemma snapshot_conflict_false_r expected current :
  truthy current = false -> snapshot_conflict expected current = false.
Proof.
  intros H. unfold snapshot_conflict. rewrite H. now rewrite andb_false_r.
Qed.

Lemma option_string_eqb_eq a b : SortService.option_string_eqb a b = true <-> a = b.
Proof.
  destruct a as [x|], b as [y|]; cbn; split; intros H;
    try discriminate; try reflexivity.
  - apply String.eqb_eq in H. now subst.
  - inversion H; subst. apply String.eqb_refl.
Qed.

Lemma latest_created_In l o : latest_created l = Some o -> In o l.
Proof.
  revert o. induction l as [|x l IH]; cbn; intros o H; [discriminate|].
  destruct (latest_created l) as [k|] eqn:Ek.
  - destruct (op_created_at x <? op_created_at k)%Z; inversion H; subst; auto.
  - inversion H; subst; auto.
Qed.

(** C3, as the code has it.  For an undo request whose latest undoable
    operation has a non-empty stored snapshot_after, when the live version
    token is non-empty too and differs from it: undo answers 409, the remote
    playlist is left exactly as it was (no mutating call), and the undo log
    is only swept of expired rows, so the operation is still the latest
    undoable one and is not marked undone. *)
Theorem undo_conflict_when_both_tokens_differ
    (sp : Spotify) (ops : list Operation) (now : Timestamp)
    (playlist_id user_id : string) (op : Operation) :
  get_latest_operation (cleanup_expired ops now) now playlist_id user_id = Some op ->
  truthy (op_snapshot_after op) = true ->
  truthy (SpotifyClient.snapshot_id sp) = true ->
  SpotifyClient.snapshot_id sp <> op_snapshot_after op ->
  undo_last_operation sp true ops now playlist_id user_id
  = (HttpError 409 conflict_detail, sp, cleanup_expired ops now)
  /\ get_latest_operation
       (snd (undo_last_operation sp true ops now playlist_id user_id))
       now playlist_id user_id = Some op
  /\ op_undone op = false.
Proof.
  intros Hop He Hc Hne.
  assert (Hconf : snapshot_conflict (op_snapshot_after op) (SpotifyClient.snapshot_id sp) = true).
  { unfold snapshot_conflict. rewrite He, Hc. cbn.
    destruct (SortService.option_string_eqb (SpotifyClient.snapshot_id sp)
                                            (op_snapshot_after op)) eqn:E; auto.
    apply option_string_eqb_eq in E. contradiction. }
  assert (Hres : undo_last_operation sp true ops now playlist_id user_id
                 = (HttpError 409 conflict_detail, sp, cleanup_expired ops now)).
  { unfold undo_last_operation. cbn [negb]. now rewrite Hop, Hconf. }
  rewrite Hres. cbn [snd]. repeat split; auto.
  apply latest_created_In, filter_In in Hop. destruct Hop as [_ Hf].
  rewrite !andb_true_iff in Hf. destruct Hf as [[[[_ _] Hu] _] _].
  now destruct (op_undone op).
Qed.

Lemma undo_conflict_when_both_tokens_differ_witness :
  get_latest_operation (cleanup_expired [sample_op (Some "v9"%string)] 200%Z) 200%Z "pl1" "u1"
  = Some (sample_op (Some "v9"%string))
  /\ truthy (op_snapshot_after (sample_op (Some "v9"%string))) = true
  /\ truthy (SpotifyClient.snapshot_id sample_sp) = true
  /\ SpotifyClient.snapshot_id sample_sp <> op_snapshot_after (sample_op (Some "v9"%string))
  /\ (undo_last_operation sample_sp true [sample_op (Some "v9"%string)] 200%Z "pl1" "u1"
      = (HttpError 409 conflict_detail, sample_sp,
         cleanup_expired [sample_op (Some "v9"%string)] 200%Z)
      /\ get_latest_operation
           (snd (undo_last_operation sample_sp true [sample_op (Some "v9"%string)]
                   200%Z "pl1" "u1"))
           200%Z "pl1" "u1" = Some (sample_op (Some "v9"%string))
      /\ op_undone (sample_op (Some "v9"%string)) = false).
Proof.
  assert (H1 : get_latest_operation (cleanup_expired [sample_op (Some "v9"%string)] 200%Z)
                 200%Z "pl1" "u1" = Some (sample_op (Some "v9"%string))) by reflexivity.
  assert (H2 : truthy (op_snapshot_after (sample_op (Some "v9"%string))) = true) by reflexivity.
  assert (H3 : truthy (SpotifyClient.snapshot_id sample_sp) = true) by reflexivity.
  assert (H4 : SpotifyClient.snapshot_id sample_sp
               <> op_snapshot_after (sample_op (Some "v9"%string))) by (cbn; discriminate).
  repeat (split; [assumption|]).
  exact (undo_conflict_when_both_tokens_differ sample_sp [sample_op (Some "v9"%string)]
           200%Z "pl1" "u1" (sample_op (Some "v9"%string)) H1 H2 H3 H4).
Defined.

(** C3 as written fails: with no stored snapshot_after the live token
    differs from it, yet undo is not refused; it rewrites the playlist and
    marks the operation undone. *)
Lemma undo_differing_token_not_refused :
  get_latest_operation (cleanup_expired [sample_op None] 200%Z) 200%Z "pl1" "u1"
  = Some (sample_op None)
  /\ SpotifyClient.snapshot_id sample_sp <> op_snapshot_after (sample_op None)
  /\ fst (fst (undo_last_operation sample_sp true [sample_op None] 200%Z "pl1" "u1"))
     = HttpOk {| undo_restored := 2;
                 undo_snapshot_id := Some "v4"%string;
                 undo_operation_id := 1;
                 undo_op_type := "sort_reorder" |}
  /\ SpotifyClient.uris
       (snd (fst (undo_last_operation sample_sp true [sample_op None] 200%Z "pl1" "u1")))
     = [Some "spotify:track:t2"; Some "spotify:track:t1"]%string
  /\ SpotifyClient.uris sample_sp
     = [Some "spotify:track:t1"; Some "spotify:track:t2";
        Some "spotify:track:t3"; Some "spotify:track:t4"]%string
  /\ map op_undone (snd (undo_last_operation sample_sp true [sample_op None] 200%Z "pl1" "u1"))
     = [true].
Proof.
  repeat split; try reflexivity. cbn. discriminate.
Qed.

Lemma replay_operation_never_409 sp ops1 op d :
  fst (fst (replay_operation sp ops1 op)) <> HttpError 409 d.
Proof.
  unfold replay_operation.
  destruct (String.eqb (op_type op) "duplicates_remove").
  - destruct (payload_removed_items (op_payload op)); [cbn; discriminate|].
    destruct (sort_by_position _); cbn; discriminate.
  - destruct (String.eqb (op_type op) "sort_reorder").
    + destruct (payload_original_order (op_payload op)); cbn; discriminate.
    + cbn. discriminate.
Qed.

(** With a falsy stored or live token the handler is the replay step. *)
Lemma undo_is_replay_on_missing_token sp ops now playlist_id user_id op :
  get_latest_operation (cleanup_expired ops now) now playlist_id user_id = Some op ->
  truthy (op_snapshot_after op) = false \/ truthy (SpotifyClient.snapshot_id sp) = false ->
  undo_last_operation sp true ops now playlist_id user_id
  = replay_operation sp (cleanup_expired ops now) op.
Proof.
  intros Hop Hmiss. unfold undo_last_operation. cbn [negb]. rewrite Hop.
  destruct Hmiss as [H|H].
  - now rewrite snapshot_conflict_false_l.
  - now rewrite snapshot_conflict_false_r.
Qed.

End UndoFacts.

(** ** Admission control *)

Module AdmissionFacts.
Import SortJobService SortRoutes SchedulerSort Samples.

Lemma get_active_job_Some jobs now playlist_id j jobs1 :
  get_active_job_for_playlist jobs now playlist_id = (Some j, jobs1) -> jobs1 = jobs.
Proof.
  unfold get_active_job_for_playlist.
  destruct (latest_started _) as [job|]; [|discriminate].
  destruct (job_status job);
    try (intros H; inversion H; reflexivity).
  destruct (_ <? _)%Z; intros H; inversion H; reflexivity.
Qed.













End AdmissionFacts.

(** ** What a worker run leaves in the undo log *)

Module WorkerFacts.
Import SortService TaskExecutor.

(** A run either leaves the log alone or sweeps it and appends one
    [sort_reorder] entry built from the task. *)
Lemma run_sort_job_ops (w : World) (now : Timestamp) (task : SortTask) (ev : CancelEvent) :
  w_ops (_run_sort_job w now task ev) = w_ops w
  \/ exists op,
       w_ops (_run_sort_job w now task ev) = OpStore.cleanup_expired (w_ops w) now ++ [op]
       /\ op_type op = "sort_reorder"%string
       /\ op_playlist_id op = task_playlist_id task
       /\ op_user_id op = task_user_id task
       /\ payload_source (op_payload op) = meta_source (task_meta task)
       /\ payload_schedule_id (op_payload op) = meta_schedule_id (task_meta task)
       /\ payload_original_order (op_payload op)
          = original_order_of (fetched_tracks (sp_items (w_sp w)))
       /\ op_changes_made op
          = (0 <? calculate_moves_needed (fetched_tracks (sp_items (w_sp w)))
                    (target_order (fetched_tracks (sp_items (w_sp w))) (task_sort_by task)
                                  (task_direction task))).
Proof.
  unfold _run_sort_job, fail_job.
  destruct (w_client_ok w) eqn:Eok; cbn; rewrite ?Eok; cbn; [|left; reflexivity].
  destruct (is_set ev _); [left; reflexivity|].
  destruct (execute_sort _ _ _ _ _) as [sp' [err|]]; cbn; [left; reflexivity|].
  destruct (is_set ev _); cbn; [left; reflexivity|].
  right. eexists. split; [reflexivity|]. cbn. repeat split; reflexivity.
Qed.

End WorkerFacts.

(** ** Scheduled sorts and the admission path *)

Module SchedulerFacts.
Import SortJobService SortRoutes SchedulerSort TaskExecutor Samples AdmissionFacts.




End SchedulerFacts.

(** ** A collection that is already in target order *)

Module IdempotenceFacts.
Import PyList PyListFacts SortService SortFacts PreserveFacts TaskExecutor Samples.

Lemma key_lt_asym a b : key_lt a b = true -> key_lt b a = false.
Proof.
  destruct a as [x|x], b as [y|y]; cbn; try discriminate; try reflexivity.
  - unfold String.ltb. rewrite (String.compare_antisym y x).
    destruct (String.compare x y); cbn; congruence.
  - intros H. apply Z.ltb_lt in H. apply Z.ltb_ge. lia.
Qed.

Lemma keys_in_order_tail a ks : keys_in_order (a :: ks) -> keys_in_order ks.
Proof. destruct ks as [|b ks]; cbn; [auto|now intros [_ H]]. Qed.

Section InOrder.
Context {A : Type} (key : A -> SortKey).

Lemma insert_sorted_in_order x l :
  keys_in_order (map key l) -> keys_in_order (map key (insert_sorted key x l)).
Proof.
  induction l as [|y l IH]; intros H; [exact I|].
  cbn [insert_sorted]. destruct (key_lt (key y) (key x)) eqn:E.
  - specialize (IH (keys_in_order_tail _ _ H)).
    destruct l as [|z l].
    + cbn. split; [now apply key_lt_asym|exact I].
    + cbn [insert_sorted map] in *.
      destruct (key_lt (key z) (key x)); cbn [map] in *.
      * split; [exact (proj1 H)|exact IH].
      * split; [now apply key_lt_asym|exact IH].
  - cbn [map]. split; [exact E|exact H].
Qed.

Lemma stable_sort_in_order l : keys_in_order (map key (stable_sort key l)).
Proof.
  induction l as [|x l IH]; [exact I|]. cbn [stable_sort fold_right].
  apply insert_sorted_in_order. exact IH.
Qed.

Lemma stable_sort_of_in_order l : keys_in_order (map key l) -> stable_sort key l = l.
Proof.
  induction l as [|x l IH]; intros H; [reflexivity|].
  cbn [stable_sort fold_right]. fold (stable_sort key l).
  destruct l as [|y l]; [reflexivity|].
  cbn [map keys_in_order] in H. destruct H as [Hxy Hrest].
  rewrite (IH Hrest). cbn [insert_sorted]. now rewrite Hxy.
Qed.
End InOrder.

Lemma index_tracks_keys key tracks :
  map indexed_key (index_tracks key tracks) = map key tracks.
Proof.
  rewrite <- (index_tracks_track key tracks) at 2. rewrite map_map.
  apply map_ext_in. intros it Hit.
  pose proof (index_tracks_key key tracks) as H. rewrite Forall_forall in H.
  now apply H.
Qed.

(** A list that [sorted] leaves as it is keeps its indexed copy as it is. *)
Lemma sorted_fixed_indexed key tracks reverse :
  sorted key tracks reverse = tracks ->
  sorted indexed_key (index_tracks key tracks) reverse = index_tracks key tracks.
Proof.
  unfold sorted. destruct reverse; intros H.
  - assert (Hr : stable_sort key (rev tracks) = rev tracks).
    { rewrite <- H at 2. now rewrite rev_involutive. }
    rewrite stable_sort_of_in_order; [apply rev_involutive|].
    rewrite map_rev, index_tracks_keys, <- map_rev, <- Hr.
    apply stable_sort_in_order.
  - apply stable_sort_of_in_order. rewrite index_tracks_keys, <- H.
    apply stable_sort_in_order.
Qed.

Lemma count_out_of_place_index_tracks key tracks :
  count_out_of_place (index_tracks key tracks) = 0.
Proof.
  unfold count_out_of_place, index_tracks, enumerate.
  enough (Hgen : forall s,
             filter (fun it => negb (Nat.eqb (orig_idx (snd it)) (fst it)))
               (enumerate_from s
                  (map (fun it => (fst it, snd it, key (snd it))) (enumerate_from s tracks)))
             = []) by now rewrite Hgen.
  induction tracks as [|t tracks IH]; intros s; [reflexivity|].
  cbn [enumerate_from map filter fst snd orig_idx]. rewrite Nat.eqb_refl.
  cbn [negb]. apply IH.
Qed.

Lemma preserve_already_sorted tracks sort_by direction progress_callback should_cancel :
  target_order tracks sort_by direction = tracks ->
  sort_playlist_preserve_dates tracks sort_by direction progress_callback should_cancel
  = ([], AlreadySorted).
Proof.
  unfold target_order, sort_playlist_preserve_dates. cbn [get_sort_key_function].
  intros H. rewrite (sorted_fixed_indexed _ _ _ H), count_out_of_place_index_tracks.
  reflexivity.
Qed.

Lemma option_string_eqb_refl a : option_string_eqb a a = true.
Proof. destruct a; cbn; [apply String.eqb_refl|reflexivity]. Qed.

Lemma calculate_moves_needed_same tracks : calculate_moves_needed tracks tracks = 0.
Proof.
  induction tracks as [|t tracks IH]; [reflexivity|].
  cbn. now rewrite option_string_eqb_refl.
Qed.

Lemma update_job_status jobs now id st progress message error total j :
  In j (SortJobService.update_job jobs now id (Some st) progress message error total) ->
  job_id j = id -> job_status j = st.
Proof.
  unfold SortJobService.update_job. intros Hin Hid.
  apply in_map_iff in Hin. destruct Hin as (j0 & Hj & _).
  destruct (String.eqb (job_id j0) id) eqn:E.
  - subst j. reflexivity.
  - subst j. apply String.eqb_neq in E. contradiction.
Qed.

Lemma execute_sort_already_sorted sp tracks task ev first_poll :
  task_method task = preserve ->
  target_order tracks (task_sort_by task) (task_direction task) = tracks ->
  execute_sort sp tracks task ev first_poll = (sp, None).
Proof.
  intros Hm Hs. unfold execute_sort. rewrite Hm.
  now rewrite (preserve_already_sorted _ _ _ _ _ Hs).
Qed.

(** C5.  For every collection whose tracks, as the worker fetches them, are
    already in target order under the chosen field and direction, the
    preserve strategy issues no reorder call (with or without a progress
    callback, whatever the cancellation pattern), a worker run with that
    strategy leaves the remote playlist untouched, and whatever the run
    appends to the operation log has changes_made = false; a run that is
    not cancelled marks its job completed and does append such an entry. *)
Theorem preserve_on_sorted_collection_is_noop
    (w : World) (now : Timestamp) (task : SortTask) (ev : CancelEvent) :
  task_method task = preserve ->
  target_order (fetched_tracks (sp_items (w_sp w))) (task_sort_by task)
    (task_direction task)
  = fetched_tracks (sp_items (w_sp w)) ->
  (forall progress_callback should_cancel,
     fst (sort_playlist_preserve_dates (fetched_tracks (sp_items (w_sp w)))
            (task_sort_by task) (task_direction task) progress_callback should_cancel)
     = [])
  /\ w_sp (_run_sort_job w now task ev) = w_sp w
  /\ (w_ops (_run_sort_job w now task ev) = w_ops w
      \/ exists op,
           w_ops (_run_sort_job w now task ev)
           = OpStore.cleanup_expired (w_ops w) now ++ [op]
           /\ op_changes_made op = false)
  /\ (w_client_ok w = true -> cancel_set_at ev = None ->
      (forall j, In j (w_jobs (_run_sort_job w now task ev)) ->
                 job_id j = task_job_id task -> job_status j = completed)
      /\ exists op,
           w_ops (_run_sort_job w now task ev)
           = OpStore.cleanup_expired (w_ops w) now ++ [op]
           /\ op_type op = "sort_reorder"%string
           /\ op_changes_made op = false).
Proof.
  intros Hm Hs.
  assert (Hchg : (0 <? calculate_moves_needed (fetched_tracks (sp_items (w_sp w)))
                         (target_order (fetched_tracks (sp_items (w_sp w)))
                            (task_sort_by task) (task_direction task))) = false).
  { now rewrite Hs, calculate_moves_needed_same. }
  split; [intros cb sc; now rewrite (preserve_already_sorted _ _ _ _ _ Hs)|].
  split; [|split].
  - unfold _run_sort_job, fail_job.
    destruct (w_client_ok w) eqn:Eok; cbn; rewrite ?Eok; cbn; [|reflexivity].
    destruct (is_set ev _); [reflexivity|].
    rewrite (execute_sort_already_sorted _ _ _ _ _ Hm Hs). cbn.
    destruct (is_set ev _); reflexivity.
  - destruct (WorkerFacts.run_sort_job_ops w now task ev)
      as [H|(op & H1 & _ & _ & _ & _ & _ & _ & H2)].
    + now left.
    + right. exists op. split; [exact H1|]. now rewrite H2.
  - intros Hok Hev.
    assert (Hset : forall p, is_set ev p = false).
    { intros p. unfold is_set. now rewrite Hev. }
    unfold _run_sort_job. cbn. rewrite Hok. cbn. rewrite !Hset.
    rewrite (execute_sort_already_sorted _ _ _ _ _ Hm Hs). cbn.
    split.
    + intros j Hin Hid. eapply update_job_status; eauto.
    + eexists. split; [reflexivity|]. split; [reflexivity|]. cbn.
      unfold target_order in Hchg. cbn [get_sort_key_function] in Hchg. exact Hchg.
Qed.

Example sorted_sample_run :
  let w' := _run_sort_job sorted_sample_world 130%Z sample_task never_set in
  (map (fun j => (job_id j, job_status j, job_message j)) (w_jobs w'),
   map (fun o => (op_type o, op_changes_made o)) (w_ops w'),
   sp_version (w_sp w'))
  = ([("sort_a"%string, completed, Some MsgPlaylistAlreadySorted);
      ("sort_b"%string, pending, Some MsgSortJobCreated)],
     [("sort_reorder"%string, false)],
     3).
Proof. reflexivity. Qed.

Lemma preserve_on_sorted_collection_is_noop_witness :
  task_method sample_task = preserve
  /\ target_order (fetched_tracks (sp_items (w_sp sorted_sample_world)))
       (task_sort_by sample_task) (task_direction sample_task)
     = fetched_tracks (sp_items (w_sp sorted_sample_world))
  /\ ((forall progress_callback should_cancel,
         fst (sort_playlist_preserve_dates
                (fetched_tracks (sp_items (w_sp sorted_sample_world)))
                (task_sort_by sample_task) (task_direction sample_task)
                progress_callback should_cancel) = [])
      /\ w_sp (_run_sort_job sorted_sample_world 130%Z sample_task never_set)
         = w_sp sorted_sample_world
      /\ (w_ops (_run_sort_job sorted_sample_world 130%Z sample_task never_set)
          = w_ops sorted_sample_world
          \/ exists op,
               w_ops (_run_sort_job sorted_sample_world 130%Z sample_task never_set)
               = OpStore.cleanup_expired (w_ops sorted_sample_world) 130%Z ++ [op]
               /\ op_changes_made op = false)
      /\ (w_client_ok sorted_sample_world = true -> cancel_set_at never_set = None ->
          (forall j,
             In j (w_jobs (_run_sort_job sorted_sample_world 130%Z sample_task never_set)) ->
             job_id j = task_job_id sample_task -> job_status j = completed)
          /\ exists op,
               w_ops (_run_sort_job sorted_sample_world 130%Z sample_task never_set)
               = OpStore.cleanup_expired (w_ops sorted_sample_world) 130%Z ++ [op]
               /\ op_type op = "sort_reorder"%string
               /\ op_changes_made op = false)).
Proof.
  assert (H1 : task_method sample_task = preserve) by reflexivity.
  assert (H2 : target_order (fetched_tracks (sp_items (w_sp sorted_sample_world)))
                 (task_sort_by sample_task) (task_direction sample_task)
               = fetched_tracks (sp_items (w_sp sorted_sample_world))) by reflexivity.
  split; [exact H1|]. split; [exact H2|].
  exact (preserve_on_sorted_collection_is_noop sorted_sample_world 130%Z sample_task
           never_set H1 H2).
Defined.

End IdempotenceFacts.

(** ** Sort followed by undo *)

Module RoundTripFacts.
Import SortService TaskExecutor PlaylistRoutes Samples.

(** C2 on a playlist of two local files, sorted by title with the preserve
    strategy and then undone.  The ids of local files are all [null], so the
    id comparison of [calculate_moves_needed] sees nothing to move: the run
    reorders the playlist, reports it as already sorted and logs the
    operation with changes_made = false; undo then finds nothing to undo and
    the original order is not restored. *)
Theorem sort_then_undo_local_files :
  let w' := _run_sort_job local_world 130%Z sample_task never_set in
  let r := undo_last_operation (w_sp w') true (w_ops w') 140%Z "pl1" "u1" in
  SpotifyClient.uris (w_sp local_world)
  = [Some "spotify:local:::Zulu:200"; Some "spotify:local:::Alpha:180"]%string
  /\ fst (sort_playlist_preserve_dates local_tracks title asc true (fun _ => false))
     = [ {| range_start := 1; insert_before := 0; range_length := 1 |} ]
  /\ SpotifyClient.uris (w_sp w')
     = [Some "spotify:local:::Alpha:180"; Some "spotify:local:::Zulu:200"]%string
  /\ map (fun j => (job_id j, job_status j, job_message j)) (w_jobs w')
     = [("sort_a"%string, completed, Some MsgPlaylistAlreadySorted);
        ("sort_b"%string, pending, Some MsgSortJobCreated)]
  /\ map (fun o => (op_type o, op_changes_made o, payload_original_order (op_payload o)))
         (w_ops w')
     = [("sort_reorder"%string, false,
         ["spotify:local:::Zulu:200"; "spotify:local:::Alpha:180"]%string)]
  /\ fst (fst r)
     = HttpError 404 (DetailText "No undoable operations found for this playlist")
  /\ SpotifyClient.uris (snd (fst r))
     = [Some "spotify:local:::Alpha:180"; Some "spotify:local:::Zulu:200"]%string
  /\ SpotifyClient.uris (snd (fst r)) <> SpotifyClient.uris (w_sp local_world).
Proof.
  cbv zeta. repeat split; try reflexivity. vm_compute. discriminate.
Qed.

End RoundTripFacts.

(** ** The calendar *)

Module CalendarFacts.
Import PyDatetime.
Local Open Scope Z_scope.

Lemma all_in_range_spec fuel P : forall lo len,
  all_in_range fuel lo len P = true -> forall r, lo <= r < lo + len -> P r = true.
Proof.
  induction fuel as [|fuel IH]; intros lo len H r Hr; cbn [all_in_range] in H.
  - destruct (Z.leb_spec len 0); [lia|].
    destruct (Z.eqb_spec len 1); [|discriminate].
    replace r with lo by lia. exact H.
  - apply andb_true_iff in H. destruct H as [H1 H2].
    destruct (Z_lt_le_dec r (lo + len / 2)).
    + apply (IH _ _ H1). lia.
    + apply (IH _ _ H2). lia.
Qed.

Lemma cycle_days_ok : all_in_range 18 0 146097 cycle_day_ok = true.
Proof. vm_compute. reflexivity. Qed.

Lemma cycle_day_ok_all r : 0 <= r < 146097 -> cycle_day_ok r = true.
Proof.
  intros Hr. apply (all_in_range_spec _ _ _ _ cycle_days_ok). lia.
Qed.

Lemma ord2ymd_in_cycle_shift y0 r :
  _ord2ymd_in_cycle y0 r
  = let '(y, m, d) := _ord2ymd_in_cycle 1 r in (y0 - 1 + y, m, d).
Proof.
  unfold _ord2ymd_in_cycle. cbv zeta.
  destruct ((_ =? 4) || (_ =? 4))%bool; [f_equal; f_equal; lia|].
  destruct (_ <? _); f_equal; f_equal; lia.
Qed.

Lemma is_leap_shift q y : _is_leap (400 * q + y) = _is_leap y.
Proof.
  unfold _is_leap.
  replace ((400 * q + y) mod 4) with (y mod 4)
    by (replace (400 * q + y) with (y + (100 * q) * 4) by lia; now rewrite Z.mod_add).
  replace ((400 * q + y) mod 100) with (y mod 100)
    by (replace (400 * q + y) with (y + (4 * q) * 100) by lia; now rewrite Z.mod_add).
  replace ((400 * q + y) mod 400) with (y mod 400)
    by (replace (400 * q + y) with (y + q * 400) by lia; now rewrite Z.mod_add).
  reflexivity.
Qed.

Lemma days_before_year_shift q y :
  _days_before_year (400 * q + y) = 146097 * q + _days_before_year y.
Proof.
  unfold _days_before_year. cbv zeta.
  replace (400 * q + y - 1) with ((y - 1) + q * 400) by lia.
  replace ((y - 1 + q * 400) / 4) with ((y - 1) / 4 + 100 * q)
    by (replace (y - 1 + q * 400) with ((y - 1) + (100 * q) * 4) by lia;
        now rewrite Z.div_add).
  replace ((y - 1 + q * 400) / 100) with ((y - 1) / 100 + 4 * q)
    by (replace (y - 1 + q * 400) with ((y - 1) + (4 * q) * 100) by lia;
        now rewrite Z.div_add).
  rewrite Z.div_add by lia. lia.
Qed.

Lemma ymd2ord_shift q y m d :
  _ymd2ord (400 * q + y) m d = 146097 * q + _ymd2ord y m d.
Proof.
  unfold _ymd2ord, _days_before_month.
  rewrite days_before_year_shift, is_leap_shift. lia.
Qed.

Lemma days_in_month_shift q y m : _days_in_month (400 * q + y) m = _days_in_month y m.
Proof. unfold _days_in_month. now rewrite is_leap_shift. Qed.

(** [_ord2ymd] inverts [_ymd2ord] and lands on a date of the calendar. *)
Lemma ord2ymd_spec n y m d :
  _ord2ymd n = (y, m, d) ->
  1 <= m <= 12 /\ 1 <= d <= _days_in_month y m /\ _ymd2ord y m d = n
  /\ 400 * ((n - 1) / 146097) + 1 <= y <= 400 * ((n - 1) / 146097) + 400.
Proof.
  unfold _ord2ymd. cbv zeta. unfold _DI400Y.
  set (q := (n - 1) / 146097). set (r := (n - 1) mod 146097).
  assert (Hr : 0 <= r < 146097) by (apply Z.mod_pos_bound; lia).
  assert (Hn : n = 146097 * q + r + 1).
  { pose proof (Z.div_mod (n - 1) 146097 ltac:(lia)). fold q r in H. lia. }
  rewrite ord2ymd_in_cycle_shift.
  pose proof (cycle_day_ok_all r Hr) as Hok. unfold cycle_day_ok in Hok.
  destruct (_ord2ymd_in_cycle 1 r) as [[y' m'] d'].
  intros H. inversion H; subst y m d. clear H.
  rewrite !andb_true_iff in Hok.
  destruct Hok as [[[[[[H1 H2] H3] H4] H5] H6] H7].
  apply Z.leb_le in H1, H2, H3, H4, H5, H6. apply Z.eqb_eq in H7.
  replace (q * 400 + 1 - 1 + y') with (400 * q + y') by lia.
  rewrite days_in_month_shift, ymd2ord_shift. lia.
Qed.

Ltac month_cases m :=
  let H := fresh in
  assert (H : m = 1 \/ m = 2 \/ m = 3 \/ m = 4 \/ m = 5 \/ m = 6
              \/ m = 7 \/ m = 8 \/ m = 9 \/ m = 10 \/ m = 11 \/ m = 12) by lia;
  repeat (destruct H as [H|H]; [subst m|]); [..|subst m].

Lemma leap_day_range y : 0 <= leap_day y <= 1.
Proof. unfold leap_day. destruct (_is_leap y); lia. Qed.

Lemma days_before_year_succ y :
  _days_before_year (y + 1) = _days_before_year y + 365 + leap_day y.
Proof.
  unfold _days_before_year, leap_day, _is_leap. cbv zeta.
  replace (y + 1 - 1) with y by lia.
  destruct (Z.eqb_spec (y mod 4) 0), (Z.eqb_spec (y mod 100) 0),
    (Z.eqb_spec (y mod 400) 0); cbn [andb orb negb];
    Z.to_euclidean_division_equations; lia.
Qed.

Lemma days_before_year_mono y1 y2 :
  y1 <= y2 -> _days_before_year y1 <= _days_before_year y2.
Proof.
  intros H. unfold _days_before_year. cbv zeta.
  Z.to_euclidean_division_equations. lia.
Qed.

Lemma days_before_month_succ y m :
  1 <= m < 12 ->
  _days_before_month y (m + 1) = _days_before_month y m + _days_in_month y m.
Proof.
  intros Hm. unfold _days_before_month, _days_in_month.
  month_cases m; try lia; cbn; destruct (_is_leap y); reflexivity.
Qed.

Lemma days_before_month_range y m :
  1 <= m <= 12 ->
  0 <= _days_before_month y m
  /\ _days_before_month y m + _days_in_month y m <= 365 + leap_day y
  /\ 28 <= _days_in_month y m <= 31.
Proof.
  intros Hm. unfold _days_before_month, _days_in_month, leap_day.
  month_cases m; cbn; destruct (_is_leap y); lia.
Qed.

Lemma days_before_month_mono y m1 m2 :
  1 <= m1 -> m1 < m2 -> m2 <= 12 ->
  _days_before_month y m1 + _days_in_month y m1 <= _days_before_month y m2.
Proof.
  intros H1 H2 H3. unfold _days_before_month, _days_in_month.
  month_cases m1; month_cases m2; try lia; cbn; destruct (_is_leap y); lia.
Qed.

Lemma valid_date_spec y m d :
  valid_date y m d = true <->
  1 <= y <= 9999 /\ 1 <= m <= 12 /\ 1 <= d <= _days_in_month y m.
Proof.
  unfold valid_date, MINYEAR, MAXYEAR. rewrite !andb_true_iff, !Z.leb_le. lia.
Qed.

Lemma valid_time_spec h mi s us :
  valid_time h mi s us = true <->
  0 <= h <= 23 /\ 0 <= mi <= 59 /\ 0 <= s <= 59 /\ 0 <= us <= 999999.
Proof. unfold valid_time. rewrite !andb_true_iff, !Z.leb_le. lia. Qed.

Lemma valid_spec dt :
  valid dt = true <->
  (1 <= year dt <= 9999 /\ 1 <= month dt <= 12
   /\ 1 <= day dt <= _days_in_month (year dt) (month dt))
  /\ (0 <= hour dt <= 23 /\ 0 <= minute dt <= 59 /\ 0 <= second dt <= 59
      /\ 0 <= microsecond dt <= 999999).
Proof.
  unfold valid. now rewrite andb_true_iff, valid_date_spec, valid_time_spec.
Qed.

Lemma ymd2ord_year_lt y1 m1 d1 y2 m2 d2 :
  1 <= m1 <= 12 -> d1 <= _days_in_month y1 m1 ->
  1 <= m2 <= 12 -> 1 <= d2 ->
  y1 < y2 -> _ymd2ord y1 m1 d1 < _ymd2ord y2 m2 d2.
Proof.
  intros Hm1 Hd1 Hm2 Hd2 Hy. unfold _ymd2ord.
  pose proof (days_before_month_range y1 m1 Hm1) as (_ & H1 & _).
  pose proof (days_before_month_range y2 m2 Hm2) as (H2 & _ & _).
  pose proof (days_before_year_succ y1) as Hs.
  pose proof (days_before_year_mono (y1 + 1) y2 ltac:(lia)) as Hmono.
  lia.
Qed.

Lemma ymd2ord_month_lt y m1 d1 m2 d2 :
  1 <= m1 -> m2 <= 12 -> d1 <= _days_in_month y m1 -> 1 <= d2 ->
  m1 < m2 -> _ymd2ord y m1 d1 < _ymd2ord y m2 d2.
Proof.
  intros H1 H2 Hd1 Hd2 Hm. unfold _ymd2ord.
  pose proof (days_before_month_mono y m1 m2 H1 Hm H2). lia.
Qed.

Lemma time_of_day_range dt :
  0 <= hour dt <= 23 -> 0 <= minute dt <= 59 -> 0 <= second dt <= 59 ->
  0 <= microsecond dt <= 999999 ->
  0 <= time_of_day dt < US_PER_DAY.
Proof. unfold time_of_day, US_PER_DAY. lia. Qed.

(** On datetimes of the calendar, the field-by-field comparison is the
    comparison of the instants. *)
Lemma compare_instant a b :
  valid a = true -> valid b = true -> compare a b = (instant a ?= instant b).
Proof.
  intros Ha Hb. apply valid_spec in Ha, Hb.
  destruct Ha as [(Hya & Hma & Hda) (Hha & Hmia & Hsa & Husa)].
  destruct Hb as [(Hyb & Hmb & Hdb) (Hhb & Hmib & Hsb & Husb)].
  pose proof (time_of_day_range a Hha Hmia Hsa Husa) as Hta.
  pose proof (time_of_day_range b Hhb Hmib Hsb Husb) as Htb.
  unfold compare, fields, instant, toordinal. cbn [lex_compare]. symmetry.
  destruct (Z.compare_spec (year a) (year b)) as [Ey|Ly|Gy].
  2: { apply Z.compare_lt_iff.
       pose proof (ymd2ord_year_lt (year a) (month a) (day a) (year b) (month b) (day b)
                     Hma (proj2 Hda) Hmb (proj1 Hdb) Ly). unfold US_PER_DAY in *. lia. }
  2: { apply Z.compare_gt_iff.
       pose proof (ymd2ord_year_lt (year b) (month b) (day b) (year a) (month a) (day a)
                     Hmb (proj2 Hdb) Hma (proj1 Hda) Gy). unfold US_PER_DAY in *. lia. }
  rewrite Ey in *.
  destruct (Z.compare_spec (month a) (month b)) as [Em|Lm|Gm].
  2: { apply Z.compare_lt_iff.
       pose proof (ymd2ord_month_lt (year b) (month a) (day a) (month b) (day b)
                     (proj1 Hma) (proj2 Hmb) (proj2 Hda) (proj1 Hdb) Lm).
       unfold US_PER_DAY in *. lia. }
  2: { apply Z.compare_gt_iff.
       pose proof (ymd2ord_month_lt (year b) (month b) (day b) (month a) (day a)
                     (proj1 Hmb) (proj2 Hma) (proj2 Hdb) (proj1 Hda) Gm).
       unfold US_PER_DAY in *. lia. }
  rewrite Em in *. unfold _ymd2ord.
  destruct (Z.compare_spec (day a) (day b)) as [Ed|Ld|Gd].
  2: { apply Z.compare_lt_iff. unfold US_PER_DAY in *. lia. }
  2: { apply Z.compare_gt_iff. unfold US_PER_DAY in *. lia. }
  rewrite Ed. unfold time_of_day.
  destruct (Z.compare_spec (hour a) (hour b)) as [Eh|Lh|Gh].
  2: { apply Z.compare_lt_iff. lia. }
  2: { apply Z.compare_gt_iff. lia. }
  destruct (Z.compare_spec (minute a) (minute b)) as [Emi|Lmi|Gmi].
  2: { apply Z.compare_lt_iff. lia. }
  2: { apply Z.compare_gt_iff. lia. }
  destruct (Z.compare_spec (second a) (second b)) as [Es|Ls|Gs].
  2: { apply Z.compare_lt_iff. lia. }
  2: { apply Z.compare_gt_iff. lia. }
  destruct (Z.compare_spec (microsecond a) (microsecond b)) as [Eu|Lu|Gu].
  - apply Z.compare_eq_iff. lia.
  - apply Z.compare_lt_iff. lia.
  - apply Z.compare_gt_iff. lia.
Qed.

Lemma leb_instant a b :
  valid a = true -> valid b = true -> leb a b = (instant a <=? instant b).
Proof.
  intros Ha Hb. unfold leb, Z.leb. now rewrite (compare_instant a b Ha Hb).
Qed.

Lemma ltb_instant a b :
  valid a = true -> valid b = true -> ltb a b = (instant a <? instant b).
Proof.
  intros Ha Hb. unfold ltb, Z.ltb. now rewrite (compare_instant a b Ha Hb).
Qed.

Lemma ord2ymd_year_range n y m d :
  0 < n <= _MAXORDINAL -> _ord2ymd n = (y, m, d) -> 1 <= y <= 9999.
Proof.
  intros Hn H. apply ord2ymd_spec in H. destruct H as (Hm & Hd & Hord & Hy).
  split.
  - assert (0 <= (n - 1) / 146097) by (apply Z.div_pos; lia). lia.
  - destruct (Z_le_gt_dec y 9999) as [|Hbig]; [assumption|exfalso].
    pose proof (days_before_year_mono 10000 y ltac:(lia)) as Hmono.
    pose proof (days_before_month_range y m Hm) as (H0 & _ & _).
    unfold _ymd2ord in Hord. unfold _MAXORDINAL in Hn.
    change (_days_before_year 10000) with 3652059 in Hmono. lia.
Qed.

(** [dt + td], when it does not overflow, is a datetime of the calendar and
    denotes the instant of [dt] shifted by [td]. *)
Lemma add_spec dt td dt' :
  add dt td = Some dt' -> valid dt' = true /\ instant dt' = instant dt + td.
Proof.
  unfold add. cbv zeta. fold (instant dt).
  set (total := instant dt + td).
  destruct ((0 <? total / US_PER_DAY) && (total / US_PER_DAY <=? _MAXORDINAL)) eqn:Hrange;
    [|discriminate].
  apply andb_true_iff in Hrange. destruct Hrange as [H0 H1].
  apply Z.ltb_lt in H0. apply Z.leb_le in H1.
  destruct (_ord2ymd (total / US_PER_DAY)) as [[y m] d] eqn:Eymd.
  intros H. inversion H; subst dt'. clear H.
  pose proof (ord2ymd_year_range _ _ _ _ (conj H0 H1) Eymd) as Hy.
  apply ord2ymd_spec in Eymd. destruct Eymd as (Hm & Hd & Hord & _).
  assert (Hrest : 0 <= total mod US_PER_DAY < US_PER_DAY)
    by (apply Z.mod_pos_bound; unfold US_PER_DAY; lia).
  pose proof (Z.div_mod total US_PER_DAY ltac:(unfold US_PER_DAY; lia)) as Htot.
  set (rest := total mod US_PER_DAY) in *.
  split.
  - apply valid_spec. cbn [year month day hour minute second microsecond].
    split; [lia|]. unfold US_PER_DAY in Hrest.
    repeat split; Z.to_euclidean_division_equations; lia.
  - unfold instant at 1, toordinal, time_of_day.
    cbn [year month day hour minute second microsecond]. rewrite Hord.
    assert (Htod : ((rest / 1000000 / 3600 * 60 + rest / 1000000 mod 3600 / 60) * 60
                    + rest / 1000000 mod 3600 mod 60) * 1000000 + rest mod 1000000 = rest).
    { clear - Hrest. unfold US_PER_DAY in Hrest. Z.to_euclidean_division_equations. lia. }
    rewrite Htod. lia.
Qed.

Lemma sub_spec dt td dt' :
  sub dt td = Some dt' -> valid dt' = true /\ instant dt' = instant dt - td.
Proof. unfold sub. intros H. apply add_spec in H. destruct H. split; [auto|lia]. Qed.

Lemma make_spec y m d h mi s us dt :
  make y m d h mi s us = Some dt ->
  valid dt = true
  /\ dt = {| year := y; month := m; day := d;
             hour := h; minute := mi; second := s; microsecond := us |}.
Proof.
  unfold make. destruct (valid_date y m d && valid_time h mi s us) eqn:E; [|discriminate].
  intros H. inversion H; subst. split; [exact E|reflexivity].
Qed.

End CalendarFacts.

(** ** The recurrence computation *)

Module RecurrenceFacts.
Import PyDatetime CalendarFacts Schedules Samples.
Local Open Scope Z_scope.

Lemma instant_range dt :
  valid dt = true ->
  toordinal dt * US_PER_DAY <= instant dt < (toordinal dt + 1) * US_PER_DAY.
Proof.
  intros H. apply valid_spec in H. destruct H as [_ (Hh & Hmi & Hs & Hus)].
  pose proof (time_of_day_range dt Hh Hmi Hs Hus). unfold instant. lia.
Qed.

Lemma timedelta_days_spec d td : timedelta_days d = Some td -> td = d * US_PER_DAY.
Proof.
  unfold timedelta_days, checked. destruct (_ <=? _); [|discriminate].
  now intros H; inversion H.
Qed.

Lemma timedelta_minutes_spec m td : timedelta_minutes m = Some td -> td = m * 60000000.
Proof.
  unfold timedelta_minutes, checked. destruct (_ <=? _); [|discriminate].
  now intros H; inversion H.
Qed.

Lemma replace_time_spec dt h tl :
  replace_time dt h 0 0 0 = Some tl ->
  valid tl = true /\ year tl = year dt /\ month tl = month dt /\ day tl = day dt
  /\ toordinal tl = toordinal dt.
Proof.
  unfold replace_time. intros H. apply make_spec in H. destruct H as [Hv ->].
  repeat split; auto.
Qed.

Lemma daily_after bl tl r :
  valid bl = true -> valid tl = true -> toordinal tl = toordinal bl ->
  (if leb tl bl then bind (timedelta_days 1) (add tl) else Some tl) = Some r ->
  valid r = true /\ instant bl < instant r.
Proof.
  intros Hbl Htl Hord. rewrite (leb_instant tl bl Htl Hbl).
  pose proof (instant_range bl Hbl) as Rb. pose proof (instant_range tl Htl) as Rt.
  rewrite Hord in Rt.
  destruct (Z.leb_spec (instant tl) (instant bl)) as [Hle|Hgt].
  - destruct (timedelta_days 1) as [td|] eqn:Etd; [|discriminate]. cbn [bind].
    apply timedelta_days_spec in Etd. intros H. apply add_spec in H.
    destruct H as [Hv Hi]. split; [exact Hv|]. lia.
  - intros H. inversion H; subst r. split; [exact Htl|lia].
Qed.

Lemma weekly_after bl tl wanted r :
  valid bl = true -> valid tl = true -> toordinal tl = toordinal bl ->
  bind (timedelta_days
          (if ((wanted - weekday tl) mod 7 =? 0) && leb tl bl then 7
           else (wanted - weekday tl) mod 7))
       (add tl) = Some r ->
  valid r = true /\ instant bl < instant r.
Proof.
  intros Hbl Htl Hord. rewrite (leb_instant tl bl Htl Hbl).
  pose proof (instant_range bl Hbl) as Rb. pose proof (instant_range tl Htl) as Rt.
  rewrite Hord in Rt.
  assert (Hmod : 0 <= (wanted - weekday tl) mod 7 < 7) by (apply Z.mod_pos_bound; lia).
  set (da := (wanted - weekday tl) mod 7) in *.
  destruct (timedelta_days _) as [td|] eqn:Etd; [|discriminate]. cbn [bind].
  apply timedelta_days_spec in Etd. intros H. apply add_spec in H.
  destruct H as [Hv Hi]. split; [exact Hv|].
  destruct (Z.eqb_spec da 0) as [E0|N0]; cbn [andb] in Etd.
  - destruct (Z.leb_spec (instant tl) (instant bl)); unfold US_PER_DAY in *; lia.
  - unfold US_PER_DAY in *. lia.
Qed.

Lemma replace_date_spec dt y m d c :
  replace_date dt y m d = Some c ->
  valid c = true /\ year c = y /\ month c = m /\ day c = d
  /\ time_of_day c = time_of_day dt.
Proof.
  unfold replace_date. intros H. apply make_spec in H. destruct H as [Hv ->].
  repeat split; auto.
Qed.

Lemma next_month_after y m d d' :
  1 <= m <= 12 -> d <= _days_in_month y m -> 1 <= d' ->
  _ymd2ord y m d
  < _ymd2ord (fst (if m =? 12 then (y + 1, 1) else (y, m + 1)))
             (snd (if m =? 12 then (y + 1, 1) else (y, m + 1))) d'.
Proof.
  intros Hm Hd Hd'. destruct (Z.eqb_spec m 12) as [->|Hne]; cbn [fst snd].
  - apply ymd2ord_year_lt; lia.
  - apply ymd2ord_month_lt; lia.
Qed.

Lemma monthly_after bl tl dom r :
  valid bl = true -> valid tl = true ->
  year tl = year bl -> month tl = month bl ->
  monthly_candidate bl tl dom = Some r ->
  valid r = true /\ instant bl < instant r.
Proof.
  intros Hbl Htl Hy Hm. unfold monthly_candidate. cbv zeta.
  set (d := Z.max 1 (Z.min dom 28)).
  assert (Hd : 1 <= d) by (unfold d; lia).
  destruct (try_except (replace_date tl (year tl) (month tl) d)
                       (replace_date tl (year tl) (month tl) 1)) as [c|] eqn:Ec;
    [|discriminate].
  cbn [bind].
  assert (Hc : valid c = true /\ 1 <= day c).
  { unfold try_except in Ec.
    destruct (replace_date tl (year tl) (month tl) d) as [c1|] eqn:E1.
    - inversion Ec; subst c1. apply replace_date_spec in E1.
      destruct E1 as (Hv & _ & _ & Hday & _). split; [exact Hv|lia].
    - apply replace_date_spec in Ec. destruct Ec as (Hv & _ & _ & Hday & _).
      split; [exact Hv|lia]. }
  destruct Hc as [Hcv Hcd].
  rewrite (leb_instant c bl Hcv Hbl).
  destruct (Z.leb_spec (instant c) (instant bl)) as [Hle|Hgt].
  - pose proof (valid_spec bl) as Vb. apply Vb in Hbl.
    destruct Hbl as [(Hby & Hbm & Hbd) Hbt].
    pose proof (next_month_after (year bl) (month bl) (day bl)) as Hnext.
    rewrite Hy, Hm.
    destruct (if month bl =? 12 then (year bl + 1, 1) else (year bl, month bl + 1))
      as [y' m'] eqn:Enext.
    cbn [fst snd] in Hnext.
    intros Hr.
    assert (Hrv : valid r = true /\ year r = y' /\ month r = m' /\ 1 <= day r).
    { unfold try_except in Hr.
      destruct (replace_date c y' m' d) as [c1|] eqn:E1.
      - inversion Hr; subst c1. apply replace_date_spec in E1.
        destruct E1 as (Hv & Hy1 & Hm1 & Hday & _). repeat split; auto; lia.
      - apply replace_date_spec in Hr. destruct Hr as (Hv & Hy1 & Hm1 & Hday & _).
        repeat split; auto; lia. }
    destruct Hrv as (Hrv & Hry & Hrm & Hrd). split; [exact Hrv|].
    specialize (Hnext (day r) Hbm (proj2 Hbd) Hrd).
    pose proof (instant_range r Hrv) as Rr.
    assert (Hbl' : valid bl = true) by (apply Vb; auto).
    pose proof (instant_range bl Hbl') as Rb.
    unfold toordinal in Rr, Rb. rewrite Hry, Hrm in Rr.
    unfold US_PER_DAY in *. lia.
  - intros H. inversion H; subst r. split; [exact Hcv|lia].
Qed.

Ltac eval_dby y :=
  let c := eval vm_compute in (_days_before_year y) in
  change (_days_before_year y) with c in *.

Lemma add_some dt td :
  0 < (instant dt + td) / US_PER_DAY <= _MAXORDINAL -> exists dt', add dt td = Some dt'.
Proof.
  intros [H0 H1]. unfold add. cbv zeta. fold (instant dt).
  apply Z.ltb_lt in H0. apply Z.leb_le in H1. rewrite H0, H1. cbn [andb].
  destruct (_ord2ymd _) as [[y m] d]. eauto.
Qed.

Lemma ordinal_bounds dt :
  valid dt = true ->
  _days_before_year (year dt) + 1 <= toordinal dt <= _days_before_year (year dt + 1).
Proof.
  intros H. apply valid_spec in H. destruct H as [(Hy & Hm & Hd) _].
  pose proof (days_before_month_range (year dt) (month dt) Hm) as (H0 & H1 & _).
  pose proof (days_before_year_succ (year dt)).
  unfold toordinal, _ymd2ord. lia.
Qed.

Lemma year_le_of_ordinal dt Y :
  valid dt = true -> toordinal dt <= _days_before_year (Y + 1) -> year dt <= Y.
Proof.
  intros Hv Hord. destruct (Z_le_gt_dec (year dt) Y) as [|Hgt]; [assumption|exfalso].
  pose proof (ordinal_bounds dt Hv) as [Hlo _].
  pose proof (days_before_year_mono (Y + 1) (year dt) ltac:(lia)). lia.
Qed.

Lemma div_between x a b :
  a * US_PER_DAY <= x < b * US_PER_DAY -> a <= x / US_PER_DAY < b.
Proof. unfold US_PER_DAY. intros H. Z.to_euclidean_division_equations. lia. Qed.

Lemma ordinal_of_instant dt a b :
  valid dt = true -> a * US_PER_DAY <= instant dt < b * US_PER_DAY ->
  a <= toordinal dt < b.
Proof.
  intros Hv H. pose proof (instant_range dt Hv). unfold US_PER_DAY in *. lia.
Qed.

Lemma make_some y m d h mi s us :
  valid_date y m d = true -> valid_time h mi s us = true ->
  exists dt, make y m d h mi s us = Some dt.
Proof. intros H1 H2. unfold make. rewrite H1, H2. cbn. eauto. Qed.

Lemma valid_parts dt :
  valid dt = true ->
  valid_date (year dt) (month dt) (day dt) = true
  /\ valid_time (hour dt) (minute dt) (second dt) (microsecond dt) = true.
Proof. unfold valid. intros H. now apply andb_true_iff in H. Qed.

Lemma next_local_returns params freq bl tl :
  recurring (schedule_type_of params) ->
  valid bl = true -> valid tl = true ->
  year tl = year bl -> month tl = month bl -> toordinal tl = toordinal bl ->
  1 <= year bl <= 9991 ->
  exists r, next_local params freq bl tl = Some r
            /\ toordinal r <= _days_before_year 9993.
Proof.
  intros Hty Hbl Htl Hy Hm Hord Hyear.
  pose proof (instant_range bl Hbl) as Rb. pose proof (instant_range tl Htl) as Rt.
  pose proof (ordinal_bounds bl Hbl) as Ob.
  pose proof (days_before_year_mono (year bl + 1) 9992 ltac:(lia)) as M1.
  pose proof (days_before_year_mono 1 (year bl) ltac:(lia)) as M0.
  eval_dby 9992. eval_dby 1. eval_dby 9993.
  rewrite Hord in Rt.
  assert (Hadd : forall n, 0 <= n <= 7 ->
            exists r, bind (timedelta_days n) (add tl) = Some r
                      /\ toordinal r <= 3649503).
  { intros n Hn.
    assert (Etd : timedelta_days n = Some (n * US_PER_DAY)).
    { unfold timedelta_days, checked.
      replace (n * US_PER_DAY / US_PER_DAY) with n
        by (symmetry; apply Z.div_mul; unfold US_PER_DAY; lia).
      destruct (Z.leb_spec (Z.abs n) 999999999); [reflexivity|lia]. }
    rewrite Etd. cbn [bind].
    assert (Hb : (toordinal bl + n) * US_PER_DAY <= instant tl + n * US_PER_DAY
                 < (toordinal bl + n + 1) * US_PER_DAY) by lia.
    pose proof (div_between _ _ _ Hb) as Hdiv.
    destruct (add_some tl (n * US_PER_DAY)) as [r Er].
    { unfold _MAXORDINAL. lia. }
    exists r. split; [exact Er|].
    apply add_spec in Er. destruct Er as [Hrv Hri].
    rewrite <- Hri in Hb.
    pose proof (ordinal_of_instant r _ _ Hrv Hb). lia. }
  unfold next_local. cbv zeta.
  destruct Hty as [E|[E|E]]; rewrite E; cbn [String.eqb Ascii.eqb Bool.eqb].
  - destruct (leb tl bl).
    + apply Hadd. lia.
    + exists tl. split; [reflexivity|]. lia.
  - apply Hadd.
    pose proof (Z.mod_pos_bound (dow_map (day_of_week_of params) - weekday tl) 7 ltac:(lia)).
    destruct (_ && _); lia.
  - unfold monthly_candidate. cbv zeta.
    set (d := Z.max 1 (Z.min (day_of_month_of params) 28)).
    assert (Hd : 1 <= d <= 28) by (unfold d; lia).
    destruct (valid_parts tl Htl) as [Hdate Htime].
    apply valid_date_spec in Hdate. destruct Hdate as (Hty' & Htm & Htd).
    pose proof (days_before_month_range (year tl) (month tl) Htm) as (_ & _ & Hdim).
    destruct (make_some (year tl) (month tl) d (hour tl) (minute tl) (second tl)
                (microsecond tl)) as [c Ec]; [apply valid_date_spec; lia|exact Htime|].
    unfold replace_date at 1. rewrite Ec. cbn [try_except bind].
    apply make_spec in Ec. destruct Ec as [Hcv Hc].
    destruct (leb c bl).
    + set (nx := if month tl =? 12 then (year tl + 1, 1) else (year tl, month tl + 1)).
      assert (Hnx : 1 <= fst nx <= 9992 /\ 1 <= snd nx <= 12).
      { unfold nx. destruct (Z.eqb_spec (month tl) 12); cbn [fst snd]; lia. }
      destruct nx as [y' m']. cbn [fst snd] in Hnx.
      pose proof (days_before_month_range y' m' (proj2 Hnx)) as (_ & _ & Hdim').
      destruct (valid_parts c Hcv) as [_ Hctime].
      assert (Hvd : valid_date y' m' d = true)
        by (apply valid_date_spec; clear Hadd; lia).
      destruct (make_some y' m' d (hour c) (minute c) (second c) (microsecond c))
        as [r Er]; [exact Hvd|exact Hctime|].
      unfold replace_date at 1. rewrite Er. cbn [try_except].
      exists r. split; [reflexivity|].
      apply make_spec in Er. destruct Er as [Hrv Hr].
      pose proof (ordinal_bounds r Hrv) as [_ Hup].
      assert (Hyr : year r = y') by (rewrite Hr; reflexivity).
      rewrite Hyr in Hup.
      pose proof (days_before_year_mono (y' + 1) 9993 ltac:(lia)) as M2.
      eval_dby 9993. lia.
    + exists c. split; [reflexivity|].
      pose proof (ordinal_bounds c Hcv) as [_ Hup].
      assert (Hyc : year c = year tl) by (rewrite Hc; reflexivity).
      rewrite Hyc in Hup.
      pose proof (days_before_year_mono (year tl + 1) 9993 ltac:(lia)) as M2.
      eval_dby 9993. lia.
Qed.

Lemma next_local_after params freq bl tl r :
  recurring (schedule_type_of params) ->
  valid bl = true -> valid tl = true ->
  year tl = year bl -> month tl = month bl -> toordinal tl = toordinal bl ->
  next_local params freq bl tl = Some r ->
  valid r = true /\ instant bl < instant r.
Proof.
  intros Hty Hbl Htl Hy Hm Hord. unfold next_local. cbv zeta.
  destruct Hty as [E|[E|E]]; rewrite E; cbn [String.eqb Ascii.eqb Bool.eqb].
  - apply daily_after; assumption.
  - apply weekly_after; assumption.
  - apply monthly_after; assumption.
Qed.

(** Whenever the recurrence computation returns, the time it returns is on
    the calendar and strictly after the base time. *)
Lemma compute_next_run_after params freq base t :
  recurring (schedule_type_of params) ->
  valid base = true ->
  _compute_next_run params freq base = Some t ->
  valid t = true /\ instant base < instant t.
Proof.
  intros Hty Hbase. unfold _compute_next_run.
  destruct (timedelta_minutes (offset_minutes_of params)) as [offset|]; [|discriminate].
  cbn [bind].
  destruct (add base offset) as [bl|] eqn:Ebl; [|discriminate]. cbn [bind].
  destruct (replace_time bl (hour_of params) 0 0 0) as [tl|] eqn:Etl; [|discriminate].
  cbn [bind].
  destruct (next_local params freq bl tl) as [r|] eqn:Er; [|discriminate]. cbn [bind].
  intros Ht.
  apply add_spec in Ebl. destruct Ebl as [Hbl Hibl].
  apply replace_time_spec in Etl. destruct Etl as (Htl & Hy & Hm & _ & Hord).
  apply (next_local_after params freq bl tl r Hty Hbl Htl Hy Hm Hord) in Er.
  destruct Er as [Hr Hir].
  apply sub_spec in Ht. destruct Ht as [Hv Hit]. split; [exact Hv|lia].
Qed.

Lemma timedelta_minutes_some m :
  -1440 <= m <= 1440 -> timedelta_minutes m = Some (m * 60000000).
Proof.
  intros H. unfold timedelta_minutes, checked.
  destruct (Z.leb_spec (Z.abs (m * 60000000 / US_PER_DAY)) 999999999) as [|Hbig];
    [reflexivity|exfalso].
  unfold US_PER_DAY in Hbig. Z.to_euclidean_division_equations. lia.
Qed.

Lemma replace_time_some dt h :
  valid dt = true -> 0 <= h <= 23 -> exists tl, replace_time dt h 0 0 0 = Some tl.
Proof.
  intros Hv Hh. destruct (valid_parts dt Hv) as [Hd _].
  apply make_some; [exact Hd|]. apply valid_time_spec. lia.
Qed.

(** Within the calendar's interior the recurrence computation returns. *)
Lemma compute_next_run_returns params freq base :
  recurring (schedule_type_of params) ->
  valid base = true ->
  2 <= year base <= 9990 ->
  0 <= hour_of params <= 23 ->
  -1440 <= offset_minutes_of params <= 1440 ->
  exists t, _compute_next_run params freq base = Some t.
Proof.
  intros Hty Hbase Hyear Hhour Hoff. unfold _compute_next_run.
  rewrite (timedelta_minutes_some _ Hoff). cbn [bind].
  set (td := offset_minutes_of params * 60000000).
  assert (Htd : - US_PER_DAY <= td <= US_PER_DAY) by (unfold td, US_PER_DAY; lia).
  pose proof (instant_range base Hbase) as Rb.
  pose proof (ordinal_bounds base Hbase) as Ob.
  pose proof (days_before_year_mono 2 (year base) ltac:(lia)) as M0.
  pose proof (days_before_year_mono (year base + 1) 9991 ltac:(lia)) as M1.
  eval_dby 2. eval_dby 9991.
  assert (Hb : (toordinal base - 1) * US_PER_DAY <= instant base + td
               < (toordinal base + 2) * US_PER_DAY) by lia.
  pose proof (div_between _ _ _ Hb) as Hdiv.
  destruct (add_some base td) as [bl Ebl]; [unfold _MAXORDINAL; lia|].
  rewrite Ebl. cbn [bind].
  apply add_spec in Ebl. destruct Ebl as [Hbl Hibl].
  rewrite <- Hibl in Hb.
  pose proof (ordinal_of_instant bl _ _ Hbl Hb) as Obl.
  assert (Hybl : 1 <= year bl <= 9991).
  { split.
    - apply valid_spec in Hbl. lia.
    - apply year_le_of_ordinal; [exact Hbl|].
      replace (9991 + 1) with 9992 by lia. eval_dby 9992. lia. }
  destruct (replace_time_some bl (hour_of params) Hbl Hhour) as [tl Etl].
  rewrite Etl. cbn [bind].
  apply replace_time_spec in Etl. destruct Etl as (Htl & Hy & Hm & _ & Hord).
  destruct (next_local_returns params freq bl tl Hty Hbl Htl Hy Hm Hord Hybl)
    as (r & Er & Hrord).
  rewrite Er. cbn [bind].
  apply (next_local_after params freq bl tl r Hty Hbl Htl Hy Hm Hord) in Er.
  destruct Er as [Hr Hir].
  pose proof (instant_range r Hr) as Rr. eval_dby 9993.
  unfold sub. apply add_some.
  assert (Hs : 365 * US_PER_DAY <= instant r + - td < 3649506 * US_PER_DAY)
    by (unfold US_PER_DAY in *; lia).
  pose proof (div_between _ _ _ Hs). unfold _MAXORDINAL. lia.
Qed.

Lemma lex_compare_eq a b : lex_compare a b = Eq -> a = b.
Proof.
  revert b. induction a as [|x a IH]; intros [|y b]; cbn; try discriminate; auto.
  destruct (Z.compare_spec x y); try discriminate.
  intros Hab. f_equal; auto.
Qed.

(** Two datetimes of the calendar that denote the same instant are equal. *)
Lemma instant_inj a b :
  valid a = true -> valid b = true -> instant a = instant b -> a = b.
Proof.
  intros Ha Hb Hi. pose proof (compare_instant a b Ha Hb) as Hc.
  rewrite Hi, Z.compare_refl in Hc. apply lex_compare_eq in Hc.
  destruct a, b. unfold fields in Hc. cbn in Hc. now inversion Hc.
Qed.

Lemma add_zero dt : valid dt = true -> add dt 0 = Some dt.
Proof.
  intros Hv. pose proof (instant_range dt Hv) as R.
  pose proof (ordinal_bounds dt Hv) as O.
  assert (Hy : 1 <= year dt <= 9999) by (apply valid_spec in Hv; unfold MINYEAR, MAXYEAR in *; lia).
  pose proof (days_before_year_mono 1 (year dt) ltac:(lia)) as M0.
  pose proof (days_before_year_mono (year dt + 1) 10000 ltac:(lia)) as M1.
  eval_dby 1. eval_dby 10000.
  assert (Hb : toordinal dt * US_PER_DAY <= instant dt + 0 < (toordinal dt + 1) * US_PER_DAY)
    by lia.
  pose proof (div_between _ _ _ Hb).
  destruct (add_some dt 0) as [dt' E]; [unfold _MAXORDINAL; lia|].
  rewrite E. f_equal. apply add_spec in E. destruct E as [Hv' Hi].
  apply instant_inj; [assumption|assumption|lia].
Qed.

Lemma days_in_month_ge_28 y m : 1 <= m <= 12 -> 28 <= _days_in_month y m.
Proof.
  intros Hm. unfold _days_in_month.
  destruct ((m =? 2) && _is_leap y); [lia|].
  assert (Hc : m = 1 \/ m = 2 \/ m = 3 \/ m = 4 \/ m = 5 \/ m = 6 \/ m = 7 \/ m = 8
               \/ m = 9 \/ m = 10 \/ m = 11 \/ m = 12) by lia.
  repeat (destruct Hc as [->|Hc]; [cbn; lia|]). subst. cbn. lia.
Qed.

(** In the monthly arm the [except] branches are never the ones that
    produce the result: the day of the local run is the clamped anchor day,
    and its time of day is the target's. *)
Lemma monthly_candidate_day bl tl dom r :
  valid tl = true ->
  monthly_candidate bl tl dom = Some r ->
  day r = Z.max 1 (Z.min dom 28) /\ time_of_day r = time_of_day tl
  /\ hour r = hour tl /\ minute r = minute tl /\ second r = second tl
  /\ microsecond r = microsecond tl.
Proof.
  intros Htl. unfold monthly_candidate. cbv zeta.
  set (d := Z.max 1 (Z.min dom 28)).
  assert (Hd : 1 <= d <= 28) by (unfold d; lia).
  destruct (valid_parts tl Htl) as [Hdate Htime].
  apply valid_date_spec in Hdate. destruct Hdate as (Hty & Htm & Htd).
  pose proof (days_in_month_ge_28 (year tl) (month tl) Htm) as Hdim.
  destruct (make_some (year tl) (month tl) d (hour tl) (minute tl) (second tl)
              (microsecond tl)) as [c Ec]; [apply valid_date_spec; lia|exact Htime|].
  unfold replace_date at 1. rewrite Ec. cbn [try_except bind].
  apply make_spec in Ec. destruct Ec as [Hcv Hc].
  destruct (leb c bl).
  - destruct (if month tl =? 12 then (year tl + 1, 1) else (year tl, month tl + 1))
      as [y' m'] eqn:Enx.
    assert (Hm' : 1 <= m' <= 12).
    { destruct (Z.eqb_spec (month tl) 12); inversion Enx; lia. }
    pose proof (days_in_month_ge_28 y' m' Hm') as Hdim'.
    destruct (valid_parts c Hcv) as [_ Hct].
    unfold replace_date, make. rewrite Hct, !andb_true_r.
    destruct (valid_date y' m' d) eqn:Ev; cbn [try_except].
    + intros H. injection H as <-. rewrite Hc. cbn. repeat split; reflexivity.
    + assert (Ev1 : valid_date y' m' 1 = false).
      { destruct (valid_date y' m' 1) eqn:E1; [|reflexivity].
        apply valid_date_spec in E1.
        assert (valid_date y' m' d = true) by (apply valid_date_spec; lia). congruence. }
      rewrite Ev1. discriminate.
  - intros H. injection H as <-. rewrite Hc. cbn. repeat split; reflexivity.
Qed.

Lemma mark_run_not_due rows now schedule_id user_id frequency_minutes success error
    sched rows' :
  valid now = true ->
  get_schedule rows schedule_id user_id = Some sched ->
  recurring (schedule_type_of (sched_params sched)) ->
  mark_run rows now schedule_id user_id frequency_minutes success error = Some rows' ->
  forall r, In r rows' -> sched_id r = schedule_id -> sched_user_id r = user_id ->
            is_due now r = false.
Proof.
  intros Hnow Hget Hty. unfold mark_run. rewrite Hget.
  destruct (_compute_next_run _ _ now) as [t|] eqn:Et; [|discriminate]. cbn [bind].
  intros H. injection H as <-. intros r Hin Hid Huser.
  apply in_map_iff in Hin. destruct Hin as (r0 & Hr & _).
  destruct (compute_next_run_after _ _ _ _ Hty Hnow Et) as [Hv Hlt].
  destruct (Nat.eqb (sched_id r0) schedule_id && String.eqb (sched_user_id r0) user_id)%bool
    eqn:Ec.
  - subst r. unfold is_due, set_run. cbn [sched_enabled sched_next_run_at].
    rewrite (leb_instant t now Hv Hnow).
    destruct (Z.leb_spec (instant t) (instant now)); [lia|]. apply andb_false_r.
  - subst r0. rewrite Hid, Huser, Nat.eqb_refl, String.eqb_refl in Ec. discriminate.
Qed.

(** C10 as written fails for a time-zone offset that carries the local
    time out of the calendar: the schedule routes accept any integer, and
    with an offset of six thousand million minutes [base + offset] raises
    [OverflowError].  [_compute_next_run] then returns no time, [mark_run]
    raises before its [UPDATE], in the [except] arm of [_run_schedule] too,
    and the row keeps its old next_run_at: the sort has been dispatched and
    the schedule is still due at the time of the run. *)
Lemma next_run_raises_on_far_offset :
  recurring (schedule_type_of (Some far_offset_params))
  /\ valid (on_the_hour 2024 1 1 23) = true
  /\ _compute_next_run (Some far_offset_params) (Some 1440) (on_the_hour 2024 1 1 23) = None
  /\ mark_run [far_offset_schedule] (on_the_hour 2024 1 1 23) 1 "u1" 1440 true None = None
  /\ SchedulerService._run_schedule [far_offset_schedule] [] (on_the_hour 2024 1 1 23)
       130%Z "sort_c" true 40 None far_offset_schedule
     = (None,
        SortJobService.create_job [] 130%Z "sort_c" "pl1" "u1" title asc preserve 40 0 0,
        [TaskExecutor.start_sort_job "sort_c" "pl1" "u1" title asc preserve
           (Some "sess1"%string) (Some (SchedulerSort.scheduled_meta 1))])
  /\ is_due (on_the_hour 2024 1 1 23) far_offset_schedule = true.
Proof.
  split; [left; reflexivity|]. repeat split; vm_compute; reflexivity.
Qed.

(** C10, as the code has it.  For a schedule of type daily, weekly or
    monthly, whatever its hour, weekday, day of month and time-zone offset,
    a time returned by [_compute_next_run] is strictly after the base time,
    and a row that [mark_run] rewrites with the recomputed time is not due
    at the time of the run.  When the base time is in the years 2 to 9990,
    the hour is an hour of the day and the offset is at most a day either
    way, the function does return such a time and [mark_run] does rewrite
    the row; outside these ranges the date arithmetic can raise. *)
Theorem next_run_strictly_after_base
    (params : option ScheduleParams) (freq : option Z) (base : datetime) :
  recurring (schedule_type_of params) ->
  valid base = true ->
  (forall t, _compute_next_run params freq base = Some t ->
             valid t = true /\ ltb base t = true)
  /\ (forall rows schedule_id user_id frequency_minutes success error sched rows',
        get_schedule rows schedule_id user_id = Some sched ->
        sched_params sched = params ->
        mark_run rows base schedule_id user_id frequency_minutes success error
        = Some rows' ->
        forall r, In r rows' -> sched_id r = schedule_id -> sched_user_id r = user_id ->
                  is_due base r = false)
  /\ (2 <= year base <= 9990 -> 0 <= hour_of params <= 23 ->
      -1440 <= offset_minutes_of params <= 1440 ->
      (exists t, _compute_next_run params freq base = Some t /\ ltb base t = true)
      /\ forall rows schedule_id user_id frequency_minutes success error sched,
           get_schedule rows schedule_id user_id = Some sched ->
           sched_params sched = params ->
           exists rows',
             mark_run rows base schedule_id user_id frequency_minutes success error
             = Some rows'
             /\ forall r, In r rows' -> sched_id r = schedule_id ->
                          sched_user_id r = user_id -> is_due base r = false).
Proof.
  intros Hty Hbase.
  assert (Hafter : forall t, _compute_next_run params freq base = Some t ->
                             valid t = true /\ ltb base t = true).
  { intros t Et. destruct (compute_next_run_after _ _ _ _ Hty Hbase Et) as [Hv Hlt].
    split; [exact Hv|]. rewrite (ltb_instant base t Hbase Hv). now apply Z.ltb_lt. }
  assert (Hdue : forall rows schedule_id user_id frequency_minutes success error sched rows',
            get_schedule rows schedule_id user_id = Some sched ->
            sched_params sched = params ->
            mark_run rows base schedule_id user_id frequency_minutes success error
            = Some rows' ->
            forall r, In r rows' -> sched_id r = schedule_id -> sched_user_id r = user_id ->
                      is_due base r = false).
  { intros rows schedule_id user_id frequency_minutes success error sched rows'
           Hget Hparams Hrun.
    apply (mark_run_not_due rows base schedule_id user_id frequency_minutes success error
             sched rows' Hbase Hget); [|exact Hrun].
    now rewrite Hparams. }
  split; [exact Hafter|]. split; [exact Hdue|].
  intros Hyear Hhour Hoff. split.
  - destruct (compute_next_run_returns params freq base Hty Hbase Hyear Hhour Hoff)
      as [t Et].
    exists t. split; [exact Et|]. apply (Hafter t Et).
  - intros rows schedule_id user_id frequency_minutes success error sched Hget Hparams.
    destruct (compute_next_run_returns params (sched_frequency_minutes sched) base
                Hty Hbase Hyear Hhour Hoff) as [t Et].
    assert (Hrun : exists rows',
               mark_run rows base schedule_id user_id frequency_minutes success error
               = Some rows').
    { unfold mark_run. rewrite Hget, Hparams, Et. cbn [bind]. eauto. }
    destruct Hrun as [rows' Hrun]. exists rows'. split; [exact Hrun|].
    exact (Hdue rows schedule_id user_id frequency_minutes success error sched rows'
             Hget Hparams Hrun).
Qed.

Lemma next_run_strictly_after_base_witness :
  recurring (schedule_type_of (Some sample_params))
  /\ valid (on_the_hour 2024 1 1 23) = true
  /\ 2 <= year (on_the_hour 2024 1 1 23) <= 9990
  /\ 0 <= hour_of (Some sample_params) <= 23
  /\ -1440 <= offset_minutes_of (Some sample_params) <= 1440
  /\ (exists t, _compute_next_run (Some sample_params) (Some 1440)
                  (on_the_hour 2024 1 1 23) = Some t
                /\ ltb (on_the_hour 2024 1 1 23) t = true)
  /\ get_schedule [sample_schedule] 1 "u1" = Some sample_schedule
  /\ sched_params sample_schedule = Some sample_params
  /\ exists rows',
       mark_run [sample_schedule] (on_the_hour 2024 1 1 23) 1 "u1" 1440 true None
       = Some rows'
       /\ forall r, In r rows' -> sched_id r = 1%nat -> sched_user_id r = "u1"%string ->
                    is_due (on_the_hour 2024 1 1 23) r = false.
Proof.
  assert (Hty : recurring (schedule_type_of (Some sample_params)))
    by (left; reflexivity).
  assert (Hv : valid (on_the_hour 2024 1 1 23) = true) by reflexivity.
  assert (Hy : 2 <= year (on_the_hour 2024 1 1 23) <= 9990) by (cbn; lia).
  assert (Hh : 0 <= hour_of (Some sample_params) <= 23) by (cbn; lia).
  assert (Ho : -1440 <= offset_minutes_of (Some sample_params) <= 1440) by (cbn; lia).
  assert (G1 : get_schedule [sample_schedule] 1 "u1" = Some sample_schedule)
    by reflexivity.
  assert (G2 : sched_params sample_schedule = Some sample_params) by reflexivity.
  repeat (split; [assumption|]). split.
  - exact (proj1 (proj2 (proj2 (next_run_strictly_after_base (Some sample_params)
                                  (Some 1440) (on_the_hour 2024 1 1 23) Hty Hv))
                    Hy Hh Ho)).
  - split; [exact G1|]. split; [exact G2|].
    exact (proj2 (proj2 (proj2 (next_run_strictly_after_base (Some sample_params)
                                  (Some 1440) (on_the_hour 2024 1 1 23) Hty Hv))
                    Hy Hh Ho)
             [sample_schedule] 1%nat "u1"%string 1440 true None sample_schedule G1 G2).
Defined.

(** C6: the three vectors of the recurrence computation.  (1) From
    2024-01-01T23:00:00Z, daily at hour 9 with offset 0, the next run is
    2024-01-02T09:00:00Z.  (2) A weekly schedule that targets the weekday of
    the local base time, at an hour that has passed, runs exactly seven days
    after that hour of the local base day.  (3) A monthly schedule with a day
    of month of 28 or more (31 in particular) runs on day 28, local time:
    the anchor day is clamped to 28 in every month. *)
Theorem compute_next_run_vectors :
  _compute_next_run (Some sample_params) None (on_the_hour 2024 1 1 23)
  = Some (on_the_hour 2024 1 2 9)
  /\ (forall params freq base bl tl,
        schedule_type_of params = "weekly"%string ->
        valid base = true -> 2 <= year base <= 9990 ->
        -1440 <= offset_minutes_of params <= 1440 ->
        add base (offset_minutes_of params * 60000000) = Some bl ->
        replace_time bl (hour_of params) 0 0 0 = Some tl ->
        dow_map (day_of_week_of params) = weekday bl ->
        leb tl bl = true ->
        exists t, _compute_next_run params freq base = Some t
                  /\ instant t
                     = instant tl + 7 * US_PER_DAY - offset_minutes_of params * 60000000)
  /\ (forall params freq base t,
        schedule_type_of params = "monthly"%string ->
        28 <= day_of_month_of params ->
        valid base = true ->
        _compute_next_run params freq base = Some t ->
        exists r, valid r = true
                  /\ day r = 28 /\ hour r = hour_of params
                  /\ minute r = 0 /\ second r = 0 /\ microsecond r = 0
                  /\ instant t = instant r - offset_minutes_of params * 60000000
                  /\ (offset_minutes_of params = 0 -> t = r)).
Proof.
  split; [reflexivity|]. split.
  - intros params freq base bl tl Hty Hbase Hyear Hoff Ebl Etl Hdow Hpast.
    assert (Hrec : recurring (schedule_type_of params)) by (right; left; exact Hty).
    pose proof Etl as Etl'. unfold replace_time in Etl'. apply make_spec in Etl'.
    destruct Etl' as [Htl Htl'].
    assert (Hhour : 0 <= hour_of params <= 23).
    { apply valid_spec in Htl. rewrite Htl' in Htl. cbn in Htl. lia. }
    destruct (compute_next_run_returns params freq base Hrec Hbase Hyear Hhour Hoff)
      as [t Et].
    exists t. split; [exact Et|].
    unfold _compute_next_run in Et.
    rewrite (timedelta_minutes_some _ Hoff) in Et. cbn [bind] in Et.
    rewrite Ebl in Et. cbn [bind] in Et. rewrite Etl in Et. cbn [bind] in Et.
    unfold next_local in Et. cbv zeta in Et. rewrite Hty in Et.
    cbn [String.eqb Ascii.eqb Bool.eqb] in Et.
    assert (Hwd : weekday tl = weekday bl).
    { unfold weekday. apply replace_time_spec in Etl.
      destruct Etl as (_ & _ & _ & _ & ->). reflexivity. }
    rewrite Hdow, Hwd, Z.sub_diag, Hpast in Et. cbn [Z.modulo Z.eqb andb] in Et.
    change (0 mod 7 =? 0) with true in Et. cbn [andb] in Et.
    destruct (timedelta_days 7) as [td|] eqn:Etd; [|discriminate]. cbn [bind] in Et.
    apply timedelta_days_spec in Etd. subst td.
    destruct (add tl (7 * US_PER_DAY)) as [r|] eqn:Er; [|discriminate]. cbn [bind] in Et.
    apply add_spec in Er. apply sub_spec in Et. destruct Er as [_ Hr], Et as [_ Ht]. lia.
  - intros params freq base t Hty Hdom Hbase Et.
    unfold _compute_next_run in Et.
    destruct (timedelta_minutes (offset_minutes_of params)) as [offset|] eqn:Eoff;
      [|discriminate].
    cbn [bind] in Et. apply timedelta_minutes_spec in Eoff. subst offset.
    destruct (add base _) as [bl|] eqn:Ebl; [|discriminate]. cbn [bind] in Et.
    destruct (replace_time bl (hour_of params) 0 0 0) as [tl|] eqn:Etl; [|discriminate].
    cbn [bind] in Et.
    destruct (next_local params freq bl tl) as [r|] eqn:Er; [|discriminate].
    cbn [bind] in Et.
    apply add_spec in Ebl. destruct Ebl as [Hbl _].
    pose proof Etl as Etl'. apply replace_time_spec in Etl'.
    destruct Etl' as (Htl & Hy & Hm & _ & Hord).
    unfold replace_time in Etl. apply make_spec in Etl. destruct Etl as [_ Htl'].
    assert (Hrec : recurring (schedule_type_of params)) by (right; right; exact Hty).
    destruct (next_local_after params freq bl tl r Hrec Hbl Htl Hy Hm Hord Er) as [Hr _].
    unfold next_local in Er. cbv zeta in Er. rewrite Hty in Er.
    cbn [String.eqb Ascii.eqb Bool.eqb] in Er.
    apply (monthly_candidate_day bl tl _ r Htl) in Er.
    destruct Er as (Hday & _ & Hh & Hmi & Hs & Hus).
    rewrite Htl' in Hh, Hmi, Hs, Hus. cbn in Hh, Hmi, Hs, Hus.
    exists r. split; [exact Hr|]. split; [lia|]. repeat (split; [assumption|]).
    pose proof Et as Et'. apply sub_spec in Et'. destruct Et' as [Hvt Hit].
    split; [exact Hit|].
    intros H0. apply instant_inj; [exact Hvt|exact Hr|]. rewrite Hit, H0. lia.
Qed.

Lemma compute_next_run_vectors_witness :
  (schedule_type_of (Some weekly_params) = "weekly"%string
   /\ valid (on_the_hour 2024 1 1 23) = true
   /\ 2 <= year (on_the_hour 2024 1 1 23) <= 9990
   /\ -1440 <= offset_minutes_of (Some weekly_params) <= 1440
   /\ add (on_the_hour 2024 1 1 23) (offset_minutes_of (Some weekly_params) * 60000000)
      = Some (on_the_hour 2024 1 1 23)
   /\ replace_time (on_the_hour 2024 1 1 23) (hour_of (Some weekly_params)) 0 0 0
      = Some (on_the_hour 2024 1 1 9)
   /\ dow_map (day_of_week_of (Some weekly_params)) = weekday (on_the_hour 2024 1 1 23)
   /\ leb (on_the_hour 2024 1 1 9) (on_the_hour 2024 1 1 23) = true
   /\ exists t, _compute_next_run (Some weekly_params) None (on_the_hour 2024 1 1 23)
                = Some t
                /\ instant t
                   = instant (on_the_hour 2024 1 1 9) + 7 * US_PER_DAY
                     - offset_minutes_of (Some weekly_params) * 60000000)
  /\ (schedule_type_of (Some monthly_params) = "monthly"%string
      /\ 28 <= day_of_month_of (Some monthly_params)
      /\ valid (on_the_hour 2024 4 10 12) = true
      /\ _compute_next_run (Some monthly_params) None (on_the_hour 2024 4 10 12)
         = Some (on_the_hour 2024 4 28 9)
      /\ exists r, valid r = true
                   /\ day r = 28 /\ hour r = hour_of (Some monthly_params)
                   /\ minute r = 0 /\ second r = 0 /\ microsecond r = 0
                   /\ instant (on_the_hour 2024 4 28 9)
                      = instant r - offset_minutes_of (Some monthly_params) * 60000000
                   /\ (offset_minutes_of (Some monthly_params) = 0
                       -> on_the_hour 2024 4 28 9 = r)).
Proof.
  assert (W1 : schedule_type_of (Some weekly_params) = "weekly"%string) by reflexivity.
  assert (W2 : valid (on_the_hour 2024 1 1 23) = true) by reflexivity.
  assert (W3 : 2 <= year (on_the_hour 2024 1 1 23) <= 9990)
    by (cbn; lia).
  assert (W4 : -1440 <= offset_minutes_of (Some weekly_params) <= 1440)
    by (cbn; lia).
  assert (W5 : add (on_the_hour 2024 1 1 23)
                 (offset_minutes_of (Some weekly_params) * 60000000)
               = Some (on_the_hour 2024 1 1 23)) by reflexivity.
  assert (W6 : replace_time (on_the_hour 2024 1 1 23) (hour_of (Some weekly_params)) 0 0 0
               = Some (on_the_hour 2024 1 1 9)) by reflexivity.
  assert (W7 : dow_map (day_of_week_of (Some weekly_params))
               = weekday (on_the_hour 2024 1 1 23)) by reflexivity.
  assert (W8 : leb (on_the_hour 2024 1 1 9) (on_the_hour 2024 1 1 23) = true)
    by reflexivity.
  assert (M1 : schedule_type_of (Some monthly_params) = "monthly"%string) by reflexivity.
  assert (M2 : 28 <= day_of_month_of (Some monthly_params)) by (cbn; lia).
  assert (M3 : valid (on_the_hour 2024 4 10 12) = true) by reflexivity.
  assert (M4 : _compute_next_run (Some monthly_params) None (on_the_hour 2024 4 10 12)
               = Some (on_the_hour 2024 4 28 9)) by reflexivity.
  split.
  - repeat (split; [assumption|]).
    exact (proj1 (proj2 compute_next_run_vectors) (Some weekly_params) None
             (on_the_hour 2024 1 1 23) (on_the_hour 2024 1 1 23) (on_the_hour 2024 1 1 9)
             W1 W2 W3 W4 W5 W6 W7 W8).
  - repeat (split; [assumption|]).
    exact (proj2 (proj2 compute_next_run_vectors) (Some monthly_params) None
             (on_the_hour 2024 4 10 12) (on_the_hour 2024 4 28 9) M1 M2 M3 M4).
Defined.

End RecurrenceFacts.

(** ** Batches of the fast strategy and of the undo replay *)

Module BatchFacts.
Import PyList SortService.

Lemma range_step_from_concat {A} (l : list A) step :
  0 < step ->
  forall fuel i,
    length l <= fuel + i ->
    concat (map (fun j => slice j (j + step) l) (range_step_from fuel i (length l) step))
    = skipn i l.
Proof.
  intros Hstep. induction fuel as [|fuel IH]; intros i Hfuel.
  - cbn. symmetry. apply skipn_all2. lia.
  - cbn [range_step_from]. destruct (Nat.ltb_spec i (length l)) as [Hlt|Hge].
    + cbn [map concat]. rewrite IH by lia.
      unfold slice. replace (i + step - i) with step by lia.
      rewrite Nat.add_comm, <- skipn_skipn. apply firstn_skipn.
    + cbn. symmetry. apply skipn_all2. lia.
Qed.

Lemma range_step_from_length n step :
  0 < step ->
  forall fuel i, n <= fuel + i ->
    length (range_step_from fuel i n step) = (n - i + step - 1) / step.
Proof.
  intros Hstep. induction fuel as [|fuel IH]; intros i Hfuel.
  - cbn. symmetry. apply Nat.div_small. lia.
  - cbn [range_step_from]. destruct (Nat.ltb_spec i n) as [Hlt|Hge].
    + cbn [length]. rewrite IH by lia.
      destruct (Nat.le_gt_cases (i + step) n) as [Hle|Hgt].
      * replace (n - i + step - 1) with ((n - (i + step) + step - 1) + 1 * step) by lia.
        rewrite Nat.div_add by lia. lia.
      * replace (n - (i + step) + step - 1) with (step - 1) by lia.
        rewrite Nat.div_small by lia.
        apply Nat.div_unique with (r := n - i - 1); lia.
    + cbn. symmetry. apply Nat.div_small. lia.
Qed.

(** The batches of a list, put end to end, are the list. *)
Lemma batches_concat batch_size (l : list string) :
  0 < batch_size -> concat (batches batch_size l) = l.
Proof.
  intros H. unfold batches, range_step.
  rewrite (range_step_from_concat l batch_size H) by lia. reflexivity.
Qed.

Lemma range_step_from_bound n step fuel i j :
  In j (range_step_from fuel i n step) -> j < n.
Proof.
  revert i. induction fuel as [|fuel IH]; intros i; cbn [range_step_from].
  - intros [].
  - destruct (Nat.ltb_spec i n).
    + intros [<-|Hin]; [assumption|]. now apply IH in Hin.
    + intros [].
Qed.

(** Every batch holds at least one and at most [batch_size] items. *)
Lemma batches_size batch_size (l : list string) b :
  0 < batch_size -> In b (batches batch_size l) -> 0 < length b <= batch_size.
Proof.
  intros Hs Hin. unfold batches in Hin. apply in_map_iff in Hin.
  destruct Hin as (j & <- & Hj). apply range_step_from_bound in Hj.
  unfold slice. rewrite length_firstn, length_skipn. lia.
Qed.

End BatchFacts.

(** ** The preserve strategy under cancellation *)

Module PreserveExtras.
Import PyList SortService PreserveFacts.

(** X1.  Whatever the cancellation pattern, and with or without a progress
    callback, [list.index] never raises in the preserve strategy and the
    playlist after its calls holds the same tracks as before.  When the
    run is cancelled at poll [k], the first [k] positions already hold the
    first [k] tracks of the target order.  The run raises only with a
    callback, right after the move of a track whose name is [null]; the
    positions up to that track then hold the tracks of the target order.
    Without a callback, or on tracks that all have a name, it does not
    raise. *)
Theorem preserve_cancelled_run_keeps_sorted_prefix
    (tracks : list Track) (sort_by : SortField) (direction : Direction)
    (progress_callback : bool) (should_cancel : nat -> bool) :
  let run :=
    sort_playlist_preserve_dates tracks sort_by direction progress_callback should_cancel in
  let remote := Remote.replay_moves tracks (fst run) in
  let target := target_order tracks sort_by direction in
  snd run <> Raised
  /\ Permutation tracks remote
  /\ (snd run = Cancelled ->
      exists k, k < length tracks /\ should_cancel k = true
                /\ (forall q, q < k -> should_cancel q = false)
                /\ firstn k remote = firstn k target)
  /\ (snd run = RaisedTypeError ->
      progress_callback = true
      /\ exists i t, nth_error target i = Some t /\ track_name t = None
                     /\ (forall q, q <= i -> should_cancel q = false)
                     /\ firstn (S i) remote = firstn (S i) target)
  /\ (progress_callback = false \/ (forall t, In t tracks -> track_name t <> None) ->
      snd run <> RaisedTypeError).
Proof.
  cbv zeta.
  destruct (preserve_run_any tracks sort_by direction progress_callback should_cancel)
    as (calls & out & k & Hrun & Hp & Hf & _ & _ & Ho).
  rewrite Hrun. cbn [fst snd]. split; [|split; [exact Hp|split; [|split]]].
  - destruct Ho as [(-> & _)|[(-> & _)|[(-> & _)|(-> & _)]]]; discriminate.
  - intros ->.
    destruct Ho as [(H & _)|[(H & _)|[(_ & Hk & Hs & Hq)|(H & _)]]]; try discriminate.
    exists k. repeat split; assumption.
  - intros ->.
    destruct Ho as [(H & _)|[(H & _)|[(H & _)|(_ & Hcb & _ & Hq & i & t & -> & Hi & Hn)]]];
      try discriminate.
    split; [exact Hcb|]. exists i, t. repeat split; try assumption.
    intros q Hle. apply Hq. lia.
  - intros Hnames ->.
    destruct Ho as [(H & _)|[(H & _)|[(H & _)|(_ & Hcb & _ & _ & i & t & _ & Hi & Hn)]]];
      try discriminate.
    destruct Hnames as [Hno|Hall]; [congruence|].
    apply (Hall t); [|exact Hn].
    eapply Permutation_in; [symmetry; apply target_order_Permutation|].
    eapply nth_error_In; exact Hi.
Qed.

(** X2.  Every reorder call of the preserve strategy moves a single track
    towards the front ([insert_before < range_start < len(tracks)]), so the
    [target_pos + 1] arm of the call is never the one taken; and a run
    issues at most [len(tracks) - 1] calls. *)
Theorem preserve_calls_move_towards_front
    (tracks : list Track) (sort_by : SortField) (direction : Direction)
    (progress_callback : bool) (should_cancel : nat -> bool) :
  let calls :=
    fst (sort_playlist_preserve_dates tracks sort_by direction progress_callback
           should_cancel) in
  length calls <= length tracks - 1
  /\ Forall (fun m => range_length m = 1
                      /\ insert_before m < range_start m
                      /\ range_start m < length tracks) calls.
Proof.
  cbv zeta.
  destruct (preserve_run_any tracks sort_by direction progress_callback should_cancel)
    as (calls & out & k & Hrun & _ & _ & Hn & Hall & _).
  rewrite Hrun. cbn [fst]. split; assumption.
Qed.

End PreserveExtras.

(** ** Replaying recorded orders *)

Module ReplayFacts.
Import PyList SortService SortFacts PreserveFacts TaskExecutor PlaylistRoutes BatchFacts.

(** A run of [playlist_add_items] calls without a position appends the
    batches in order; each call is one mutation. *)
Lemma add_batches_fold {B} (g : B -> list string) bs : forall sp,
  let sp' := fold_left (fun acc b => SpotifyClient.playlist_add_items acc (g b) None) bs sp in
  sp_items sp' = sp_items sp ++ SpotifyClient.resolve sp (concat (map g bs))
  /\ sp_version sp' = length bs + sp_version sp
  /\ sp_token sp' = sp_token sp
  /\ sp_catalog sp' = sp_catalog sp.
Proof.
  cbv zeta. induction bs as [|b bs IH]; intros sp.
  - cbn. now rewrite app_nil_r.
  - cbn [fold_left map concat length].
    destruct (IH (SpotifyClient.playlist_add_items sp (g b) None)) as (H1 & H2 & H3 & H4).
    rewrite H1, H2, H3, H4. unfold SpotifyClient.resolve. cbn.
    rewrite map_app, <- app_assoc.
    repeat split; auto; lia.
Qed.

Lemma reorder_calls_fold calls : forall sp,
  let sp' := fold_left SpotifyClient.playlist_reorder_items calls sp in
  sp_items sp' = Remote.replay_moves (sp_items sp) calls
  /\ sp_version sp' = length calls + sp_version sp
  /\ sp_token sp' = sp_token sp
  /\ sp_catalog sp' = sp_catalog sp.
Proof.
  cbv zeta. induction calls as [|m calls IH]; intros sp.
  - cbn. auto.
  - cbn [fold_left length].
    destruct (IH (SpotifyClient.playlist_reorder_items sp m)) as (H1 & H2 & H3 & H4).
    rewrite H1, H2, H3, H4. cbn. repeat split; auto; lia.
Qed.

(** The replay of a recorded order leaves the playlist holding exactly the
    recorded uris, in order, whatever their number. *)
Lemma restore_order_spec sp order :
  sp_items (restore_order sp order) = SpotifyClient.resolve sp order
  /\ sp_version (restore_order sp order) = S ((length order - 100 + 99) / 100 + sp_version sp)
  /\ sp_token (restore_order sp order) = sp_token sp
  /\ sp_catalog (restore_order sp order) = sp_catalog sp.
Proof.
  unfold restore_order.
  destruct (add_batches_fold (fun i => slice i (i + 100) (skipn 100 order))
              (range_step (length (skipn 100 order)) 100)
              (SpotifyClient.playlist_replace_items sp (slice 0 100 order)))
    as (H1 & H2 & H3 & H4).
  rewrite H1, H2, H3, H4. cbn [SpotifyClient.playlist_replace_items SpotifyClient.mutate
    sp_items sp_version sp_token sp_catalog Remote.playlist_replace_items].
  unfold range_step.
  rewrite (range_step_from_concat (skipn 100 order) 100) by lia.
  rewrite (range_step_from_length (length (skipn 100 order)) 100) by lia.
  unfold Remote.playlist_replace_items, SpotifyClient.resolve, slice.
  cbn [sp_catalog].
  change (skipn 0 (skipn 100 order)) with (skipn 100 order).
  change (skipn 0 order) with order.
  rewrite <- map_app, !Nat.sub_0_r, firstn_skipn, length_skipn.
  repeat split; auto.
  replace (length order - 100 + 100 - 1) with (length order - 100 + 99) by lia. lia.
Qed.


Lemma truthy_not_none (x : option string) : truthy x = true -> x <> None.
Proof. now destruct x. Qed.

Lemma uris_strict_spec tracks :
  (forall t, In t tracks -> track_uri t <> None) ->
  exists us, uris_strict tracks = Some us /\ map Some us = map track_uri tracks.
Proof.
  induction tracks as [|t ts IH]; intros H.
  - exists []. split; reflexivity.
  - destruct IH as (us & E & Hm); [intros t' Ht'; apply H; now right|].
    pose proof (H t (or_introl eq_refl)) as Ht.
    cbn [uris_strict]. rewrite E.
    destruct (track_uri t) as [u|] eqn:Eu; [|contradiction].
    exists (u :: us). split; [reflexivity|]. cbn [map]. now rewrite Eu, Hm.
Qed.

Lemma original_order_of_spec tracks :
  (forall t, In t tracks -> truthy (track_uri t) = true) ->
  map Some (original_order_of tracks) = map track_uri tracks.
Proof.
  induction tracks as [|t ts IH]; intros H; [reflexivity|].
  pose proof (H t (or_introl eq_refl)) as Ht.
  cbn [original_order_of map].
  destruct (track_uri t) as [[|c u]|]; try discriminate.
  cbn [map]. f_equal. apply IH. intros t' Ht'. apply H. now right.
Qed.

(** The fast strategy on tracks that all have a uri: nothing is sent for an
    empty playlist; otherwise the playlist becomes the sorted uris, in
    [ceil(n / 100)] calls. *)
Lemma execute_sort_fast sp tracks task ev first_poll :
  task_method task = fast ->
  (forall t, In t tracks -> track_uri t <> None) ->
  exists sp' us,
    execute_sort sp tracks task ev first_poll = (sp', None)
    /\ map Some us
       = map track_uri (target_order tracks (task_sort_by task) (task_direction task))
    /\ (tracks = [] -> sp' = sp)
    /\ (tracks <> [] ->
        sp_items sp' = SpotifyClient.resolve sp us
        /\ sp_version sp' = (length tracks + 99) / 100 + sp_version sp)
    /\ sp_token sp' = sp_token sp
    /\ sp_catalog sp' = sp_catalog sp.
Proof.
  intros Hm Huri. unfold execute_sort, sort_playlist_fast. rewrite Hm.
  cbn [get_sort_key_function].
  pose proof (target_order_Permutation tracks (task_sort_by task) (task_direction task))
    as Hperm.
  unfold target_order in *. cbn [get_sort_key_function] in *.
  set (sorted_tracks := sorted (key_func (task_sort_by task)) tracks
                          (reverse_flag (task_direction task))) in *.
  destruct (uris_strict_spec sorted_tracks) as (us & E & Hus).
  { intros t Ht. apply Huri. eapply Permutation_in; [symmetry; exact Hperm|exact Ht]. }
  rewrite E.
  assert (Hlen : length us = length tracks).
  { rewrite (Permutation_length Hperm).
    rewrite <- (length_map Some us), Hus. apply length_map. }
  destruct (batches 100 us) as [|first_batch others] eqn:Eb.
  - exists sp, us. split; [reflexivity|]. split; [exact Hus|].
    assert (Hnil : us = []).
    { rewrite <- (batches_concat 100 us) by lia. now rewrite Eb. }
    subst us. destruct tracks; [|discriminate]. repeat split; auto; contradiction.
  - destruct (add_batches_fold (fun b => b) others
                (SpotifyClient.playlist_replace_items sp first_batch))
      as (H1 & H2 & H3 & H4).
    eexists _, us. split; [reflexivity|]. split; [exact Hus|].
    rewrite H1, H2, H3, H4. cbn [SpotifyClient.playlist_replace_items SpotifyClient.mutate
      sp_items sp_version sp_token sp_catalog Remote.playlist_replace_items].
    split.
    { intros ->. destruct us; [|discriminate]. discriminate Eb. }
    split; [|split; reflexivity]. intros _. split.
    + unfold Remote.playlist_replace_items, SpotifyClient.resolve. cbn [sp_catalog].
      rewrite map_id, <- map_app.
      change (first_batch ++ concat others) with (concat (first_batch :: others)).
      rewrite <- Eb, batches_concat by lia. reflexivity.
    + assert (Hn : S (length others) = (length us + 99) / 100).
      { change (S (length others)) with (length (first_batch :: others)).
        rewrite <- Eb. unfold batches, range_step. rewrite length_map.
        rewrite (range_step_from_length (length us) 100) by lia.
        f_equal. lia. }
      rewrite <- Hlen, <- Hn. lia.
Qed.

End ReplayFacts.

(** ** Sort followed by undo *)

Module SortUndoFacts.
Import PyList SortService SortFacts PreserveFacts TaskExecutor PlaylistRoutes BatchFacts
       ReplayFacts.

Lemma moves_zero_ids l1 : forall l2,
  length l1 = length l2 -> calculate_moves_needed l1 l2 = 0 ->
  map track_id l1 = map track_id l2.
Proof.
  induction l1 as [|a l1 IH]; intros [|b l2] Hl H; try discriminate; [reflexivity|].
  cbn [calculate_moves_needed] in H. cbn [map].
  destruct (option_string_eqb (track_id a) (track_id b)) eqn:E; [|discriminate].
  apply UndoFacts.option_string_eqb_eq in E. rewrite E. f_equal.
  apply IH; [now inversion Hl|exact H].
Qed.

Lemma same_ids_same_uris (tracks l1 : list Track) : forall l2,
  (forall t1 t2, In t1 tracks -> In t2 tracks ->
                 track_id t1 = track_id t2 -> track_uri t1 = track_uri t2) ->
  (forall t, In t l1 -> In t tracks) -> (forall t, In t l2 -> In t tracks) ->
  map track_id l1 = map track_id l2 -> map track_uri l1 = map track_uri l2.
Proof.
  induction l1 as [|a l1 IH]; intros [|b l2] Hfun H1 H2 H; try discriminate;
    [reflexivity|].
  cbn [map] in *. inversion H as [[Hab Hrest]]. f_equal.
  - apply Hfun; auto. + apply H1. now left. + apply H2. now left.
  - apply IH; auto. + intros t Ht. apply H1. now right. + intros t Ht. apply H2. now right.
Qed.

Lemma is_set_never_set poll : is_set never_set poll = false.
Proof. reflexivity. Qed.

Lemma reorder_items_map {A B} (g : A -> B) (items : list A) a b c :
  Remote.playlist_reorder_items (map g items) a b c
  = map g (Remote.playlist_reorder_items items a b c).
Proof.
  unfold Remote.playlist_reorder_items. cbv zeta.
  repeat (progress (rewrite ?firstn_map, ?skipn_map, <- ?map_app)).
  reflexivity.
Qed.

Lemma replay_moves_map {A B} (g : A -> B) calls : forall items : list A,
  Remote.replay_moves (map g items) calls = map g (Remote.replay_moves items calls).
Proof.
  unfold Remote.replay_moves. induction calls as [|m calls IH]; intros items.
  - reflexivity.
  - cbn [fold_left]. unfold Remote.apply_move at 2 4.
    rewrite reorder_items_map. apply IH.
Qed.

Lemma fetched_tracks_map_Some tracks : fetched_tracks (map Some tracks) = tracks.
Proof. induction tracks as [|t ts IH]; [reflexivity|]. cbn. now rewrite IH. Qed.

(** A playlist without items whose track is [null] is what the worker
    fetches from it. *)
Lemma no_null_items (items : list PlaylistItem) :
  ~ In None items -> items = map Some (fetched_tracks items).
Proof.
  induction items as [|[t|] items IH]; intros H.
  - reflexivity.
  - cbn. f_equal. apply IH. intros Hin. apply H. now right.
  - exfalso. apply H. now left.
Qed.

(** A sort that is not cancelled, on a playlist whose items are the tracks
    fetched, all with a uri and, for the preserve strategy, all with a
    name, does not fail, and leaves the playlist's uris in the target
    order. *)
Lemma execute_sort_uris sp tracks task first_poll :
  sp_items sp = map Some tracks ->
  (forall t, In t tracks -> truthy (track_uri t) = true) ->
  task_method task = fast \/ (forall t, In t tracks -> track_name t <> None) ->
  (forall u, track_uri (sp_catalog sp u) = Some u) ->
  exists sp',
    execute_sort sp tracks task never_set first_poll = (sp', None)
    /\ SpotifyClient.uris sp'
       = map track_uri (target_order tracks (task_sort_by task) (task_direction task))
    /\ sp_token sp' = sp_token sp
    /\ sp_catalog sp' = sp_catalog sp.
Proof.
  intros Hitems Huri Hnames Hcat. destruct (task_method task) eqn:Em.
  - destruct (execute_sort_fast sp tracks task never_set first_poll Em
                (fun t Ht => truthy_not_none _ (Huri t Ht)))
      as (sp' & us & E & Hus & Hnil & Hcons & Ht & Hc).
    exists sp'. split; [exact E|]. split; [|split; assumption].
    unfold SpotifyClient.uris. destruct tracks as [|t ts] eqn:Ei.
    + rewrite (Hnil eq_refl), Hitems.
      unfold target_order. cbn. now destruct (reverse_flag _).
    + destruct Hcons as [Hres _]; [discriminate|].
      rewrite Hres. unfold SpotifyClient.resolve. rewrite map_map. cbn [item_uri].
      rewrite <- Hus. apply map_ext. intros u. apply Hcat.
  - destruct Hnames as [Hf|Hnames]; [discriminate|].
    unfold execute_sort. rewrite Em.
    destruct (sort_playlist_preserve_dates tracks (task_sort_by task)
                (task_direction task) true (fun p => is_set never_set (first_poll + p)))
      as [calls out] eqn:Erun.
    destruct (preserve_run_complete _ _ _ _ _ _ _ (fun p => is_set_never_set _)
                (or_intror Hnames) Erun) as (Hrep & Hout).
    destruct (reorder_calls_fold calls sp) as (H1 & _ & H3 & H4).
    exists (fold_left SpotifyClient.playlist_reorder_items calls sp).
    split; [destruct Hout as [-> | ->]; reflexivity|].
    split; [|split; assumption].
    unfold SpotifyClient.uris.
    rewrite H1, Hitems, replay_moves_map, Hrep, map_map. reflexivity.
Qed.

Lemma get_latest_operation_none ops now playlist_id user_id :
  (forall o, In o ops ->
     (String.eqb (op_playlist_id o) playlist_id && String.eqb (op_user_id o) user_id
      && negb (op_undone o) && op_changes_made o)%bool = false) ->
  filter (fun o =>
            String.eqb (op_playlist_id o) playlist_id
            && String.eqb (op_user_id o) user_id
            && negb (op_undone o)
            && (now <? op_expires_at o)%Z
            && op_changes_made o)%bool ops = [].
Proof.
  intros H. induction ops as [|o ops IH]; [reflexivity|].
  cbn [filter]. pose proof (H o (or_introl eq_refl)) as Ho.
  rewrite IH by (intros o' Ho'; apply H; now right).
  destruct (String.eqb (op_playlist_id o) playlist_id), (String.eqb (op_user_id o) user_id),
    (op_undone o), (op_changes_made o), (now <? op_expires_at o)%Z;
    cbn in *; try reflexivity; discriminate.
Qed.


(** What a run that is neither refused a client nor cancelled leaves
    behind: the playlist as the strategy left it, and one new log entry. *)
Lemma run_sort_job_never_set w now task sp' :
  w_client_ok w = true ->
  execute_sort (w_sp w) (fetched_tracks (sp_items (w_sp w))) task never_set
    (fetch_pages (length (sp_items (w_sp w)))) = (sp', None) ->
  let tracks := fetched_tracks (sp_items (w_sp w)) in
  let tracks_to_move :=
    calculate_moves_needed tracks
      (target_order tracks (task_sort_by task) (task_direction task)) in
  w_sp (_run_sort_job w now task never_set) = sp'
  /\ w_ops (_run_sort_job w now task never_set)
     = OpStore.record_operation (OpStore.cleanup_expired (w_ops w) now) now
         (task_playlist_id task) (task_user_id task) "sort_reorder"
         (SpotifyClient.snapshot_id (w_sp w)) (SpotifyClient.snapshot_id sp')
         {| payload_removed_items := [];
            payload_original_order := original_order_of tracks;
            payload_sort_by := Some (task_sort_by task);
            payload_direction := Some (task_direction task);
            payload_method := Some (task_method task);
            payload_source := meta_source (task_meta task);
            payload_schedule_id := meta_schedule_id (task_meta task);
            payload_tracks_moved := Some tracks_to_move |}
         (0 <? tracks_to_move).
Proof.
  intros Hok E. cbv zeta. unfold _run_sort_job, target_order.
  cbn [with_jobs w_client_ok w_sp w_jobs w_ops get_sort_key_function].
  rewrite Hok. cbn [negb is_set never_set cancel_set_at]. rewrite E.
  cbn [with_jobs with_sp with_ops w_client_ok w_sp w_jobs w_ops]. split; reflexivity.
Qed.


Lemma cleanup_expired_In ops now o : In o (OpStore.cleanup_expired ops now) -> In o ops.
Proof. unfold OpStore.cleanup_expired. intros H. now apply filter_In in H. Qed.

(** X5.  Sort, then undo.  On a playlist without items whose track is
    [null], whose tracks all have a non-empty uri, with uris determined by
    ids, a catalogue that resolves each uri to an item with that uri, and a
    log that holds no other undoable operation of the playlist and user: a
    worker run that gets a client and is not cancelled, with the fast
    strategy or on tracks that all have a name, followed by an undo before
    the entry expires, leaves the uris of the playlist in their original
    order. *)
Theorem sort_then_undo_restores_uris (w : World) (now now2 : Timestamp) (task : SortTask) :
  w_client_ok w = true ->
  ~ In None (sp_items (w_sp w)) ->
  (forall t, In (Some t) (sp_items (w_sp w)) -> truthy (track_uri t) = true) ->
  (forall t1 t2, In (Some t1) (sp_items (w_sp w)) -> In (Some t2) (sp_items (w_sp w)) ->
                 track_id t1 = track_id t2 -> track_uri t1 = track_uri t2) ->
  task_method task = fast
  \/ (forall t, In (Some t) (sp_items (w_sp w)) -> track_name t <> None) ->
  (forall u, track_uri (sp_catalog (w_sp w) u) = Some u) ->
  (forall o, In o (w_ops w) ->
     (String.eqb (op_playlist_id o) (task_playlist_id task)
      && String.eqb (op_user_id o) (task_user_id task)
      && negb (op_undone o) && op_changes_made o)%bool = false) ->
  (now2 < now + OpStore.days OpStore.DEFAULT_EXPIRY_DAYS)%Z ->
  let w' := _run_sort_job w now task never_set in
  let r := undo_last_operation (w_sp w') true (w_ops w') now2
             (task_playlist_id task) (task_user_id task) in
  SpotifyClient.uris (snd (fst r)) = SpotifyClient.uris (w_sp w).
Proof.
  intros Hok Hnull Huri0 Hfun0 Hnames0 Hcat Hlog Hexp. cbv zeta.
  pose proof (no_null_items _ Hnull) as Hitems.
  set (tracks := fetched_tracks (sp_items (w_sp w))) in *.
  assert (Hin : forall t, In t tracks -> In (Some t) (sp_items (w_sp w)))
    by (intros t Ht; rewrite Hitems; now apply in_map).
  assert (Huri : forall t, In t tracks -> truthy (track_uri t) = true) by auto.
  assert (Hfun : forall t1 t2, In t1 tracks -> In t2 tracks ->
                   track_id t1 = track_id t2 -> track_uri t1 = track_uri t2) by auto.
  assert (Hnames : task_method task = fast
                   \/ (forall t, In t tracks -> track_name t <> None))
    by (destruct Hnames0 as [H|H]; [now left|right; auto]).
  destruct (execute_sort_uris (w_sp w) tracks task
              (fetch_pages (length (sp_items (w_sp w)))) Hitems Huri Hnames Hcat)
    as (sp' & E & Hu & Ht & Hc).
  destruct (run_sort_job_never_set w now task sp' Hok E) as [Hsp Hops].
  rewrite Hsp, Hops. clear Hsp Hops. fold tracks.
  assert (Huris : SpotifyClient.uris (w_sp w) = map track_uri tracks).
  { unfold SpotifyClient.uris. rewrite Hitems, map_map. reflexivity. }
  rewrite Huris.
  set (target := target_order tracks (task_sort_by task) (task_direction task)) in *.
  set (m := calculate_moves_needed tracks target).
  unfold undo_last_operation. cbn [negb].
  unfold OpStore.record_operation, OpStore.get_latest_operation.
  set (old := OpStore.cleanup_expired (w_ops w) now).
  unfold OpStore.cleanup_expired at 1 2. rewrite !filter_app.
  fold (OpStore.cleanup_expired old now2).
  rewrite (get_latest_operation_none (OpStore.cleanup_expired old now2) now2).
  2:{ intros o Ho. apply Hlog. now apply cleanup_expired_In, cleanup_expired_In in Ho. }
  apply Z.ltb_lt in Hexp.
  cbn [filter app op_expires_at op_playlist_id op_user_id op_undone op_changes_made].
  rewrite Hexp.
  cbn [filter app op_expires_at op_playlist_id op_user_id op_undone op_changes_made].
  rewrite Hexp, !String.eqb_refl. cbn [negb andb].
  destruct (0 <? m) eqn:Em.
  - cbn [OpStore.latest_created op_snapshot_after].
    unfold snapshot_conflict. rewrite IdempotenceFacts.option_string_eqb_refl.
    cbn [negb]. rewrite andb_false_r.
    unfold replay_operation. cbn [op_type op_payload payload_original_order op_id].
    cbn [String.eqb Ascii.eqb Bool.eqb].
    pose proof (original_order_of_spec tracks Huri) as Hoo.
    destruct (original_order_of tracks) as [|u0 us0] eqn:Eoo.
    + exfalso. destruct tracks as [|t ts]; [|discriminate Hoo].
      unfold m in Em. cbn in Em. discriminate.
    + cbn [fst snd]. unfold SpotifyClient.uris.
      destruct (restore_order_spec sp' (u0 :: us0)) as (Hres & _ & _ & _).
      rewrite Hres. unfold SpotifyClient.resolve. rewrite map_map, Hc. cbn [item_uri].
      rewrite <- Hoo. apply map_ext. intros u. apply Hcat.
  - cbn [OpStore.latest_created fst snd]. rewrite Hu.
    apply Nat.ltb_ge in Em. assert (Hm0 : m = 0) by lia.
    symmetry. apply (same_ids_same_uris tracks).
    + exact Hfun.
    + auto.
    + intros t Ht'. eapply Permutation_in; [symmetry; apply target_order_Permutation|exact Ht'].
    + apply moves_zero_ids; [symmetry; apply target_order_length|exact Hm0].
Qed.

End SortUndoFacts.

Module ReplayExtras.
Import PyList SortService SortFacts PreserveFacts TaskExecutor PlaylistRoutes BatchFacts
       ReplayFacts SortUndoFacts Samples.

Lemma send_batches_concat {A} (items : list A) bs :
  bs <> [] -> Remote.send_batches items bs = concat bs.
Proof.
  destruct bs as [|b bs]; [contradiction|]. intros _. cbn [Remote.send_batches concat].
  unfold Remote.playlist_replace_items. generalize b. clear b.
  induction bs as [|c bs IH]; intros b; cbn [fold_left concat].
  - now rewrite app_nil_r.
  - unfold Remote.playlist_add_items at 2. rewrite IH. now rewrite app_assoc.
Qed.

(** X3.  The fast strategy on tracks that all have a uri: the batches it
    sends are the uris of the target order cut into [ceil(n / 100)] pieces
    of 1 to 100 uris; sent as the strategy sends them (the first replaces,
    the others are appended) they leave the playlist holding exactly those
    uris.  For an empty playlist nothing is sent. *)
Theorem fast_sort_sends_target_order_in_batches
    (tracks : list Track) (sort_by : SortField) (direction : Direction) :
  (forall t, In t tracks -> track_uri t <> None) ->
  exists bs,
    sort_playlist_fast tracks sort_by direction = Some bs
    /\ map Some (concat bs) = map track_uri (target_order tracks sort_by direction)
    /\ Forall (fun b => 0 < length b <= 100) bs
    /\ length bs = (length tracks + 99) / 100
    /\ (tracks <> [] ->
        forall remote : list string, Remote.send_batches remote bs = concat bs).
Proof.
  intros Huri.
  pose proof (target_order_Permutation tracks sort_by direction) as Hperm.
  unfold sort_playlist_fast, target_order in *. cbn [get_sort_key_function] in *.
  set (sorted_tracks := sorted (key_func sort_by) tracks (reverse_flag direction)) in *.
  destruct (uris_strict_spec sorted_tracks) as (us & E & Hus).
  { intros t Ht. apply Huri. eapply Permutation_in; [symmetry; exact Hperm|exact Ht]. }
  rewrite E. exists (batches 100 us).
  assert (Hlen : length us = length tracks).
  { rewrite (Permutation_length Hperm).
    rewrite <- (length_map Some us), Hus. apply length_map. }
  split; [reflexivity|]. rewrite batches_concat by lia. split; [exact Hus|].
  split; [apply Forall_forall; intros b Hb; apply (batches_size 100 us b); [lia|exact Hb]|].
  split.
  - unfold batches, range_step. rewrite length_map.
    rewrite (range_step_from_length (length us) 100) by lia. rewrite Hlen. f_equal. lia.
  - intros Hne remote. rewrite send_batches_concat; [now rewrite batches_concat by lia|].
    intros Hb. apply Hne. apply length_zero_iff_nil. rewrite <- Hlen.
    rewrite <- (batches_concat 100 us) by lia. now rewrite Hb.
Qed.

Lemma fast_sort_sends_target_order_in_batches_witness :
  (forall t, In t sample_tracks -> track_uri t <> None)
  /\ exists bs,
       sort_playlist_fast sample_tracks title desc = Some bs
       /\ map Some (concat bs) = map track_uri (target_order sample_tracks title desc)
       /\ Forall (fun b => 0 < length b <= 100) bs
       /\ length bs = (length sample_tracks + 99) / 100
       /\ (sample_tracks <> [] ->
           forall remote : list string, Remote.send_batches remote bs = concat bs).
Proof.
  assert (H : forall t, In t sample_tracks -> track_uri t <> None).
  { intros t [<-|[<-|[<-|[<-|[]]]]]; discriminate. }
  split; [exact H|].
  exact (fast_sort_sends_target_order_in_batches sample_tracks title desc H).
Defined.

Lemma get_latest_operation_In ops now playlist_id user_id op :
  OpStore.get_latest_operation ops now playlist_id user_id = Some op -> In op ops.
Proof.
  unfold OpStore.get_latest_operation. intros H.
  apply UndoFacts.latest_created_In in H. now apply filter_In in H.
Qed.

(** X4.  Undo of a sort: when the latest undoable operation is a
    [sort_reorder] with a recorded order and no snapshot conflict, undo
    answers 200, marks that operation undone, and leaves the playlist
    holding exactly the recorded uris in the recorded order, whatever their
    number: one replace call and [ceil((n - 100) / 100)] append calls. *)
Theorem undo_sort_restores_recorded_order
    (sp : Spotify) (ops : list Operation) (now : Timestamp)
    (playlist_id user_id : string) (op : Operation) :
  OpStore.get_latest_operation (OpStore.cleanup_expired ops now) now playlist_id user_id
  = Some op ->
  op_type op = "sort_reorder"%string ->
  payload_original_order (op_payload op) <> [] ->
  snapshot_conflict (op_snapshot_after op) (SpotifyClient.snapshot_id sp) = false ->
  exists resp sp',
    undo_last_operation sp true ops now playlist_id user_id
    = (HttpOk resp, sp', OpStore.mark_undone (OpStore.cleanup_expired ops now) (op_id op))
    /\ sp_items sp' = SpotifyClient.resolve sp (payload_original_order (op_payload op))
    /\ sp_version sp'
       = S ((length (payload_original_order (op_payload op)) - 100 + 99) / 100
            + sp_version sp)
    /\ undo_restored resp = length (payload_original_order (op_payload op))
    /\ undo_operation_id resp = op_id op
    /\ undo_snapshot_id resp = SpotifyClient.snapshot_id sp'.
Proof.
  intros Hget Hty Hne Hconf. unfold undo_last_operation. cbn [negb].
  rewrite Hget, Hconf. unfold replay_operation. rewrite Hty.
  cbn [String.eqb Ascii.eqb Bool.eqb].
  destruct (payload_original_order (op_payload op)) as [|u0 us0] eqn:Eo; [contradiction|].
  destruct (restore_order_spec sp (u0 :: us0)) as (H1 & H2 & _ & _).
  eexists _, _. split; [reflexivity|]. cbn [undo_restored undo_operation_id undo_snapshot_id].
  repeat split; assumption.
Qed.

Lemma undo_sort_restores_recorded_order_witness :
  OpStore.get_latest_operation
    (OpStore.cleanup_expired [sample_op (Some "v3"%string)] 140%Z) 140%Z "pl1" "u1"
  = Some (sample_op (Some "v3"%string))
  /\ op_type (sample_op (Some "v3"%string)) = "sort_reorder"%string
  /\ payload_original_order (op_payload (sample_op (Some "v3"%string))) <> []
  /\ snapshot_conflict (op_snapshot_after (sample_op (Some "v3"%string)))
       (SpotifyClient.snapshot_id sample_sp) = false
  /\ exists resp sp',
       undo_last_operation sample_sp true [sample_op (Some "v3"%string)] 140%Z "pl1" "u1"
       = (HttpOk resp, sp',
          OpStore.mark_undone
            (OpStore.cleanup_expired [sample_op (Some "v3"%string)] 140%Z)
            (op_id (sample_op (Some "v3"%string))))
       /\ sp_items sp'
          = SpotifyClient.resolve sample_sp
              (payload_original_order (op_payload (sample_op (Some "v3"%string))))
       /\ sp_version sp'
          = S ((length (payload_original_order (op_payload (sample_op (Some "v3"%string))))
                - 100 + 99) / 100 + sp_version sample_sp)
       /\ undo_restored resp
          = length (payload_original_order (op_payload (sample_op (Some "v3"%string))))
       /\ undo_operation_id resp = op_id (sample_op (Some "v3"%string))
       /\ undo_snapshot_id resp = SpotifyClient.snapshot_id sp'.
Proof.
  assert (H1 : OpStore.get_latest_operation
                 (OpStore.cleanup_expired [sample_op (Some "v3"%string)] 140%Z) 140%Z
                 "pl1" "u1" = Some (sample_op (Some "v3"%string))) by reflexivity.
  assert (H2 : op_type (sample_op (Some "v3"%string)) = "sort_reorder"%string)
    by reflexivity.
  assert (H3 : payload_original_order (op_payload (sample_op (Some "v3"%string))) <> [])
    by (simpl; discriminate).
  assert (H4 : snapshot_conflict (op_snapshot_after (sample_op (Some "v3"%string)))
                 (SpotifyClient.snapshot_id sample_sp) = false) by reflexivity.
  repeat (split; [assumption|]).
  exact (undo_sort_restores_recorded_order sample_sp [sample_op (Some "v3"%string)] 140%Z
           "pl1" "u1" (sample_op (Some "v3"%string)) H1 H2 H3 H4).
Defined.

Lemma sort_then_undo_restores_uris_witness :
  w_client_ok sample_world = true
  /\ ~ In None (sp_items (w_sp sample_world))
  /\ (forall t, In (Some t) (sp_items (w_sp sample_world)) -> truthy (track_uri t) = true)
  /\ (forall t1 t2, In (Some t1) (sp_items (w_sp sample_world)) ->
                    In (Some t2) (sp_items (w_sp sample_world)) ->
                    track_id t1 = track_id t2 -> track_uri t1 = track_uri t2)
  /\ (task_method sample_task = fast
      \/ (forall t, In (Some t) (sp_items (w_sp sample_world)) -> track_name t <> None))
  /\ (forall u, track_uri (sp_catalog (w_sp sample_world) u) = Some u)
  /\ (forall o, In o (w_ops sample_world) ->
        (String.eqb (op_playlist_id o) (task_playlist_id sample_task)
         && String.eqb (op_user_id o) (task_user_id sample_task)
         && negb (op_undone o) && op_changes_made o)%bool = false)
  /\ (140 < 130 + OpStore.days OpStore.DEFAULT_EXPIRY_DAYS)%Z
  /\ SpotifyClient.uris
       (snd (fst (undo_last_operation
                    (w_sp (_run_sort_job sample_world 130%Z sample_task never_set)) true
                    (w_ops (_run_sort_job sample_world 130%Z sample_task never_set)) 140%Z
                    (task_playlist_id sample_task) (task_user_id sample_task))))
     = SpotifyClient.uris (w_sp sample_world).
Proof.
  assert (H1 : w_client_ok sample_world = true) by reflexivity.
  assert (H0 : ~ In None (sp_items (w_sp sample_world))).
  { intros [H|[H|[H|[H|[]]]]]; discriminate H. }
  assert (H2 : forall t, In (Some t) (sp_items (w_sp sample_world)) ->
                         truthy (track_uri t) = true).
  { intros t [H|[H|[H|[H|[]]]]]; injection H as <-; reflexivity. }
  assert (H3 : forall t1 t2, In (Some t1) (sp_items (w_sp sample_world)) ->
                 In (Some t2) (sp_items (w_sp sample_world)) ->
                 track_id t1 = track_id t2 -> track_uri t1 = track_uri t2).
  { intros t1 t2 [A|[A|[A|[A|[]]]]] [B|[B|[B|[B|[]]]]] H;
      injection A as <-; injection B as <-; try reflexivity; discriminate H. }
  assert (Hn : task_method sample_task = fast
               \/ (forall t, In (Some t) (sp_items (w_sp sample_world)) ->
                             track_name t <> None)).
  { right. intros t [H|[H|[H|[H|[]]]]]; injection H as <-; discriminate. }
  assert (H4 : forall u, track_uri (sp_catalog (w_sp sample_world) u) = Some u)
    by (intros u; reflexivity).
  assert (H5 : forall o, In o (w_ops sample_world) ->
                 (String.eqb (op_playlist_id o) (task_playlist_id sample_task)
                  && String.eqb (op_user_id o) (task_user_id sample_task)
                  && negb (op_undone o) && op_changes_made o)%bool = false)
    by (intros o []).
  assert (H6 : (140 < 130 + OpStore.days OpStore.DEFAULT_EXPIRY_DAYS)%Z)
    by (vm_compute; reflexivity).
  repeat (split; [assumption|]).
  exact (sort_then_undo_restores_uris sample_world 130%Z 140%Z sample_task
           H1 H0 H2 H3 Hn H4 H5 H6).
Defined.

End ReplayExtras.

(** ** The undo log, the job table and the recurrence, further properties *)

Module OpStoreFacts.
Import OpStore PlaylistRoutes Samples.

Lemma filter_absorb {A} (f g : A -> bool) (l : list A) :
  (forall x, f x = true -> g x = true) -> filter f (filter g l) = filter f l.
Proof.
  intros H. induction l as [|x l IH]; [reflexivity|]. cbn [filter].
  destruct (g x) eqn:Eg; cbn [filter].
  - now rewrite IH.
  - destruct (f x) eqn:Ef; [apply H in Ef; congruence|exact IH].
Qed.

Lemma latest_created_last l o :
  (forall k, In k l -> (op_created_at k < op_created_at o)%Z) ->
  latest_created (l ++ [o]) = Some o.
Proof.
  induction l as [|k l IH]; intros H; [reflexivity|].
  cbn [app latest_created]. rewrite IH by (intros k' Hk'; apply H; now right).
  pose proof (H k (or_introl eq_refl)) as Hk. apply Z.ltb_lt in Hk. now rewrite Hk.
Qed.

(** X6.  The life of a log entry.  One that made changes is the latest undoable
    operation of its playlist and user from the moment it is recorded until
    it expires, seven days later; one that made no changes, or has expired,
    is never what an undo finds. *)
Theorem recorded_operation_is_undoable_until_expiry
    (ops : list Operation) (now : Timestamp) (playlist_id user_id type : string)
    (snapshot_before snapshot_after : option string) (payload : Payload) :
  (forall t,
     (forall o, In o ops -> (op_created_at o < now)%Z) ->
     (t < now + days DEFAULT_EXPIRY_DAYS)%Z ->
     exists op,
       get_latest_operation
         (record_operation ops now playlist_id user_id type snapshot_before
            snapshot_after payload true) t playlist_id user_id = Some op
       /\ op_type op = type
       /\ op_payload op = payload
       /\ op_snapshot_after op = snapshot_after
       /\ op_created_at op = now)
  /\ (forall t p u,
        get_latest_operation
          (record_operation ops now playlist_id user_id type snapshot_before
             snapshot_after payload false) t p u
        = get_latest_operation ops t p u)
  /\ (forall t p u changes_made,
        (now + days DEFAULT_EXPIRY_DAYS <= t)%Z ->
        get_latest_operation
          (record_operation ops now playlist_id user_id type snapshot_before
             snapshot_after payload changes_made) t p u
        = get_latest_operation ops t p u).
Proof.
  split; [|split].
  - intros t Hold Hexp. unfold get_latest_operation, record_operation.
    rewrite filter_app. cbn [filter op_playlist_id op_user_id op_undone op_expires_at
      op_changes_made]. apply Z.ltb_lt in Hexp.
    rewrite !String.eqb_refl, Hexp. cbn [negb andb].
    eexists. split.
    + apply latest_created_last. intros k Hk. apply filter_In in Hk.
      cbn [op_created_at]. apply Hold. tauto.
    + cbn. repeat split; reflexivity.
  - intros t p u. unfold get_latest_operation, record_operation.
    rewrite filter_app. cbn [filter op_changes_made]. rewrite andb_false_r.
    now rewrite app_nil_r.
  - intros t p u changes_made Hexp. unfold get_latest_operation, record_operation.
    rewrite filter_app. cbn [filter op_expires_at].
    apply Z.ltb_ge in Hexp. rewrite Hexp. rewrite andb_false_r. cbn [andb].
    now rewrite app_nil_r.
Qed.

Lemma recorded_operation_is_undoable_until_expiry_witness :
  (forall o, In o [earlier_op] -> (op_created_at o < 100)%Z)
  /\ (140 < 100 + days DEFAULT_EXPIRY_DAYS)%Z
  /\ (exists op,
        get_latest_operation
          (record_operation [earlier_op] 100%Z "pl1" "u1" "sort_reorder" None
             (Some "v3"%string) sample_payload true) 140%Z "pl1" "u1" = Some op
        /\ op_type op = "sort_reorder"%string
        /\ op_payload op = sample_payload
        /\ op_snapshot_after op = Some "v3"%string
        /\ op_created_at op = 100%Z)
  /\ ((100 + days DEFAULT_EXPIRY_DAYS <= 100 + days 8)%Z
      /\ get_latest_operation
           (record_operation [earlier_op] 100%Z "pl1" "u1" "sort_reorder" None
              (Some "v3"%string) sample_payload true) (100 + days 8)%Z "pl1" "u1"
         = get_latest_operation [earlier_op] (100 + days 8)%Z "pl1" "u1").
Proof.
  assert (H1 : forall o, In o [earlier_op] -> (op_created_at o < 100)%Z).
  { intros o [<-|[]]. vm_compute. reflexivity. }
  assert (H2 : (140 < 100 + days DEFAULT_EXPIRY_DAYS)%Z) by (vm_compute; reflexivity).
  assert (H3 : (100 + days DEFAULT_EXPIRY_DAYS <= 100 + days 8)%Z)
    by (vm_compute; discriminate).
  repeat (split; [assumption|]). split.
  - exact (proj1 (recorded_operation_is_undoable_until_expiry [earlier_op] 100%Z "pl1" "u1"
                    "sort_reorder" None (Some "v3"%string) sample_payload) 140%Z H1 H2).
  - split; [exact H3|].
    exact (proj2 (proj2 (recorded_operation_is_undoable_until_expiry [earlier_op] 100%Z
                           "pl1" "u1" "sort_reorder" None (Some "v3"%string)
                           sample_payload))
             (100 + days 8)%Z "pl1"%string "u1"%string true H3).
Defined.

(** X7.  The expiry sweep removes nothing that a later lookup could return, and
    sweeping twice is sweeping once. *)
Theorem cleanup_expired_keeps_latest_operation
    (ops : list Operation) (now t : Timestamp) (playlist_id user_id : string) :
  (now <= t)%Z ->
  get_latest_operation (cleanup_expired ops now) t playlist_id user_id
  = get_latest_operation ops t playlist_id user_id
  /\ cleanup_expired (cleanup_expired ops now) t = cleanup_expired ops t.
Proof.
  intros Hle. unfold get_latest_operation, cleanup_expired. split.
  - f_equal. apply filter_absorb. intros o Ho.
    repeat (apply andb_true_iff in Ho; destruct Ho as [Ho ?]).
    apply Z.ltb_lt. match goal with H : (_ <? _)%Z = true |- _ => apply Z.ltb_lt in H end.
    lia.
  - apply filter_absorb. intros o Ho. apply Z.ltb_lt in Ho. apply Z.ltb_lt. lia.
Qed.

Lemma cleanup_expired_keeps_latest_operation_witness :
  (100 <= 140)%Z
  /\ get_latest_operation (cleanup_expired [sample_op None; earlier_op] 100%Z) 140%Z
       "pl1" "u1"
     = get_latest_operation [sample_op None; earlier_op] 140%Z "pl1" "u1"
  /\ cleanup_expired (cleanup_expired [sample_op None; earlier_op] 100%Z) 140%Z
     = cleanup_expired [sample_op None; earlier_op] 140%Z.
Proof.
  assert (H : (100 <= 140)%Z) by lia.
  split; [exact H|].
  exact (cleanup_expired_keeps_latest_operation [sample_op None; earlier_op] 100%Z 140%Z
           "pl1" "u1" H).
Defined.

Lemma mark_undone_In ops id o :
  In o (mark_undone ops id) -> op_id o = id -> op_undone o = true.
Proof.
  unfold mark_undone. intros Hin Hid. apply in_map_iff in Hin.
  destruct Hin as (o0 & Ho & _). destruct (Nat.eqb_spec (op_id o0) id) as [E|N].
  - subst o. reflexivity.
  - subst o. contradiction.
Qed.

Lemma get_latest_operation_spec ops now playlist_id user_id op :
  get_latest_operation ops now playlist_id user_id = Some op ->
  In op ops /\ op_playlist_id op = playlist_id /\ op_user_id op = user_id
  /\ op_undone op = false /\ (now < op_expires_at op)%Z /\ op_changes_made op = true.
Proof.
  unfold get_latest_operation. intros H. apply UndoFacts.latest_created_In in H.
  apply filter_In in H. destruct H as [Hin Hc].
  repeat (apply andb_true_iff in Hc; destruct Hc as [Hc ?]).
  split; [exact Hin|]. repeat split.
  - now apply String.eqb_eq.
  - now apply String.eqb_eq.
  - now apply negb_true_iff.
  - now apply Z.ltb_lt.
  - assumption.
Qed.

(** A successful undo names the operation it replayed and leaves it marked
    undone in the log it returns. *)
Lemma undo_ok_marks_undone sp client_ok ops now playlist_id user_id resp sp' ops' :
  undo_last_operation sp client_ok ops now playlist_id user_id = (HttpOk resp, sp', ops') ->
  ops' = mark_undone (cleanup_expired ops now) (undo_operation_id resp).
Proof.
  unfold undo_last_operation. destruct (negb client_ok); [discriminate|].
  destruct (get_latest_operation _ _ _ _) as [op|]; [|discriminate].
  destruct (snapshot_conflict _ _); [discriminate|].
  unfold replay_operation.
  destruct (String.eqb (op_type op) "duplicates_remove").
  - destruct (payload_removed_items (op_payload op)); [discriminate|].
    destruct (sort_by_position _); [|discriminate].
    intros H. inversion H. reflexivity.
  - destruct (String.eqb (op_type op) "sort_reorder"); [|discriminate].
    destruct (payload_original_order (op_payload op)); [discriminate|].
    intros H. inversion H. reflexivity.
Qed.

Lemma undo_ok_operation sp client_ok ops now playlist_id user_id resp sp' ops' :
  undo_last_operation sp client_ok ops now playlist_id user_id = (HttpOk resp, sp', ops') ->
  exists op, In op (cleanup_expired ops now) /\ op_undone op = false
             /\ op_id op = undo_operation_id resp.
Proof.
  unfold undo_last_operation. destruct (negb client_ok); [discriminate|].
  destruct (get_latest_operation _ _ _ _) as [op|] eqn:Eg; [|discriminate].
  apply get_latest_operation_spec in Eg. destruct Eg as (Hin & _ & _ & Hun & _).
  destruct (snapshot_conflict _ _); [discriminate|].
  unfold replay_operation.
  destruct (String.eqb (op_type op) "duplicates_remove").
  - destruct (payload_removed_items (op_payload op)); [discriminate|].
    destruct (sort_by_position _); [|discriminate].
    intros H. inversion H. exists op. auto.
  - destruct (String.eqb (op_type op) "sort_reorder"); [|discriminate].
    destruct (payload_original_order (op_payload op)); [discriminate|].
    intros H. inversion H. exists op. auto.
Qed.

(** X8.  An operation is undone at most once: after a successful undo, no later
    undo on the log it returned replays the same operation, whatever the
    playlist state, the time or the requester. *)
Theorem undone_operation_is_not_replayed_again
    (sp : Spotify) (client_ok : bool) (ops : list Operation) (now : Timestamp)
    (playlist_id user_id : string) (resp : UndoResponse) (sp' : Spotify)
    (ops' : list Operation) :
  undo_last_operation sp client_ok ops now playlist_id user_id = (HttpOk resp, sp', ops') ->
  forall sp2 client_ok2 now2 playlist_id2 user_id2 resp2 sp2' ops2',
    undo_last_operation sp2 client_ok2 ops' now2 playlist_id2 user_id2
    = (HttpOk resp2, sp2', ops2') ->
    undo_operation_id resp2 <> undo_operation_id resp.
Proof.
  intros H1 sp2 client_ok2 now2 playlist_id2 user_id2 resp2 sp2' ops2' H2.
  apply undo_ok_marks_undone in H1. apply undo_ok_operation in H2.
  destruct H2 as (op & Hin & Hun & Hid). intros E.
  apply filter_In in Hin. destruct Hin as [Hin _]. subst ops'.
  rewrite (mark_undone_In _ _ _ Hin) in Hun; [discriminate|congruence].
Qed.

Lemma undone_operation_is_not_replayed_again_witness :
  undo_last_operation sample_sp true two_op_log 140%Z "pl1" "u1"
  = (HttpOk {| undo_restored := 2; undo_snapshot_id := Some "v4"%string;
               undo_operation_id := 1; undo_op_type := "sort_reorder" |},
     snd (fst first_undo), snd first_undo)
  /\ undo_last_operation (snd (fst first_undo)) true (snd first_undo) 150%Z "pl1" "u1"
     = (HttpOk {| undo_restored := 2; undo_snapshot_id := Some "v5"%string;
                  undo_operation_id := 2; undo_op_type := "sort_reorder" |},
        snd (fst second_undo), snd second_undo)
  /\ undo_operation_id {| undo_restored := 2; undo_snapshot_id := Some "v5"%string;
                          undo_operation_id := 2; undo_op_type := "sort_reorder" |}
     <> undo_operation_id {| undo_restored := 2; undo_snapshot_id := Some "v4"%string;
                             undo_operation_id := 1; undo_op_type := "sort_reorder" |}.
Proof.
  assert (H1 : undo_last_operation sample_sp true two_op_log 140%Z "pl1" "u1"
               = (HttpOk {| undo_restored := 2; undo_snapshot_id := Some "v4"%string;
                            undo_operation_id := 1; undo_op_type := "sort_reorder" |},
                  snd (fst first_undo), snd first_undo)) by reflexivity.
  assert (H2 : undo_last_operation (snd (fst first_undo)) true (snd first_undo) 150%Z
                 "pl1" "u1"
               = (HttpOk {| undo_restored := 2; undo_snapshot_id := Some "v5"%string;
                            undo_operation_id := 2; undo_op_type := "sort_reorder" |},
                  snd (fst second_undo), snd second_undo)) by reflexivity.
  repeat (split; [assumption|]).
  exact (undone_operation_is_not_replayed_again sample_sp true two_op_log 140%Z "pl1" "u1"
           _ _ _ H1 _ true 150%Z "pl1"%string "u1"%string _ _ _ H2).
Defined.

End OpStoreFacts.

(** ** Undo without a version token to compare *)

Module UndoReplayFacts.
Import OpStore PlaylistRoutes Samples.

Lemma filter_length_Permutation {A} (f : A -> bool) (l l' : list A) :
  Permutation l l' -> length (filter f l) = length (filter f l').
Proof.
  induction 1 as [|x l l' _ IH|x y l|l l' l'' _ IH1 _ IH2]; cbn [filter].
  - reflexivity.
  - destruct (f x); cbn [length]; now rewrite IH.
  - destruct (f x), (f y); reflexivity.
  - now rewrite IH1.
Qed.

(** One step of the reinsertion loop: an item without a uri is skipped, any
    other is one [playlist_add_items] call that puts the catalogue entry of
    its uri into the playlist and takes nothing out. *)
Lemma reinsert_effect sp item :
  sp_catalog (reinsert sp item) = sp_catalog sp
  /\ sp_version (reinsert sp item)
     = sp_version sp + (if truthy (removed_uri item) then 1 else 0)
  /\ length (sp_items (reinsert sp item))
     = length (sp_items sp) + (if truthy (removed_uri item) then 1 else 0)
  /\ (forall x, In x (sp_items sp) -> In x (sp_items (reinsert sp item)))
  /\ (forall u, truthy (removed_uri item) = true -> removed_uri item = Some u ->
        In (Some (sp_catalog sp u)) (sp_items (reinsert sp item))).
Proof.
  unfold reinsert. destruct (truthy (removed_uri item)) eqn:Et.
  2:{ repeat split; auto; try lia; intros u H; discriminate H. }
  destruct (removed_uri item) as [uri|] eqn:Eu; [|discriminate Et].
  unfold SpotifyClient.playlist_add_items, SpotifyClient.mutate, SpotifyClient.resolve,
    Remote.playlist_add_items.
  cbn [sp_items sp_version sp_catalog map].
  destruct (removed_position item) as [p|].
  - split; [reflexivity|]. split; [lia|]. split.
    { rewrite !length_app. cbn [length].
      rewrite <- (firstn_skipn p (sp_items sp)) at 3. rewrite length_app. lia. }
    split.
    + intros x Hx. rewrite <- (firstn_skipn p (sp_items sp)) in Hx.
      apply in_app_or in Hx. apply in_or_app.
      destruct Hx as [Hx|Hx]; [now left|right; apply in_or_app; now right].
    + intros u _ Hu. inversion Hu; subst. apply in_or_app. right. now left.
  - split; [reflexivity|]. split; [lia|]. split.
    { rewrite length_app. cbn [length]. lia. }
    split.
    + intros x Hx. apply in_or_app. now left.
    + intros u _ Hu. inversion Hu; subst. apply in_or_app. right. now left.
Qed.

(** The whole loop: one call per recorded item with a uri. *)
Lemma reinsert_all_effect l : forall sp,
  sp_catalog (fold_left reinsert l sp) = sp_catalog sp
  /\ sp_version (fold_left reinsert l sp)
     = sp_version sp + length (filter (fun item => truthy (removed_uri item)) l)
  /\ length (sp_items (fold_left reinsert l sp))
     = length (sp_items sp) + length (filter (fun item => truthy (removed_uri item)) l)
  /\ (forall x, In x (sp_items sp) -> In x (sp_items (fold_left reinsert l sp)))
  /\ (forall item u, In item l -> truthy (removed_uri item) = true ->
        removed_uri item = Some u ->
        In (Some (sp_catalog sp u)) (sp_items (fold_left reinsert l sp))).
Proof.
  induction l as [|it l IH]; intros sp.
  - cbn. repeat split; auto; try lia; intros item u [].
  - cbn [fold_left filter].
    destruct (reinsert_effect sp it) as (Hc & Hv & Hl & Hkeep & Hnew).
    destruct (IH (reinsert sp it)) as (Hc' & Hv' & Hl' & Hkeep' & Hnew').
    split; [now rewrite Hc'|]. split.
    { rewrite Hv', Hv. destruct (truthy (removed_uri it)); cbn [length]; lia. }
    split.
    { rewrite Hl', Hl. destruct (truthy (removed_uri it)); cbn [length]; lia. }
    split; [intros x Hx; now apply Hkeep', Hkeep|].
    intros item u [->|Hin] Ht Hu.
    + apply Hkeep'. now apply Hnew.
    + rewrite <- Hc. now apply (Hnew' item u).
Qed.

Lemma sort_by_position_present items :
  (forall item, In item items -> removed_position item <> None) ->
  sort_by_position items = Some (SortService.sorted position_key items false).
Proof.
  intros H. unfold sort_by_position.
  assert (E : existsb position_is_null items = false).
  { induction items as [|it items IH]; [reflexivity|]. cbn [existsb].
    rewrite IH by (intros item Hin; apply H; now right).
    unfold position_is_null. pose proof (H it (or_introl eq_refl)) as Hit.
    now destruct (removed_position it). }
  now rewrite E, andb_false_r.
Qed.

(** C9.  When the stored snapshot_after of the latest undoable operation is
    null or empty, or the live version token is null or empty, the conflict
    check does not fire whatever the two tokens are: undo is never answered
    with 409 and goes on to replay the inverse payload against the
    playlist.  For a sort with a recorded order the playlist is replaced by
    the recorded uris; for a removal of duplicates whose records carry
    their positions, each record with a uri is put back by one call, at its
    recorded position and in ascending order of position whatever the
    order of the records, and nothing is taken out.  In both cases the
    operation is marked undone.  When the handler answers with an error
    instead (no recorded data, an operation type it cannot undo, records it
    cannot sort), the playlist is untouched and nothing is marked. *)
Theorem undo_check_skipped_on_missing_token
    (sp : Spotify) (ops : list Operation) (now : Timestamp)
    (playlist_id user_id : string) (op : Operation) :
  get_latest_operation (cleanup_expired ops now) now playlist_id user_id = Some op ->
  truthy (op_snapshot_after op) = false \/ truthy (SpotifyClient.snapshot_id sp) = false ->
  let r := undo_last_operation sp true ops now playlist_id user_id in
  let order := payload_original_order (op_payload op) in
  let removed := payload_removed_items (op_payload op) in
  let with_uri := filter (fun item => truthy (removed_uri item)) removed in
  (forall d, fst (fst r) <> HttpError 409 d)
  /\ (op_type op = "sort_reorder"%string -> order <> [] ->
      exists resp,
        r = (HttpOk resp, snd (fst r), mark_undone (cleanup_expired ops now) (op_id op))
        /\ undo_restored resp = length order
        /\ undo_operation_id resp = op_id op
        /\ sp_items (snd (fst r)) = SpotifyClient.resolve sp order
        /\ sp_version sp < sp_version (snd (fst r)))
  /\ (op_type op = "duplicates_remove"%string -> removed <> [] ->
      (forall item, In item removed -> removed_position item <> None) ->
      exists resp,
        r = (HttpOk resp, snd (fst r), mark_undone (cleanup_expired ops now) (op_id op))
        /\ undo_restored resp = length removed
        /\ undo_operation_id resp = op_id op
        /\ sp_version (snd (fst r)) = sp_version sp + length with_uri
        /\ length (sp_items (snd (fst r))) = length (sp_items sp) + length with_uri
        /\ (forall item u, In item with_uri -> removed_uri item = Some u ->
              In (Some (sp_catalog sp u)) (sp_items (snd (fst r))))
        /\ (forall x, In x (sp_items sp) -> In x (sp_items (snd (fst r)))))
  /\ (op_type op = "duplicates_remove"%string ->
      forall item u p,
        removed = [item] -> truthy (removed_uri item) = true ->
        removed_uri item = Some u -> removed_position item = Some p ->
        sp_items (snd (fst r))
        = firstn p (sp_items sp) ++ Some (sp_catalog sp u) :: skipn p (sp_items sp))
  /\ (op_type op = "duplicates_remove"%string ->
      forall a b ua ub pa pb,
        removed = [b; a] \/ removed = [a; b] ->
        removed_uri a = Some ua -> truthy (removed_uri a) = true ->
        removed_uri b = Some ub -> truthy (removed_uri b) = true ->
        removed_position a = Some pa -> removed_position b = Some pb -> pa < pb ->
        let first := firstn pa (sp_items sp) ++ Some (sp_catalog sp ua)
                                                :: skipn pa (sp_items sp) in
        sp_items (snd (fst r)) = firstn pb first ++ Some (sp_catalog sp ub) :: skipn pb first)
  /\ (forall resp, fst (fst r) = HttpOk resp ->
        forall o, In o (snd r) -> op_id o = op_id op -> op_undone o = true)
  /\ (is_error (fst (fst r)) -> snd (fst r) = sp /\ snd r = cleanup_expired ops now).
Proof.
  intros Hop Hmiss. cbv zeta.
  rewrite (UndoFacts.undo_is_replay_on_missing_token sp ops now playlist_id user_id op
             Hop Hmiss).
  set (ops1 := cleanup_expired ops now).
  split; [intros d; apply UndoFacts.replay_operation_never_409|].
  split; [|split; [|split; [|split; [|split]]]].
  - intros Hty Hne. unfold replay_operation. rewrite Hty.
    cbn [String.eqb Ascii.eqb Bool.eqb].
    destruct (payload_original_order (op_payload op)) as [|u0 us0] eqn:Eo;
      [contradiction|].
    destruct (ReplayFacts.restore_order_spec sp (u0 :: us0)) as (H1 & H2 & _ & _).
    eexists. cbn [fst snd]. split; [reflexivity|].
    cbn [undo_restored undo_operation_id].
    split; [reflexivity|]. split; [reflexivity|]. split; [exact H1|]. rewrite H2. lia.
  - intros Hty Hne Hpos. unfold replay_operation. rewrite Hty.
    cbn [String.eqb Ascii.eqb Bool.eqb].
    rewrite (sort_by_position_present _ Hpos).
    destruct (payload_removed_items (op_payload op)) as [|i0 is0] eqn:Er;
      [contradiction|].
    set (removed := i0 :: is0) in *.
    set (in_order := SortService.sorted position_key removed false).
    assert (Hperm : Permutation removed in_order)
      by apply SortFacts.sorted_Permutation.
    destruct (reinsert_all_effect in_order sp) as (_ & Hv & Hl & Hkeep & Hnew).
    eexists. cbn [fst snd]. split; [reflexivity|].
    cbn [undo_restored undo_operation_id].
    split; [reflexivity|]. split; [reflexivity|].
    rewrite (filter_length_Permutation _ _ _ Hperm).
    split; [exact Hv|]. split; [exact Hl|]. split; [|exact Hkeep].
    intros item u Hin Hu. apply filter_In in Hin. destruct Hin as [Hin Ht].
    apply (Hnew item u); auto. eapply Permutation_in; [exact Hperm|exact Hin].
  - intros Hty item u p Hone Ht Hu Hp. unfold replay_operation. rewrite Hty.
    cbn [String.eqb Ascii.eqb Bool.eqb]. rewrite Hone.
    cbn [sort_by_position length Nat.leb andb SortService.sorted SortService.stable_sort
         fold_right SortService.insert_sorted fold_left fst snd].
    unfold reinsert. rewrite Ht, Hu, Hp. reflexivity.
  - intros Hty a b ua ub pa pb Htwo Hua Hta Hub Htb Hpa Hpb Hlt.
    unfold replay_operation. rewrite Hty.
    cbn [String.eqb Ascii.eqb Bool.eqb].
    assert (Hab : key_lt (position_key a) (position_key b) = true).
    { unfold position_key. rewrite Hpa, Hpb. cbn. apply Z.ltb_lt. lia. }
    assert (Hba : key_lt (position_key b) (position_key a) = false).
    { unfold position_key. rewrite Hpa, Hpb. cbn. apply Z.ltb_ge. lia. }
    assert (Hsort : sort_by_position (payload_removed_items (op_payload op)) = Some [a; b]).
    { destruct Htwo as [-> | ->]; unfold sort_by_position, position_is_null;
        cbn [length Nat.leb existsb]; rewrite Hpa, Hpb;
        cbn [orb andb SortService.sorted SortService.stable_sort fold_right
             SortService.insert_sorted];
        rewrite ?Hab, ?Hba; reflexivity. }
    rewrite Hsort.
    assert (Hne : exists i l, payload_removed_items (op_payload op) = i :: l)
      by (destruct Htwo as [-> | ->]; eauto).
    destruct Hne as (i & l & ->).
    cbn [fold_left fst snd]. unfold reinsert. rewrite Hta, Htb, Hua, Hub, Hpa, Hpb.
    reflexivity.
  - intros resp Hresp o Ho Hid. unfold replay_operation in Hresp, Ho.
    destruct (String.eqb (op_type op) "duplicates_remove").
    + destruct (payload_removed_items (op_payload op)); [discriminate Hresp|].
      destruct (sort_by_position _); [|discriminate Hresp].
      cbn [snd] in Ho. exact (OpStoreFacts.mark_undone_In _ _ _ Ho Hid).
    + destruct (String.eqb (op_type op) "sort_reorder"); [|discriminate Hresp].
      destruct (payload_original_order (op_payload op)); [discriminate Hresp|].
      cbn [snd] in Ho. exact (OpStoreFacts.mark_undone_In _ _ _ Ho Hid).
  - unfold replay_operation.
    destruct (String.eqb (op_type op) "duplicates_remove").
    + destruct (payload_removed_items (op_payload op)); [intros _; split; reflexivity|].
      destruct (sort_by_position _); [intros []|intros _; split; reflexivity].
    + destruct (String.eqb (op_type op) "sort_reorder"); [|intros _; split; reflexivity].
      destruct (payload_original_order (op_payload op));
        [intros _; split; reflexivity|intros []].
Qed.

Lemma undo_check_skipped_on_missing_token_witness :
  get_latest_operation (cleanup_expired [sample_op None] 200%Z) 200%Z "pl1" "u1"
  = Some (sample_op None)
  /\ (truthy (op_snapshot_after (sample_op None)) = false
      \/ truthy (SpotifyClient.snapshot_id sample_sp) = false)
  /\ op_type (sample_op None) = "sort_reorder"%string
  /\ payload_original_order (op_payload (sample_op None)) <> []
  /\ exists resp,
       undo_last_operation sample_sp true [sample_op None] 200%Z "pl1" "u1"
       = (HttpOk resp,
          snd (fst (undo_last_operation sample_sp true [sample_op None] 200%Z "pl1" "u1")),
          mark_undone (cleanup_expired [sample_op None] 200%Z) (op_id (sample_op None)))
       /\ undo_restored resp = length (payload_original_order (op_payload (sample_op None)))
       /\ undo_operation_id resp = op_id (sample_op None)
       /\ sp_items (snd (fst (undo_last_operation sample_sp true [sample_op None] 200%Z
                                "pl1" "u1")))
          = SpotifyClient.resolve sample_sp
              (payload_original_order (op_payload (sample_op None)))
       /\ sp_version sample_sp
          < sp_version (snd (fst (undo_last_operation sample_sp true [sample_op None]
                                    200%Z "pl1" "u1"))).
Proof.
  assert (H1 : get_latest_operation (cleanup_expired [sample_op None] 200%Z) 200%Z "pl1" "u1"
               = Some (sample_op None)) by reflexivity.
  assert (H2 : truthy (op_snapshot_after (sample_op None)) = false
               \/ truthy (SpotifyClient.snapshot_id sample_sp) = false)
    by (left; reflexivity).
  assert (H3 : op_type (sample_op None) = "sort_reorder"%string) by reflexivity.
  assert (H4 : payload_original_order (op_payload (sample_op None)) <> [])
    by (simpl; discriminate).
  repeat (split; [assumption|]).
  exact (proj1 (proj2 (undo_check_skipped_on_missing_token sample_sp [sample_op None]
                         200%Z "pl1" "u1" (sample_op None) H1 H2)) H3 H4).
Defined.

End UndoReplayFacts.

Module JobFacts.
Import SortJobService SortService TaskExecutor Samples.

Lemma update_job_ids jobs now id status progress message error total :
  map job_id (update_job jobs now id status progress message error total) = map job_id jobs.
Proof.
  unfold update_job. rewrite map_map. apply map_ext. intros j.
  now destruct (String.eqb (job_id j) id).
Qed.

Lemma update_job_row jobs now id st progress message error total j :
  In j (update_job jobs now id (Some st) progress message error total) ->
  job_id j = id ->
  job_status j = st /\ job_updated_at j = now
  /\ (is_terminal st = true -> job_completed_at j = Some now).
Proof.
  unfold update_job. intros Hin Hid. apply in_map_iff in Hin.
  destruct Hin as (j0 & Hj & _). destruct (String.eqb (job_id j0) id) eqn:E.
  - subst j. cbn. repeat split. intros ->. reflexivity.
  - subst j. apply String.eqb_neq in E. contradiction.
Qed.

Lemma update_job_error jobs now id status progress message err total j :
  In j (update_job jobs now id status progress message (Some err) total) ->
  job_id j = id -> job_error j = Some err.
Proof.
  unfold update_job. intros Hin Hid. apply in_map_iff in Hin.
  destruct Hin as (j0 & Hj & _). destruct (String.eqb (job_id j0) id) eqn:E.
  - subst j. reflexivity.
  - subst j. apply String.eqb_neq in E. contradiction.
Qed.

Lemma update_job_other jobs now id status progress message error total j :
  In j jobs -> job_id j <> id ->
  In j (update_job jobs now id status progress message error total).
Proof.
  unfold update_job. intros Hin Hid. apply in_map_iff. exists j.
  apply String.eqb_neq in Hid. now rewrite Hid.
Qed.

Ltac wsimpl :=
  cbn [with_jobs with_sp with_ops w_client_ok w_sp w_jobs w_ops get_sort_key_function].

Ltac jobs_done :=
  rewrite !update_job_ids; split; [reflexivity|]; split;
  [ intros j Hin Hid;
    destruct (update_job_row _ _ _ _ _ _ _ _ _ Hin Hid) as (-> & -> & Hc);
    repeat split; auto
  | intros j Hin Hne; now repeat apply update_job_other ].

(** X9.  What a worker run does to the job table: it keeps the rows and their
    ids, leaves every row but the task's alone, and leaves the task's row in
    a terminal state stamped with the time of the run. *)
Theorem run_sort_job_leaves_job_terminal
    (w : World) (now : Timestamp) (task : SortTask) (ev : CancelEvent) :
  let w' := _run_sort_job w now task ev in
  map job_id (w_jobs w') = map job_id (w_jobs w)
  /\ (forall j, In j (w_jobs w') -> job_id j = task_job_id task ->
        is_terminal (job_status j) = true
        /\ job_completed_at j = Some now /\ job_updated_at j = now)
  /\ (forall j, In j (w_jobs w) -> job_id j <> task_job_id task -> In j (w_jobs w')).
Proof.
  cbv zeta. unfold _run_sort_job, fail_job. wsimpl.
  destruct (w_client_ok w); cbn [negb]; wsimpl; [|jobs_done].
  destruct (is_set ev _); wsimpl; [jobs_done|].
  destruct (execute_sort _ _ _ _ _) as [sp' [err|]]; wsimpl; [jobs_done|].
  destruct (is_set ev _); wsimpl; jobs_done.
Qed.

Lemma is_set_mono ev p q : p <= q -> is_set ev p = true -> is_set ev q = true.
Proof.
  unfold is_set. destruct (cancel_set_at ev) as [t|]; [|discriminate].
  intros Hpq H. apply Nat.leb_le in H. apply Nat.leb_le. lia.
Qed.

(** X10.  A run that gets no client, or finds its cancellation event set at the
    fetch, touches neither the playlist nor the undo log; and a run that
    finds the event set after the sort records nothing in the undo log,
    whatever it has already moved. *)
Theorem stopped_run_records_no_undo_entry
    (w : World) (now : Timestamp) (task : SortTask) (ev : CancelEvent) :
  let w' := _run_sort_job w now task ev in
  let n := length (sp_items (w_sp w)) in
  (w_client_ok w = false \/ is_set ev (fetch_pages n - 1) = true ->
   w_sp w' = w_sp w /\ w_ops w' = w_ops w)
  /\ (is_set ev (fetch_pages n + n) = true -> w_ops w' = w_ops w)
  /\ (w_client_ok w = false ->
      forall j, In j (w_jobs w') -> job_id j = task_job_id task ->
        job_status j = failed
        /\ job_error j
           = Some "Failed to get Spotify client - authentication may have expired"%string).
Proof.
  cbv zeta. unfold _run_sort_job, fail_job. wsimpl.
  destruct (w_client_ok w) eqn:Eok; cbn [negb]; wsimpl.
  2:{ split; [auto|]. split; [auto|]. intros _ j Hin Hid. split.
      - now destruct (update_job_row _ _ _ _ _ _ _ _ _ Hin Hid).
      - now apply (update_job_error _ _ _ _ _ _ _ _ _ Hin Hid). }
  split; [|split; [|discriminate]].
  - intros [H|H]; [discriminate|]. rewrite H. wsimpl. auto.
  - intros Hend. destruct (is_set ev (fetch_pages _ - 1)); wsimpl; [reflexivity|].
    destruct (execute_sort _ _ _ _ _) as [sp' [err|]]; wsimpl; [reflexivity|].
    rewrite Hend. reflexivity.
Qed.

Lemma stopped_run_records_no_undo_entry_witness :
  (is_set {| cancel_set_at := Some 0 |}
     (fetch_pages (length (sp_items (w_sp local_world))) - 1) = true
   /\ w_sp (_run_sort_job local_world 130%Z sample_task {| cancel_set_at := Some 0 |})
      = w_sp local_world
   /\ w_ops (_run_sort_job local_world 130%Z sample_task {| cancel_set_at := Some 0 |})
      = w_ops local_world)
  /\ (is_set {| cancel_set_at := Some 3 |}
        (fetch_pages (length (sp_items (w_sp local_world)))
         + length (sp_items (w_sp local_world))) = true
      /\ w_ops (_run_sort_job local_world 130%Z sample_task {| cancel_set_at := Some 3 |})
         = w_ops local_world).
Proof.
  assert (H1 : is_set {| cancel_set_at := Some 0 |}
                 (fetch_pages (length (sp_items (w_sp local_world))) - 1) = true)
    by reflexivity.
  assert (H2 : is_set {| cancel_set_at := Some 3 |}
                 (fetch_pages (length (sp_items (w_sp local_world)))
                  + length (sp_items (w_sp local_world))) = true) by reflexivity.
  split.
  - split; [exact H1|].
    exact (proj1 (stopped_run_records_no_undo_entry local_world 130%Z sample_task
                    {| cancel_set_at := Some 0 |}) (or_intror H1)).
  - split; [exact H2|].
    exact (proj1 (proj2 (stopped_run_records_no_undo_entry local_world 130%Z sample_task
                           {| cancel_set_at := Some 3 |})) H2).
Defined.

Lemma recovered_none_active jobs t1 t2 (f : Job -> bool) :
  filter (fun j => f j && is_active j)%bool (map (recover_row t1 t2) jobs) = [].
Proof.
  induction jobs as [|j jobs IH]; [reflexivity|]. cbn [map filter].
  rewrite RecoveryFacts.recover_row_not_active, andb_false_r. exact IH.
Qed.

(** X11.  After the startup sweep no user has an active job and no playlist has
    one, so admission is open again; and a second sweep finds nothing to
    do. *)
Theorem startup_sweep_reopens_admission (jobs : list Job) (t1 t2 : Timestamp) :
  let jobs' := Main.lifespan_startup jobs t1 t2 in
  (forall user_id, get_user_active_job_count jobs' user_id = 0)
  /\ (forall now playlist_id,
        get_active_job_for_playlist jobs' now playlist_id = (None, jobs'))
  /\ (forall t3 t4, recover_interrupted_jobs jobs' t3 t4 = (0, jobs')).
Proof.
  cbv zeta. unfold Main.lifespan_startup, recover_interrupted_jobs. cbn [snd].
  split; [|split].
  - intros user_id. unfold get_user_active_job_count.
    now rewrite (recovered_none_active jobs t1 t2
                   (fun j => String.eqb (job_user_id j) user_id)).
  - intros now playlist_id. unfold get_active_job_for_playlist.
    now rewrite (recovered_none_active jobs t1 t2
                   (fun j => String.eqb (job_playlist_id j) playlist_id)).
  - intros t3 t4. f_equal.
    + pose proof (recovered_none_active jobs t1 t2 (fun _ => true)) as H.
      cbn [andb] in H. erewrite filter_ext; [rewrite H; reflexivity|reflexivity].
    + rewrite map_map. apply map_ext. intros j. unfold recover_row at 1.
      now rewrite RecoveryFacts.recover_row_not_active.
Qed.

Lemma count_cancel_other jobs now id user_id :
  (forall j, In j jobs -> job_id j = id -> job_user_id j <> user_id) ->
  get_user_active_job_count (cancel_job jobs now id) user_id
  = get_user_active_job_count jobs user_id.
Proof.
  unfold get_user_active_job_count, cancel_job, update_job. intros H.
  induction jobs as [|j jobs IH]; [reflexivity|]. cbn [map filter].
  assert (IH' : length (filter (fun j0 => String.eqb (job_user_id j0) user_id && is_active j0)%bool
                  (map (fun j0 => if String.eqb (job_id j0) id
                                  then apply_update now (Some cancelled) None
                                         (Some MsgJobCancelledByUser) None None j0
                                  else j0) jobs))
                = length (filter (fun j0 => String.eqb (job_user_id j0) user_id && is_active j0)%bool jobs))
    by (apply IH; intros j' Hj'; apply H; now right).
  destruct (String.eqb (job_id j) id) eqn:E.
  - apply String.eqb_eq in E. pose proof (H j (or_introl eq_refl) E) as Hu.
    apply String.eqb_neq in Hu. cbn [apply_update job_user_id]. rewrite Hu. cbn [andb].
    exact IH'.
  - destruct (String.eqb (job_user_id j) user_id && is_active j)%bool; cbn [length]; lia.
Qed.

(** X12.  Cancelling an active job frees one of its owner's slots: with unique
    job ids, the owner's count of active jobs drops by exactly one, and no
    other row changes. *)
Theorem cancel_job_frees_a_slot (jobs : list Job) (now : Timestamp) (j : Job) :
  NoDup (map job_id jobs) ->
  In j jobs ->
  is_active j = true ->
  S (get_user_active_job_count (cancel_job jobs now (job_id j)) (job_user_id j))
  = get_user_active_job_count jobs (job_user_id j)
  /\ (forall k, In k jobs -> job_id k <> job_id j -> In k (cancel_job jobs now (job_id j)))
  /\ (forall k, In k (cancel_job jobs now (job_id j)) -> job_id k = job_id j ->
        job_status k = cancelled /\ job_completed_at k = Some now).
Proof.
  intros Hnd Hin Hact. split; [|split].
  - induction jobs as [|k jobs IH]; [contradiction|].
    cbn [map] in Hnd. apply NoDup_cons_iff in Hnd. destruct Hnd as [Hk Hnd].
    unfold get_user_active_job_count, cancel_job, update_job in *. cbn [map filter].
    destruct Hin as [->|Hin].
    + rewrite String.eqb_refl. cbn [apply_update job_user_id is_active job_status or_else].
      rewrite String.eqb_refl, Hact. cbn [andb length]. f_equal.
      pose proof (count_cancel_other jobs now (job_id j) (job_user_id j)) as Hc.
      unfold get_user_active_job_count, cancel_job, update_job in Hc. apply Hc.
      intros j' Hj' Hid. exfalso. apply Hk. rewrite <- Hid. now apply in_map.
    + assert (Hne : String.eqb (job_id k) (job_id j) = false).
      { apply String.eqb_neq. intros E. apply Hk. rewrite E. now apply in_map. }
      rewrite Hne. specialize (IH Hnd Hin).
      destruct (String.eqb (job_user_id k) (job_user_id j) && is_active k)%bool;
        cbn [length]; lia.
  - intros k Hk Hne. now apply update_job_other.
  - intros k Hk Hid. unfold cancel_job in Hk.
    destruct (update_job_row _ _ _ _ _ _ _ _ _ Hk Hid) as (-> & _ & Hc). auto.
Qed.

Lemma cancel_job_frees_a_slot_witness :
  NoDup (map job_id sample_jobs)
  /\ In sample_job_a sample_jobs
  /\ is_active sample_job_a = true
  /\ S (get_user_active_job_count (cancel_job sample_jobs 130%Z (job_id sample_job_a))
          (job_user_id sample_job_a))
     = get_user_active_job_count sample_jobs (job_user_id sample_job_a)
  /\ (forall k, In k sample_jobs -> job_id k <> job_id sample_job_a ->
        In k (cancel_job sample_jobs 130%Z (job_id sample_job_a)))
  /\ (forall k, In k (cancel_job sample_jobs 130%Z (job_id sample_job_a)) ->
        job_id k = job_id sample_job_a ->
        job_status k = cancelled /\ job_completed_at k = Some 130%Z).
Proof.
  assert (H1 : NoDup (map job_id sample_jobs)).
  { simpl. constructor; [|constructor; [|constructor]].
    - intros [H|[]]. discriminate H.
    - intros []. }
  assert (H2 : In sample_job_a sample_jobs) by (left; reflexivity).
  assert (H3 : is_active sample_job_a = true) by reflexivity.
  repeat (split; [assumption|]).
  exact (cancel_job_frees_a_slot sample_jobs 130%Z sample_job_a H1 H2 H3).
Defined.

End JobFacts.

Module RecurrenceExtras.
Import PyDatetime CalendarFacts Schedules RecurrenceFacts Samples.
Local Open Scope Z_scope.

Lemma time_of_day_fields a b :
  valid a = true -> valid b = true -> time_of_day a = time_of_day b ->
  hour a = hour b /\ minute a = minute b /\ second a = second b
  /\ microsecond a = microsecond b.
Proof.
  intros Ha Hb. apply valid_spec in Ha, Hb.
  destruct Ha as [_ (Hh & Hm & Hs & Hu)]. destruct Hb as [_ (Hh' & Hm' & Hs' & Hu')].
  unfold time_of_day. intros H. lia.
Qed.

(** Adding whole days keeps the time of day and moves the date by as many
    days. *)
Lemma whole_days_later a b k :
  valid a = true -> valid b = true -> instant a = instant b + k * US_PER_DAY ->
  toordinal a = toordinal b + k /\ time_of_day a = time_of_day b.
Proof.
  intros Ha Hb H. pose proof (instant_range a Ha) as Ra. pose proof (instant_range b Hb) as Rb.
  unfold instant in *. unfold US_PER_DAY in *.
  assert (toordinal a = toordinal b + k) by lia. split; [assumption|lia].
Qed.

Lemma dow_map_range s : 0 <= dow_map s <= 6.
Proof.
  unfold dow_map.
  repeat match goal with |- context [String.eqb ?a ?b] => destruct (String.eqb a b) end; lia.
Qed.

(** The four steps of [_compute_next_run], named. *)
Lemma compute_next_run_steps params freq base t :
  valid base = true ->
  _compute_next_run params freq base = Some t ->
  exists bl tl r,
    add base (offset_minutes_of params * 60000000) = Some bl
    /\ replace_time bl (hour_of params) 0 0 0 = Some tl
    /\ next_local params freq bl tl = Some r
    /\ sub r (offset_minutes_of params * 60000000) = Some t
    /\ valid bl = true /\ valid tl = true /\ valid t = true
    /\ instant bl = instant base + offset_minutes_of params * 60000000
    /\ year tl = year bl /\ month tl = month bl /\ toordinal tl = toordinal bl
    /\ hour tl = hour_of params /\ minute tl = 0 /\ second tl = 0 /\ microsecond tl = 0.
Proof.
  intros Hbase. unfold _compute_next_run.
  destruct (timedelta_minutes (offset_minutes_of params)) as [offset|] eqn:Eoff;
    [|discriminate].
  cbn [bind]. apply timedelta_minutes_spec in Eoff. subst offset.
  destruct (add base _) as [bl|] eqn:Ebl; [|discriminate]. cbn [bind].
  destruct (replace_time bl (hour_of params) 0 0 0) as [tl|] eqn:Etl; [|discriminate].
  cbn [bind].
  destruct (next_local params freq bl tl) as [r|] eqn:Er; [|discriminate]. cbn [bind].
  intros Et. exists bl, tl, r.
  pose proof (add_spec _ _ _ Ebl) as [Hbl Hibl].
  pose proof (replace_time_spec _ _ _ Etl) as (Htl & Hy & Hm & _ & Hord).
  pose proof (sub_spec _ _ _ Et) as [Ht _].
  pose proof Etl as Etl'. unfold replace_time in Etl'. apply make_spec in Etl'.
  destruct Etl' as [_ Htl'].
  repeat (split; [first [reflexivity|assumption]|]).
  rewrite Htl'. cbn. repeat split; reflexivity.
Qed.

(** X13.  A daily schedule runs next within the twenty-four hours that follow
    the base time, at the schedule's hour on the dot in the schedule's local
    time. *)
Theorem daily_next_run_within_a_day
    (params : option ScheduleParams) (freq : option Z) (base t : datetime) :
  schedule_type_of params = "daily"%string ->
  valid base = true ->
  _compute_next_run params freq base = Some t ->
  instant base < instant t <= instant base + US_PER_DAY
  /\ exists local,
       valid local = true
       /\ instant local = instant t + offset_minutes_of params * 60000000
       /\ hour local = hour_of params
       /\ minute local = 0 /\ second local = 0 /\ microsecond local = 0.
Proof.
  intros Hty Hbase Et.
  destruct (compute_next_run_steps params freq base t Hbase Et)
    as (bl & tl & r & Ebl & Etl & Er & Es & Hbl & Htl & Ht & Hibl & Hy & Hm & Hord
        & Hh & Hmi & Hs & Hus).
  pose proof (sub_spec _ _ _ Es) as [_ Hit].
  pose proof (instant_range bl Hbl) as Rb. pose proof (instant_range tl Htl) as Rt.
  rewrite Hord in Rt.
  unfold next_local in Er. cbv zeta in Er. rewrite Hty in Er.
  cbn [String.eqb Ascii.eqb Bool.eqb] in Er.
  rewrite (leb_instant tl bl Htl Hbl) in Er.
  destruct (Z.leb_spec (instant tl) (instant bl)) as [Hle|Hgt].
  - destruct (timedelta_days 1) as [td|] eqn:Etd; [|discriminate]. cbn [bind] in Er.
    apply timedelta_days_spec in Etd. subst td.
    pose proof (add_spec _ _ _ Er) as [Hr Hir].
    split; [unfold US_PER_DAY in *; lia|].
    exists r. split; [exact Hr|]. split; [lia|].
    destruct (whole_days_later r tl 1 Hr Htl Hir) as [_ Htod].
    destruct (time_of_day_fields r tl Hr Htl Htod) as (E1 & E2 & E3 & E4).
    rewrite E1, E2, E3, E4. auto.
  - injection Er as <-. split; [unfold US_PER_DAY in *; lia|].
    exists tl. split; [exact Htl|]. split; [lia|]. auto.
Qed.

(** X14.  A weekly schedule runs next within the seven days that follow the base
    time, on the requested weekday and at the schedule's hour on the dot in
    the schedule's local time. *)
Theorem weekly_next_run_on_requested_weekday
    (params : option ScheduleParams) (freq : option Z) (base t : datetime) :
  schedule_type_of params = "weekly"%string ->
  valid base = true ->
  _compute_next_run params freq base = Some t ->
  instant base < instant t <= instant base + 7 * US_PER_DAY
  /\ exists local,
       valid local = true
       /\ instant local = instant t + offset_minutes_of params * 60000000
       /\ weekday local = dow_map (day_of_week_of params)
       /\ hour local = hour_of params
       /\ minute local = 0 /\ second local = 0 /\ microsecond local = 0.
Proof.
  intros Hty Hbase Et.
  assert (Hrec : recurring (schedule_type_of params)) by (right; left; exact Hty).
  destruct (compute_next_run_after params freq base t Hrec Hbase Et) as [_ Hafter].
  destruct (compute_next_run_steps params freq base t Hbase Et)
    as (bl & tl & r & Ebl & Etl & Er & Es & Hbl & Htl & Ht & Hibl & Hy & Hm & Hord
        & Hh & Hmi & Hs & Hus).
  pose proof (sub_spec _ _ _ Es) as [_ Hit].
  pose proof (instant_range bl Hbl) as Rb. pose proof (instant_range tl Htl) as Rt.
  rewrite Hord in Rt.
  unfold next_local in Er. cbv zeta in Er. rewrite Hty in Er.
  cbn [String.eqb Ascii.eqb Bool.eqb] in Er.
  rewrite (leb_instant tl bl Htl Hbl) in Er.
  pose proof (dow_map_range (day_of_week_of params)) as Hw.
  set (wanted := dow_map (day_of_week_of params)) in *.
  assert (Hmod : 0 <= (wanted - weekday tl) mod 7 < 7) by (apply Z.mod_pos_bound; lia).
  set (da := (wanted - weekday tl) mod 7) in *.
  destruct (timedelta_days _) as [td|] eqn:Etd; [|discriminate]. cbn [bind] in Er.
  apply timedelta_days_spec in Etd. subst td.
  pose proof (add_spec _ _ _ Er) as [Hr Hir].
  set (k := if (da =? 0) && (instant tl <=? instant bl) then 7 else da) in *.
  assert (Hk : (k = 7 /\ da = 0 /\ instant tl <= instant bl) \/ (k = da)).
  { unfold k. destruct (Z.eqb_spec da 0); cbn [andb]; [|now right].
    destruct (Z.leb_spec (instant tl) (instant bl)); [left|right]; auto. }
  split.
  - split; [exact Hafter|]. destruct Hk as [(-> & _ & Hle)| ->]; unfold US_PER_DAY in *; lia.
  - exists r. split; [exact Hr|]. split; [lia|].
    destruct (whole_days_later r tl k Hr Htl Hir) as [Hordr Htod].
    destruct (time_of_day_fields r tl Hr Htl Htod) as (E1 & E2 & E3 & E4).
    rewrite E1, E2, E3, E4. split; [|auto].
    unfold weekday. rewrite Hordr.
    clear - Hk Hw Hmod. unfold da, weekday in *. clearbody k wanted.
    destruct Hk as [(-> & H0 & _)| ->]; Z.to_euclidean_division_equations; lia.
Qed.

Lemma monthly_candidate_month bl tl dom r :
  valid tl = true ->
  monthly_candidate bl tl dom = Some r ->
  (year r = year tl /\ month r = month tl)
  \/ (month tl = 12 /\ year r = year tl + 1 /\ month r = 1)
  \/ (month tl < 12 /\ year r = year tl /\ month r = month tl + 1).
Proof.
  intros Htl. unfold monthly_candidate. cbv zeta.
  set (d := Z.max 1 (Z.min dom 28)).
  assert (Hd : 1 <= d <= 28) by (unfold d; lia).
  destruct (valid_parts tl Htl) as [Hdate Htime].
  apply valid_date_spec in Hdate. destruct Hdate as (Hty & Htm & Htd).
  pose proof (days_in_month_ge_28 (year tl) (month tl) Htm) as Hdim.
  destruct (make_some (year tl) (month tl) d (hour tl) (minute tl) (second tl)
              (microsecond tl)) as [c Ec]; [apply valid_date_spec; lia|exact Htime|].
  unfold replace_date at 1. rewrite Ec. cbn [try_except bind].
  apply make_spec in Ec. destruct Ec as [Hcv Hc].
  destruct (leb c bl).
  - destruct (Z.eqb_spec (month tl) 12) as [E12|N12].
    + intros Hr. right; left. split; [exact E12|].
      unfold try_except in Hr.
      destruct (replace_date c (year tl + 1) 1 d) as [c1|] eqn:E1.
      * injection Hr as <-. apply replace_date_spec in E1. tauto.
      * apply replace_date_spec in Hr. tauto.
    + intros Hr. right; right. split; [lia|].
      unfold try_except in Hr.
      destruct (replace_date c (year tl) (month tl + 1) d) as [c1|] eqn:E1.
      * injection Hr as <-. apply replace_date_spec in E1. tauto.
      * apply replace_date_spec in Hr. tauto.
  - intros H. injection H as <-. left. rewrite Hc. cbn. auto.
Qed.

(** X15.  A monthly schedule runs next on its anchor day, the day of month
    clamped to 1..28, of the local month of the base time or of the month
    after it, at the schedule's hour on the dot in the schedule's local
    time. *)
Theorem monthly_next_run_on_anchor_day
    (params : option ScheduleParams) (freq : option Z) (base t : datetime) :
  schedule_type_of params = "monthly"%string ->
  valid base = true ->
  _compute_next_run params freq base = Some t ->
  exists base_local local,
    add base (offset_minutes_of params * 60000000) = Some base_local
    /\ valid local = true
    /\ instant local = instant t + offset_minutes_of params * 60000000
    /\ day local = Z.max 1 (Z.min (day_of_month_of params) 28)
    /\ hour local = hour_of params
    /\ minute local = 0 /\ second local = 0 /\ microsecond local = 0
    /\ ((year local = year base_local /\ month local = month base_local)
        \/ (month base_local = 12 /\ year local = year base_local + 1 /\ month local = 1)
        \/ (month base_local < 12 /\ year local = year base_local
            /\ month local = month base_local + 1)).
Proof.
  intros Hty Hbase Et.
  assert (Hrec : recurring (schedule_type_of params)) by (right; right; exact Hty).
  destruct (compute_next_run_steps params freq base t Hbase Et)
    as (bl & tl & r & Ebl & Etl & Er & Es & Hbl & Htl & Ht & Hibl & Hy & Hm & Hord
        & Hh & Hmi & Hs & Hus).
  pose proof (sub_spec _ _ _ Es) as [_ Hit].
  destruct (next_local_after params freq bl tl r Hrec Hbl Htl Hy Hm Hord Er) as [Hr _].
  unfold next_local in Er. cbv zeta in Er. rewrite Hty in Er.
  cbn [String.eqb Ascii.eqb Bool.eqb] in Er.
  destruct (monthly_candidate_day bl tl _ r Htl Er) as (Hday & _ & E1 & E2 & E3 & E4).
  pose proof (monthly_candidate_month bl tl _ r Htl Er) as Hmonth.
  exists bl, r. split; [exact Ebl|]. split; [exact Hr|]. split; [lia|].
  split; [exact Hday|]. rewrite E1, E2, E3, E4.
  repeat (split; [assumption|]). rewrite <- Hy, <- Hm. exact Hmonth.
Qed.

(** X16.  A schedule whose type is none of daily, weekly and monthly runs next
    [frequency_minutes] after the base time, or a day after it when the
    frequency is missing or zero; the time-zone offset plays no part. *)
Theorem unknown_schedule_type_uses_frequency
    (params : option ScheduleParams) (freq : option Z) (base t : datetime) :
  ~ recurring (schedule_type_of params) ->
  valid base = true ->
  _compute_next_run params freq base = Some t ->
  instant t
  = instant base
    + match freq with
      | Some 0 | None => 1440
      | Some f => f
      end * 60000000.
Proof.
  intros Hty Hbase Et.
  destruct (compute_next_run_steps params freq base t Hbase Et)
    as (bl & tl & r & Ebl & Etl & Er & Es & Hbl & Htl & Ht & Hibl & _).
  pose proof (sub_spec _ _ _ Es) as [_ Hit].
  unfold next_local in Er. cbv zeta in Er.
  destruct (String.eqb_spec (schedule_type_of params) "daily") as [E|_];
    [exfalso; apply Hty; left; exact E|].
  destruct (String.eqb_spec (schedule_type_of params) "weekly") as [E|_];
    [exfalso; apply Hty; right; left; exact E|].
  destruct (String.eqb_spec (schedule_type_of params) "monthly") as [E|_];
    [exfalso; apply Hty; right; right; exact E|].
  destruct (timedelta_minutes _) as [td|] eqn:Etd; [|discriminate]. cbn [bind] in Er.
  apply timedelta_minutes_spec in Etd. apply add_spec in Er. destruct Er as [_ Hir].
  lia.
Qed.

Lemma daily_next_run_within_a_day_witness :
  schedule_type_of (Some sample_params) = "daily"%string
  /\ valid (on_the_hour 2024 1 1 23) = true
  /\ _compute_next_run (Some sample_params) None (on_the_hour 2024 1 1 23)
     = Some (on_the_hour 2024 1 2 9)
  /\ instant (on_the_hour 2024 1 1 23) < instant (on_the_hour 2024 1 2 9)
     <= instant (on_the_hour 2024 1 1 23) + US_PER_DAY
  /\ exists local,
       valid local = true
       /\ instant local
          = instant (on_the_hour 2024 1 2 9)
            + offset_minutes_of (Some sample_params) * 60000000
       /\ hour local = hour_of (Some sample_params)
       /\ minute local = 0 /\ second local = 0 /\ microsecond local = 0.
Proof.
  assert (H1 : schedule_type_of (Some sample_params) = "daily"%string) by reflexivity.
  assert (H2 : valid (on_the_hour 2024 1 1 23) = true) by reflexivity.
  assert (H3 : _compute_next_run (Some sample_params) None (on_the_hour 2024 1 1 23)
               = Some (on_the_hour 2024 1 2 9)) by reflexivity.
  repeat (split; [assumption|]).
  exact (daily_next_run_within_a_day (Some sample_params) None (on_the_hour 2024 1 1 23)
           (on_the_hour 2024 1 2 9) H1 H2 H3).
Defined.

Lemma weekly_next_run_on_requested_weekday_witness :
  schedule_type_of (Some tokyo_friday_params) = "weekly"%string
  /\ valid (on_the_hour 2024 1 1 23) = true
  /\ _compute_next_run (Some tokyo_friday_params) None (on_the_hour 2024 1 1 23)
     = Some (on_the_hour 2024 1 5 0)
  /\ instant (on_the_hour 2024 1 1 23) < instant (on_the_hour 2024 1 5 0)
     <= instant (on_the_hour 2024 1 1 23) + 7 * US_PER_DAY
  /\ exists local,
       valid local = true
       /\ instant local
          = instant (on_the_hour 2024 1 5 0)
            + offset_minutes_of (Some tokyo_friday_params) * 60000000
       /\ weekday local = dow_map (day_of_week_of (Some tokyo_friday_params))
       /\ hour local = hour_of (Some tokyo_friday_params)
       /\ minute local = 0 /\ second local = 0 /\ microsecond local = 0.
Proof.
  assert (H1 : schedule_type_of (Some tokyo_friday_params) = "weekly"%string)
    by reflexivity.
  assert (H2 : valid (on_the_hour 2024 1 1 23) = true) by reflexivity.
  assert (H3 : _compute_next_run (Some tokyo_friday_params) None (on_the_hour 2024 1 1 23)
               = Some (on_the_hour 2024 1 5 0)) by reflexivity.
  repeat (split; [assumption|]).
  exact (weekly_next_run_on_requested_weekday (Some tokyo_friday_params) None
           (on_the_hour 2024 1 1 23) (on_the_hour 2024 1 5 0) H1 H2 H3).
Defined.

Lemma monthly_next_run_on_anchor_day_witness :
  schedule_type_of (Some monthly_params) = "monthly"%string
  /\ valid (on_the_hour 2024 12 30 12) = true
  /\ _compute_next_run (Some monthly_params) None (on_the_hour 2024 12 30 12)
     = Some (on_the_hour 2025 1 28 9)
  /\ exists base_local local,
       add (on_the_hour 2024 12 30 12) (offset_minutes_of (Some monthly_params) * 60000000)
       = Some base_local
       /\ valid local = true
       /\ instant local
          = instant (on_the_hour 2025 1 28 9)
            + offset_minutes_of (Some monthly_params) * 60000000
       /\ day local = Z.max 1 (Z.min (day_of_month_of (Some monthly_params)) 28)
       /\ hour local = hour_of (Some monthly_params)
       /\ minute local = 0 /\ second local = 0 /\ microsecond local = 0
       /\ ((year local = year base_local /\ month local = month base_local)
           \/ (month base_local = 12 /\ year local = year base_local + 1
               /\ month local = 1)
           \/ (month base_local < 12 /\ year local = year base_local
               /\ month local = month base_local + 1)).
Proof.
  assert (H1 : schedule_type_of (Some monthly_params) = "monthly"%string) by reflexivity.
  assert (H2 : valid (on_the_hour 2024 12 30 12) = true) by reflexivity.
  assert (H3 : _compute_next_run (Some monthly_params) None (on_the_hour 2024 12 30 12)
               = Some (on_the_hour 2025 1 28 9)) by reflexivity.
  repeat (split; [assumption|]).
  exact (monthly_next_run_on_anchor_day (Some monthly_params) None
           (on_the_hour 2024 12 30 12) (on_the_hour 2025 1 28 9) H1 H2 H3).
Defined.

Lemma unknown_schedule_type_uses_frequency_witness :
  ~ recurring (schedule_type_of (Some hourly_params))
  /\ valid (on_the_hour 2024 1 1 23) = true
  /\ _compute_next_run (Some hourly_params) (Some 90) (on_the_hour 2024 1 1 23)
     = Some (half_past 2024 1 2 0)
  /\ instant (half_past 2024 1 2 0)
     = instant (on_the_hour 2024 1 1 23) + 90 * 60000000.
Proof.
  assert (H1 : ~ recurring (schedule_type_of (Some hourly_params))).
  { intros [H|[H|H]]; discriminate H. }
  assert (H2 : valid (on_the_hour 2024 1 1 23) = true) by reflexivity.
  assert (H3 : _compute_next_run (Some hourly_params) (Some 90) (on_the_hour 2024 1 1 23)
               = Some (half_past 2024 1 2 0)) by reflexivity.
  repeat (split; [assumption|]).
  exact (unknown_schedule_type_uses_frequency (Some hourly_params) (Some 90)
           (on_the_hour 2024 1 1 23) (half_past 2024 1 2 0) H1 H2 H3).
Defined.

End RecurrenceExtras.

(* ===================================================================== *)
(** * Job routes, scheduler dispatch and removal of duplicates *)

Module JobRouteFacts.
Import SortJobService JobRoutes Samples.

Lemma get_job_Some jobs id j : get_job jobs id = Some j -> In j jobs /\ job_id j = id.
Proof.
  unfold get_job. intros H. apply find_some in H. destruct H as [Hin He].
  split; [exact Hin|]. now apply String.eqb_eq.
Qed.

(** X17.  Only the owner of a job can read or cancel it: for any other requester,
    and for a requester who is not authenticated, both handlers answer with
    an error, the job table is unchanged and no cancellation event is
    set. *)
Theorem job_status_and_cancel_are_owner_only
    (jobs : list Job) (running : list string) (now : Timestamp) (session : Session)
    (id : string) :
  (session_authenticated session = false
   \/ forall j, In j jobs -> job_id j = id -> job_user_id j <> session_user_id session) ->
  is_error (get_sort_status jobs session id)
  /\ is_error (fst (fst (cancel_sort jobs running now session id)))
  /\ snd (fst (cancel_sort jobs running now session id)) = jobs
  /\ snd (cancel_sort jobs running now session id) = [].
Proof.
  intros H. unfold get_sort_status, cancel_sort.
  destruct (session_authenticated session) eqn:Ea; cbn [negb]; [|cbn; auto].
  destruct H as [H|H]; [discriminate|].
  destruct (get_job jobs id) as [job|] eqn:Ej; [|cbn; auto].
  apply get_job_Some in Ej. destruct Ej as [Hin Hid].
  specialize (H job Hin Hid). apply String.eqb_neq in H. rewrite H. cbn. auto.
Qed.

Lemma job_status_and_cancel_are_owner_only_witness :
  (session_authenticated other_session = false
   \/ forall j, In j sample_jobs -> job_id j = "sort_a"%string ->
                job_user_id j <> session_user_id other_session)
  /\ is_error (get_sort_status sample_jobs other_session "sort_a")
  /\ is_error (fst (fst (cancel_sort sample_jobs ["sort_a"%string] 130%Z other_session
                           "sort_a")))
  /\ snd (fst (cancel_sort sample_jobs ["sort_a"%string] 130%Z other_session "sort_a"))
     = sample_jobs
  /\ snd (cancel_sort sample_jobs ["sort_a"%string] 130%Z other_session "sort_a") = [].
Proof.
  assert (H : session_authenticated other_session = false
              \/ forall j, In j sample_jobs -> job_id j = "sort_a"%string ->
                           job_user_id j <> session_user_id other_session).
  { right. intros j [<-|[<-|[]]] _; simpl; discriminate. }
  split; [exact H|].
  exact (job_status_and_cancel_are_owner_only sample_jobs ["sort_a"%string] 130%Z
           other_session "sort_a" H).
Defined.

(** X18.  The owner's cancel request.  On an active job it marks the job
    cancelled, stamps its completion time and sets the job's event when the
    executor still knows the job; on a job that has ended it changes nothing
    and reports the job's status. *)
Theorem owner_cancel_request
    (jobs : list Job) (running : list string) (now : Timestamp) (session : Session)
    (id : string) (j : Job) :
  session_authenticated session = true ->
  get_job jobs id = Some j ->
  job_user_id j = session_user_id session ->
  (is_active j = true ->
   snd (fst (cancel_sort jobs running now session id)) = cancel_job jobs now id
   /\ snd (cancel_sort jobs running now session id)
      = (if cancel_sort_job running id then [id] else [])
   /\ (fst (fst (cancel_sort jobs running now session id)) = HttpOk RespCancellationRequested
       \/ fst (fst (cancel_sort jobs running now session id)) = HttpOk RespJobCancelled)
   /\ forall k, In k (snd (fst (cancel_sort jobs running now session id))) ->
                job_id k = id ->
                job_status k = cancelled /\ job_completed_at k = Some now)
  /\ (is_active j = false ->
      cancel_sort jobs running now session id
      = (HttpOk (RespJobNotRunning (job_status j)), jobs, [])).
Proof.
  intros Ha Hj Hu. unfold cancel_sort. rewrite Ha, Hj. cbn [negb].
  rewrite Hu, String.eqb_refl. cbn [negb]. split; intros Hact; rewrite Hact; cbn [negb].
  - destruct (cancel_sort_job running id); cbn [fst snd];
      (split; [reflexivity|]); (split; [reflexivity|]); (split; [auto|]);
      intros k Hk Hid; unfold cancel_job in Hk;
      destruct (JobFacts.update_job_row _ _ _ _ _ _ _ _ _ Hk Hid) as (-> & _ & Hc); auto.
  - reflexivity.
Qed.

Lemma owner_cancel_request_witness :
  session_authenticated sample_session = true
  /\ get_job sample_jobs "sort_a" = Some sample_job_a
  /\ job_user_id sample_job_a = session_user_id sample_session
  /\ is_active sample_job_a = true
  /\ snd (fst (cancel_sort sample_jobs ["sort_a"%string] 130%Z sample_session "sort_a"))
     = cancel_job sample_jobs 130%Z "sort_a"
  /\ snd (cancel_sort sample_jobs ["sort_a"%string] 130%Z sample_session "sort_a")
     = (if cancel_sort_job ["sort_a"%string] "sort_a" then ["sort_a"%string] else [])
  /\ (fst (fst (cancel_sort sample_jobs ["sort_a"%string] 130%Z sample_session "sort_a"))
      = HttpOk RespCancellationRequested
      \/ fst (fst (cancel_sort sample_jobs ["sort_a"%string] 130%Z sample_session "sort_a"))
         = HttpOk RespJobCancelled)
  /\ forall k,
       In k (snd (fst (cancel_sort sample_jobs ["sort_a"%string] 130%Z sample_session
                         "sort_a"))) ->
       job_id k = "sort_a"%string ->
       job_status k = cancelled /\ job_completed_at k = Some 130%Z.
Proof.
  assert (H1 : session_authenticated sample_session = true) by reflexivity.
  assert (H2 : get_job sample_jobs "sort_a" = Some sample_job_a) by reflexivity.
  assert (H3 : job_user_id sample_job_a = session_user_id sample_session) by reflexivity.
  assert (H4 : is_active sample_job_a = true) by reflexivity.
  repeat (split; [assumption|]).
  exact (proj1 (owner_cancel_request sample_jobs ["sort_a"%string] 130%Z sample_session
                  "sort_a" sample_job_a H1 H2 H3) H4).
Defined.

End JobRouteFacts.

Module SchedulerRunFacts.
Import PyDatetime Schedules SchedulerSort SchedulerService RecurrenceFacts Samples.

Lemma mark_run_rows rows now schedule_id user_id frequency_minutes success error rows' r :
  mark_run rows now schedule_id user_id frequency_minutes success error = Some rows' ->
  In r rows' -> sched_id r = schedule_id -> sched_user_id r = user_id ->
  sched_last_run_at r = Some now
  /\ sched_status r = (if success then "ok" else "failed")%string
  /\ sched_last_error r = error.
Proof.
  unfold mark_run. destruct (match get_schedule rows schedule_id user_id with
                             | Some s => _ | None => _ end) as [t|]; [|discriminate].
  cbn [bind]. intros H. injection H as <-. intros Hin Hid Hu.
  apply in_map_iff in Hin. destruct Hin as (r0 & Hr & _).
  destruct (Nat.eqb (sched_id r0) schedule_id && String.eqb (sched_user_id r0) user_id)%bool
    eqn:Ec.
  - subst r. cbn. auto.
  - subst r0. rewrite Hid, Hu, Nat.eqb_refl, String.eqb_refl in Ec. discriminate.
Qed.

(** X19.  One dispatch of a recurring schedule that is in the table.  Whatever
    the action does, once the run is recorded the schedule's row carries the
    time of the run and is not due any more at that time; its status is [ok]
    with no error, or [failed] with the error of the action, in which case
    no task was handed to the workers.  An action type other than [sort] and
    [cache_clear] is recorded as failed with "Unsupported action" and
    leaves the job table alone. *)
Theorem scheduled_run_is_recorded_and_not_retried
    (rows : list Schedule) (jobs : list Job) (now : datetime) (now_ts : Timestamp)
    (new_job_id : string) (client_ok : bool) (total : nat) (cache_error : option string)
    (sched : Schedule) (rows' : list Schedule) (jobs' : list Job) (tasks : list SortTask) :
  valid now = true ->
  get_schedule rows (sched_id sched) (sched_user_id sched) = Some sched ->
  recurring (schedule_type_of (sched_params sched)) ->
  _run_schedule rows jobs now now_ts new_job_id client_ok total cache_error sched
  = (Some rows', jobs', tasks) ->
  (forall r, In r rows' -> sched_id r = sched_id sched ->
             sched_user_id r = sched_user_id sched ->
             is_due now r = false
             /\ sched_last_run_at r = Some now
             /\ ((sched_status r = "ok"%string /\ sched_last_error r = None)
                 \/ (sched_status r = "failed"%string /\ sched_last_error r <> None
                     /\ tasks = [])))
  /\ (sched_action_type sched <> "sort"%string ->
      sched_action_type sched <> "cache_clear"%string ->
      jobs' = jobs /\ tasks = []
      /\ forall r, In r rows' -> sched_id r = sched_id sched ->
                   sched_user_id r = sched_user_id sched ->
                   sched_status r = "failed"%string
                   /\ sched_last_error r = Some "Unsupported action"%string).
Proof.
  intros Hnow Hget Hrec. unfold _run_schedule. cbv zeta.
  set (record := fun success error =>
         mark_run rows now (sched_id sched) (sched_user_id sched)
           (frequency_or_default (sched_frequency_minutes sched)) success error).
  assert (Hrow : forall success error rows1,
             record success error = Some rows1 ->
             forall r, In r rows1 -> sched_id r = sched_id sched ->
                       sched_user_id r = sched_user_id sched ->
                       is_due now r = false /\ sched_last_run_at r = Some now
                       /\ sched_status r = (if success then "ok" else "failed")%string
                       /\ sched_last_error r = error).
  { intros success error rows1 H r Hin Hid Hu. split.
    - exact (mark_run_not_due rows now _ _ _ success error sched rows1 Hnow Hget Hrec H
               r Hin Hid Hu).
    - exact (mark_run_rows rows now _ _ _ success error rows1 r H Hin Hid Hu). }
  destruct (String.eqb_spec (sched_action_type sched) "sort") as [Es|Ns].
  - destruct (_run_sort_schedule _ _ _ _ _ _ _ _ _ _) as [[d jobs1] tasks1] eqn:Ed.
    assert (Htasks : (exists err, d = DispatchRaised err) -> tasks1 = []).
    { unfold _run_sort_schedule in Ed.
      destruct (SortJobService.get_active_job_for_playlist _ _ _) as [active jobs0].
      destruct (match active with Some job => _ | None => false end).
      - inversion Ed. reflexivity.
      - destruct (negb client_ok); inversion Ed; [reflexivity|].
        intros [err Herr]. subst d. discriminate. }
    destruct d as [|id|err].
    + intros H. inversion H as [[Hr Hj Ht]]. split; [|contradiction].
      intros r Hin Hid Hu. destruct (Hrow _ _ _ Hr r Hin Hid Hu) as (H1 & H2 & H3 & H4).
      repeat split; auto.
    + intros H. inversion H as [[Hr Hj Ht]]. split; [|contradiction].
      intros r Hin Hid Hu. destruct (Hrow _ _ _ Hr r Hin Hid Hu) as (H1 & H2 & H3 & H4).
      repeat split; auto.
    + intros H. inversion H as [[Hr Hj Ht]]. split; [|contradiction].
      intros r Hin Hid Hu. destruct (Hrow _ _ _ Hr r Hin Hid Hu) as (H1 & H2 & H3 & H4).
      split; [exact H1|]. split; [exact H2|]. right.
      split; [exact H3|]. split; [rewrite H4; discriminate|].
      rewrite <- Ht. apply Htasks. now exists err.
  - destruct (String.eqb_spec (sched_action_type sched) "cache_clear") as [Ec|Nc].
    + destruct cache_error as [err|]; intros H; inversion H as [[Hr Hj Ht]];
        (split; [|intros _ Hc; contradiction]);
        intros r Hin Hid Hu; destruct (Hrow _ _ _ Hr r Hin Hid Hu) as (H1 & H2 & H3 & H4);
        (split; [exact H1|]); (split; [exact H2|]).
      * right. split; [exact H3|]. split; [rewrite H4; discriminate|reflexivity].
      * left. auto.
    + intros H. inversion H as [[Hr Hj Ht]]. split.
      * intros r Hin Hid Hu. destruct (Hrow _ _ _ Hr r Hin Hid Hu) as (H1 & H2 & H3 & H4).
        split; [exact H1|]. split; [exact H2|]. right.
        split; [exact H3|]. split; [rewrite H4; discriminate|reflexivity].
      * intros _ _. split; [reflexivity|]. split; [reflexivity|].
        intros r Hin Hid Hu. destruct (Hrow _ _ _ Hr r Hin Hid Hu) as (H1 & H2 & H3 & H4).
        auto.
Qed.

Lemma scheduled_run_is_recorded_and_not_retried_witness :
  valid (on_the_hour 2024 1 1 23) = true
  /\ get_schedule [sample_schedule] (sched_id sample_schedule)
       (sched_user_id sample_schedule) = Some sample_schedule
  /\ recurring (schedule_type_of (sched_params sample_schedule))
  /\ _run_schedule [sample_schedule] [] (on_the_hour 2024 1 1 23) 130%Z "sort_c" true 40
       None sample_schedule
     = (Some [sample_schedule_after_run], snd (fst sample_dispatch), snd sample_dispatch)
  /\ (forall r, In r [sample_schedule_after_run] -> sched_id r = sched_id sample_schedule ->
                sched_user_id r = sched_user_id sample_schedule ->
                is_due (on_the_hour 2024 1 1 23) r = false
                /\ sched_last_run_at r = Some (on_the_hour 2024 1 1 23)
                /\ ((sched_status r = "ok"%string /\ sched_last_error r = None)
                    \/ (sched_status r = "failed"%string /\ sched_last_error r <> None
                        /\ snd sample_dispatch = []))).
Proof.
  assert (H1 : valid (on_the_hour 2024 1 1 23) = true) by reflexivity.
  assert (H2 : get_schedule [sample_schedule] (sched_id sample_schedule)
                 (sched_user_id sample_schedule) = Some sample_schedule) by reflexivity.
  assert (H3 : recurring (schedule_type_of (sched_params sample_schedule)))
    by (left; reflexivity).
  assert (H4 : _run_schedule [sample_schedule] [] (on_the_hour 2024 1 1 23) 130%Z "sort_c"
                 true 40 None sample_schedule
               = (Some [sample_schedule_after_run], snd (fst sample_dispatch),
                  snd sample_dispatch)) by reflexivity.
  repeat (split; [assumption|]).
  exact (proj1 (scheduled_run_is_recorded_and_not_retried [sample_schedule] []
                  (on_the_hour 2024 1 1 23) 130%Z "sort_c" true 40 None sample_schedule
                  [sample_schedule_after_run] (snd (fst sample_dispatch))
                  (snd sample_dispatch) H1 H2 H3 H4)).
Defined.

End SchedulerRunFacts.

Module RemovalFacts.
Import PyList PyListFacts DuplicateRoutes.

Lemma remove_from_cons {A} (P : list nat) s (x : A) l :
  remove_from P s (x :: l)
  = (if existsb (Nat.eqb s) P then [] else [x]) ++ remove_from P (S s) l.
Proof.
  unfold remove_from. cbn [enumerate_from filter fst].
  now destruct (existsb (Nat.eqb s) P).
Qed.

Lemma remove_from_ext {A} (P Q : list nat) (l : list A) : forall s,
  (forall i, s <= i -> existsb (Nat.eqb i) P = existsb (Nat.eqb i) Q) ->
  remove_from P s l = remove_from Q s l.
Proof.
  induction l as [|x l IH]; intros s H; [reflexivity|].
  rewrite !remove_from_cons, (H s (Nat.le_refl s)). f_equal.
  apply IH. intros i Hi. apply H. lia.
Qed.

Lemma remove_from_nil {A} (l : list A) : forall s, remove_from [] s l = l.
Proof.
  induction l as [|x l IH]; intros s; [reflexivity|].
  rewrite remove_from_cons. cbn. now rewrite IH.
Qed.

Lemma existsb_eqb_In i P : existsb (Nat.eqb i) P = true <-> In i P.
Proof.
  rewrite existsb_exists. split.
  - intros (x & Hx & E). apply Nat.eqb_eq in E. now subst.
  - intros H. exists i. split; [exact H|apply Nat.eqb_refl].
Qed.

Lemma existsb_eqb_false i P : ~ In i P -> existsb (Nat.eqb i) P = false.
Proof.
  intros H. destruct (existsb (Nat.eqb i) P) eqn:E; [|reflexivity].
  apply existsb_eqb_In in E. contradiction.
Qed.

(** Putting the item of position [p] back at [p], when every other removed
    position lies behind [p]. *)
Lemma reinsert_smallest {A} (Q : list nat) p (x : A) : forall l s,
  s <= p ->
  nth_error l (p - s) = Some x ->
  (forall q, In q Q -> p < q) ->
  insert (p - s) x (remove_from (p :: Q) s l) = remove_from Q s l.
Proof.
  induction l as [|y l IH]; intros s Hs Hnth HQ.
  - destruct (p - s); discriminate.
  - rewrite !remove_from_cons.
    assert (HsQ : existsb (Nat.eqb s) Q = false).
    { apply existsb_eqb_false. intros Hin. apply HQ in Hin. lia. }
    rewrite HsQ. cbn [existsb]. rewrite HsQ.
    destruct (Nat.eqb_spec s p) as [->|Hne].
    + rewrite Nat.sub_diag in *. cbn in Hnth. injection Hnth as ->.
      cbn [orb app]. unfold insert. cbn [firstn skipn app]. f_equal.
      apply remove_from_ext. intros i Hi. cbn [existsb].
      destruct (Nat.eqb_spec i p); [lia|reflexivity].
    + cbn [orb app]. replace (p - s) with (S (p - S s)) in * by lia.
      cbn [nth_error] in Hnth. unfold insert. cbn [firstn skipn app]. f_equal.
      apply (IH (S s)); [lia|exact Hnth|exact HQ].
Qed.

(** Reinserting the removed items in ascending order of position gives
    the list back. *)
Lemma reinsert_ascending {A} (d : A) (l : list A) : forall P,
  ForallOrdPairs lt P ->
  (forall p, In p P -> p < length l) ->
  fold_left (fun acc p => insert p (nth p l d) acc) P (remove_from P 0 l) = l.
Proof.
  induction P as [|p Q IH]; intros Hs Hlen.
  - cbn. apply remove_from_nil.
  - cbn [fold_left]. inversion Hs as [|a k Hall Hrest]; subst.
    pose proof (reinsert_smallest Q p (nth p l d) l 0 (Nat.le_0_l p)) as H.
    rewrite Nat.sub_0_r in H. rewrite H.
    + apply IH; [exact Hrest|]. intros q Hq. apply Hlen. now right.
    + apply nth_error_nth'. apply Hlen. now left.
    + intros q Hq. rewrite Forall_forall in Hall. now apply Hall.
Qed.

Lemma insert_unique_In p x l : In x (insert_unique p l) <-> x = p \/ In x l.
Proof.
  induction l as [|q l IH]; cbn [insert_unique].
  - cbn. intuition.
  - destruct (Nat.ltb_spec p q).
    + cbn. intuition.
    + destruct (Nat.eqb_spec p q) as [->|Hne].
      * cbn. intuition.
      * cbn [In]. rewrite IH. intuition.
Qed.

Lemma insert_unique_ascending p l :
  ForallOrdPairs lt l -> ForallOrdPairs lt (insert_unique p l).
Proof.
  induction l as [|q l IH]; intros H; cbn [insert_unique].
  - repeat constructor.
  - inversion H as [|a k Hall Hrest]; subst.
    destruct (Nat.ltb_spec p q) as [Hlt|Hge].
    + constructor; [|exact H]. constructor; [exact Hlt|].
      eapply Forall_impl; [|exact Hall]. cbn. intros a Ha. lia.
    + destruct (Nat.eqb_spec p q) as [->|Hne]; [exact H|].
      constructor; [|now apply IH].
      apply Forall_forall. intros x Hx. apply insert_unique_In in Hx.
      destruct Hx as [->|Hx]; [lia|]. rewrite Forall_forall in Hall. now apply Hall.
Qed.

Lemma sorted_set_In x l : In x (sorted_set l) <-> In x l.
Proof.
  induction l as [|p l IH]; [reflexivity|].
  cbn [sorted_set fold_right]. fold (sorted_set l).
  rewrite insert_unique_In, IH. cbn. intuition.
Qed.

Lemma sorted_set_ascending l : ForallOrdPairs lt (sorted_set l).
Proof.
  induction l as [|p l IH]; [constructor|].
  cbn [sorted_set fold_right]. now apply insert_unique_ascending.
Qed.

Lemma remove_from_map {A B} (f : A -> B) P (l : list A) : forall s,
  map f (remove_from P s l) = remove_from P s (map f l).
Proof.
  induction l as [|x l IH]; intros s; [reflexivity|].
  cbn [map]. rewrite !remove_from_cons, map_app, IH.
  now destruct (existsb (Nat.eqb s) P).
Qed.

Lemma remove_from_same_members {A} (P Q : list nat) (l : list A) s :
  (forall i, In i P <-> In i Q) -> remove_from P s l = remove_from Q s l.
Proof.
  intros H. apply remove_from_ext. intros i _.
  destruct (existsb (Nat.eqb i) P) eqn:E.
  - symmetry. apply existsb_eqb_In, H, existsb_eqb_In, E.
  - symmetry. apply existsb_eqb_false. intros Hq. apply H in Hq.
    apply existsb_eqb_In in Hq. congruence.
Qed.

End RemovalFacts.

Module DuplicateUndoFacts.
Import Samples PyList PyListFacts SortService SortFacts PlaylistRoutes DuplicateRoutes RemovalFacts.

Lemma occurs_at_spec items occ :
  occurs_at items occ = true ->
  exists t, nth_error items (Z.to_nat (occ_position occ)) = Some t
            /\ truthy (item_uri t) = true /\ item_uri t = Some (occ_uri occ).
Proof.
  unfold occurs_at. intros H. apply andb_true_iff in H. destruct H as [_ H].
  destruct (nth_error items _) as [t|]; [|discriminate].
  apply andb_true_iff in H. destruct H as [H1 H2].
  exists t. repeat split; auto. now apply UndoFacts.option_string_eqb_eq.
Qed.

(** The positions the handler removes are positions of the playlist that
    hold an item with a non-empty uri. *)
Lemma positions_to_remove_valid items occs p :
  In p (map (fun occ => Z.to_nat (occ_position occ)) (filter (occurs_at items) occs)) ->
  exists t, nth_error items p = Some t /\ truthy (item_uri t) = true.
Proof.
  intros H. apply in_map_iff in H. destruct H as (occ & <- & Hocc).
  apply filter_In in Hocc. destruct Hocc as [_ Hocc].
  destruct (occurs_at_spec _ _ Hocc) as (t & H1 & H2 & _). eauto.
Qed.

Lemma position_keys_in_order items P :
  ForallOrdPairs lt P ->
  keys_in_order (map position_key (map (removed_item items) P)).
Proof.
  induction P as [|p P IH]; intros H; [exact I|].
  inversion H as [|a k Hall Hrest]; subst. specialize (IH Hrest).
  destruct P as [|q P]; [exact I|]. cbn [map keys_in_order] in *.
  split; [|exact IH]. inversion Hall; subst. cbn. apply Z.ltb_ge. lia.
Qed.

(** The records [remove_duplicates] writes all carry a position, so
    sorting them does not raise. *)
Lemma sort_by_position_recorded items P :
  sort_by_position (map (removed_item items) P)
  = Some (SortService.sorted position_key (map (removed_item items) P) false).
Proof.
  unfold sort_by_position.
  assert (H : existsb position_is_null (map (removed_item items) P) = false)
    by (induction P as [|p P IH]; [reflexivity|exact IH]).
  now rewrite H, andb_false_r.
Qed.

(** Reinserting the recorded items, as the undo does, is reinserting the
    recorded uris into the list of uris. *)
Lemma reinsert_fold items (P : list nat) : forall sp,
  (forall u, track_uri (sp_catalog sp u) = Some u) ->
  (forall p, In p P -> exists t, nth_error items p = Some t
                                 /\ truthy (item_uri t) = true) ->
  SpotifyClient.uris (fold_left reinsert (map (removed_item items) P) sp)
  = fold_left (fun acc p => insert p (nth p (map item_uri items) None) acc) P
              (SpotifyClient.uris sp).
Proof.
  induction P as [|p P IH]; intros sp Hcat HP; [reflexivity|].
  cbn [map fold_left].
  destruct (HP p (or_introl eq_refl)) as (t & Ht & Hu).
  assert (Hnth : nth p (map item_uri items) None = item_uri t).
  { apply nth_error_nth. now rewrite nth_error_map, Ht. }
  assert (Hstep : SpotifyClient.uris (reinsert sp (removed_item items p))
                  = insert p (nth p (map item_uri items) None) (SpotifyClient.uris sp)
                  /\ sp_catalog (reinsert sp (removed_item items p)) = sp_catalog sp).
  { unfold reinsert, removed_item. cbn [removed_uri removed_position]. rewrite Ht, Hu.
    destruct (item_uri t) as [u|] eqn:Eu; [|discriminate].
    split; [|reflexivity].
    unfold SpotifyClient.uris, SpotifyClient.playlist_add_items, SpotifyClient.mutate,
      SpotifyClient.resolve, Remote.playlist_add_items, insert. cbn [sp_items map].
    rewrite !map_app, firstn_map, skipn_map. cbn [map item_uri]. now rewrite Hcat, Hnth. }
  destruct Hstep as [Hs Hc]. rewrite IH.
  - now rewrite Hs.
  - intros u. rewrite Hc. apply Hcat.
  - intros q Hq. apply HP. now right.
Qed.


Lemma remove_from_length {A} (l : list A) : forall P s,
  ForallOrdPairs lt P ->
  (forall p, In p P -> s <= p < s + length l) ->
  length (remove_from P s l) + length P = length l.
Proof.
  induction l as [|x l IH]; intros P s Hs Hin.
  - destruct P as [|p P]; [reflexivity|].
    specialize (Hin p (or_introl eq_refl)). cbn in Hin. lia.
  - rewrite remove_from_cons, length_app.
    destruct (existsb (Nat.eqb s) P) eqn:E.
    + apply existsb_eqb_In in E. destruct P as [|p Q]; [contradiction|].
      inversion Hs as [|a k Hall Hrest]; subst.
      assert (Hp : p = s).
      { destruct E as [E|E]; [exact E|]. rewrite Forall_forall in Hall.
        specialize (Hall s E). specialize (Hin p (or_introl eq_refl)). lia. }
      subst p.
      rewrite (remove_from_ext (s :: Q) Q l (S s)).
      * cbn [length]. rewrite <- (IH Q (S s) Hrest); [lia|].
        intros q Hq. rewrite Forall_forall in Hall. specialize (Hall q Hq).
        specialize (Hin q (or_intror Hq)). cbn [length] in Hin. lia.
      * intros i Hi. cbn [existsb]. destruct (Nat.eqb_spec i s); [lia|reflexivity].
    + cbn [length]. rewrite <- (IH P (S s) Hs); [lia|].
      intros q Hq. specialize (Hin q Hq). cbn [length] in Hin.
      assert (q <> s).
      { intros ->. apply existsb_eqb_In in Hq. congruence. }
      lia.
Qed.

(** What a removal that goes through does. *)
Lemma remove_duplicates_done sp ops now playlist_id user_id occs body_snapshot :
  let items := sp_items sp in
  let P := map (fun occ => Z.to_nat (occ_position occ)) (filter (occurs_at items) occs) in
  let current_snapshot :=
    if truthy body_snapshot then body_snapshot else SpotifyClient.snapshot_id sp in
  let sp' := SpotifyClient.mutate sp (remove_items_at_positions items (sorted_set P)) in
  P <> [] ->
  option_string_eqb current_snapshot (SpotifyClient.snapshot_id sp) = true ->
  remove_duplicates sp true ops now playlist_id user_id occs body_snapshot
  = (HttpOk (RespDuplicatesRemoved (length (sorted_set P))), sp',
     OpStore.record_operation (OpStore.cleanup_expired ops now) now playlist_id user_id
       "duplicates_remove" current_snapshot (SpotifyClient.snapshot_id sp')
       {| payload_removed_items := map (removed_item items) (sorted_set P);
          payload_original_order := [];
          payload_sort_by := None;
          payload_direction := None;
          payload_method := None;
          payload_source := None;
          payload_schedule_id := None;
          payload_tracks_moved := None |}
       true).
Proof.
  cbv zeta. set (items := sp_items sp).
  remember (map (fun occ => Z.to_nat (occ_position occ)) (filter (occurs_at items) occs))
    as P eqn:EP.
  intros HP Htoken.
  assert (Hvalid : forall p, In p (sorted_set P) -> p < length items).
  { intros p Hp. apply (proj1 (sorted_set_In p P)) in Hp. rewrite EP in Hp.
    destruct (positions_to_remove_valid items occs p Hp) as (t & Ht & _).
    apply nth_error_Some. congruence. }
  assert (Hsame : remove_from
                    (SortService.sorted (fun p => KInt (Z.of_nat p)) P true) 0 items
                  = remove_from (sorted_set P) 0 items).
  { apply remove_from_same_members. intros i. rewrite sorted_set_In. split; intros H.
    - eapply Permutation_in; [symmetry; apply sorted_Permutation|exact H].
    - eapply Permutation_in; [apply sorted_Permutation|exact H]. }
  assert (Hfilter : filter (fun pos => pos <? length items) (sorted_set P) = sorted_set P).
  { apply forallb_filter_id. apply forallb_forall. intros p Hp. apply Nat.ltb_lt. auto. }
  pose proof (remove_from_length items (sorted_set P) 0 (sorted_set_ascending P)) as Hlen.
  assert (Hcount : length items - length (remove_from (sorted_set P) 0 items)
                   = length (sorted_set P)).
  { rewrite <- Hlen by (intros p Hp; specialize (Hvalid p Hp); lia). lia. }
  unfold remove_duplicates. fold items. rewrite <- EP.
  destruct occs as [|o occs']; [exfalso; apply HP; rewrite EP; reflexivity|].
  destruct P as [|p0 P0]; [contradiction|]. cbn [negb].
  unfold delete_positions. rewrite Htoken.
  unfold remove_items_at_positions. fold items. rewrite Hsame, Hfilter.
  cbn [SpotifyClient.mutate sp_items]. fold items. rewrite Hcount. reflexivity.
Qed.

Lemma token_accepted sp body_snapshot :
  truthy body_snapshot = false \/ body_snapshot = SpotifyClient.snapshot_id sp ->
  option_string_eqb
    (if truthy body_snapshot then body_snapshot else SpotifyClient.snapshot_id sp)
    (SpotifyClient.snapshot_id sp) = true.
Proof.
  intros [H|H].
  - rewrite H. apply IdempotenceFacts.option_string_eqb_refl.
  - rewrite H. destruct (truthy _); apply IdempotenceFacts.option_string_eqb_refl.
Qed.

(** A removal that does not go through (nothing selected, nothing left at
    the selected positions, or a stale token) leaves the playlist and the
    log as they were. *)
Lemma remove_duplicates_undone sp ops now playlist_id user_id occs body_snapshot :
  let items := sp_items sp in
  let P := map (fun occ => Z.to_nat (occ_position occ)) (filter (occurs_at items) occs) in
  let current_snapshot :=
    if truthy body_snapshot then body_snapshot else SpotifyClient.snapshot_id sp in
  P = [] \/ option_string_eqb current_snapshot (SpotifyClient.snapshot_id sp) = false ->
  snd (fst (remove_duplicates sp true ops now playlist_id user_id occs body_snapshot)) = sp
  /\ snd (remove_duplicates sp true ops now playlist_id user_id occs body_snapshot) = ops.
Proof.
  cbv zeta. intros H. unfold remove_duplicates.
  destruct occs as [|o occs']; [split; reflexivity|]. cbn [negb].
  destruct (map _ (filter _ (o :: occs'))) as [|p0 P0]; [split; reflexivity|].
  destruct H as [H|H]; [discriminate|].
  unfold delete_positions. rewrite H. split; reflexivity.
Qed.

(** X20.  Removal of duplicates.  Of the selected occurrences, those whose uri is
    still at the stated position are removed, each position once; the
    response counts them, and the others are ignored.  When none is left, the
    playlist and the log stay as they were. *)
Theorem remove_duplicates_removes_selected_occurrences
    (sp : Spotify) (ops : list Operation) (now : Timestamp) (playlist_id user_id : string)
    (occs : list DuplicateOccurrence) (body_snapshot : option string) :
  let items := sp_items sp in
  let P := map (fun occ => Z.to_nat (occ_position occ)) (filter (occurs_at items) occs) in
  let r := remove_duplicates sp true ops now playlist_id user_id occs body_snapshot in
  (P <> [] ->
   truthy body_snapshot = false \/ body_snapshot = SpotifyClient.snapshot_id sp ->
   fst (fst r) = HttpOk (RespDuplicatesRemoved (length (sorted_set P)))
   /\ sp_items (snd (fst r)) = remove_items_at_positions items P
   /\ length (sp_items (snd (fst r))) + length (sorted_set P) = length items
   /\ (forall p, In p P -> exists t, nth_error items p = Some t
                                     /\ truthy (item_uri t) = true))
  /\ (P = [] -> snd (fst r) = sp /\ snd r = ops).
Proof.
  cbv zeta. split.
  - intros HP Htok.
    rewrite (remove_duplicates_done sp ops now playlist_id user_id occs body_snapshot HP
               (token_accepted sp body_snapshot Htok)).
    cbn [fst snd SpotifyClient.mutate sp_items].
    set (items := sp_items sp).
    set (P := map (fun occ => Z.to_nat (occ_position occ)) (filter (occurs_at items) occs))
      in *.
    assert (Hvalid : forall p, In p P -> exists t, nth_error items p = Some t
                                                   /\ truthy (item_uri t) = true)
      by (intros p Hp; exact (positions_to_remove_valid items occs p Hp)).
    split; [reflexivity|]. split; [|split; [|exact Hvalid]].
    + unfold remove_items_at_positions. apply remove_from_same_members.
      intros i. apply sorted_set_In.
    + unfold remove_items_at_positions.
      apply remove_from_length; [apply sorted_set_ascending|].
      intros p Hp. apply (proj1 (sorted_set_In p P)) in Hp.
      destruct (Hvalid p Hp) as (t & Ht & _).
      assert (p < length items) by (apply nth_error_Some; congruence). lia.
  - intros HP. apply remove_duplicates_undone. now left.
Qed.

Lemma remove_duplicates_removes_selected_occurrences_witness :
  map (fun occ => Z.to_nat (occ_position occ))
      (filter (occurs_at (sp_items dup_sp)) dup_selection) <> []
  /\ (truthy None = false \/ None = SpotifyClient.snapshot_id dup_sp)
  /\ fst (fst (remove_duplicates dup_sp true [] 100%Z "pl1" "u1" dup_selection None))
     = HttpOk (RespDuplicatesRemoved
                 (length (sorted_set
                            (map (fun occ => Z.to_nat (occ_position occ))
                                 (filter (occurs_at (sp_items dup_sp)) dup_selection)))))
  /\ sp_items (snd (fst (remove_duplicates dup_sp true [] 100%Z "pl1" "u1" dup_selection
                           None)))
     = remove_items_at_positions (sp_items dup_sp)
         (map (fun occ => Z.to_nat (occ_position occ))
              (filter (occurs_at (sp_items dup_sp)) dup_selection))
  /\ length (sp_items (snd (fst (remove_duplicates dup_sp true [] 100%Z "pl1" "u1"
                                   dup_selection None))))
     + length (sorted_set
                 (map (fun occ => Z.to_nat (occ_position occ))
                      (filter (occurs_at (sp_items dup_sp)) dup_selection)))
     = length (sp_items dup_sp)
  /\ (forall p,
        In p (map (fun occ => Z.to_nat (occ_position occ))
                  (filter (occurs_at (sp_items dup_sp)) dup_selection)) ->
        exists t, nth_error (sp_items dup_sp) p = Some t /\ truthy (item_uri t) = true).
Proof.
  assert (H1 : map (fun occ => Z.to_nat (occ_position occ))
                   (filter (occurs_at (sp_items dup_sp)) dup_selection) <> [])
    by (vm_compute; discriminate).
  assert (H2 : truthy None = false \/ None = SpotifyClient.snapshot_id dup_sp)
    by (left; reflexivity).
  repeat (split; [assumption|]).
  exact (proj1 (remove_duplicates_removes_selected_occurrences dup_sp [] 100%Z "pl1" "u1"
                  dup_selection None) H1 H2).
Defined.

(** X21.  Removal of duplicates, then undo.  With a catalogue that resolves each
    uri to an item with that uri and a log that holds no other undoable
    operation of the playlist and user, an undo before the entry expires
    puts every removed occurrence back at its position: the uris of the
    playlist are those it had before the removal, in the same order. *)
Theorem remove_duplicates_then_undo_restores_uris
    (sp : Spotify) (ops : list Operation) (now now2 : Timestamp)
    (playlist_id user_id : string) (occs : list DuplicateOccurrence)
    (body_snapshot : option string) :
  (forall u, track_uri (sp_catalog sp u) = Some u) ->
  (forall o, In o ops ->
     (String.eqb (op_playlist_id o) playlist_id && String.eqb (op_user_id o) user_id
      && negb (op_undone o) && op_changes_made o)%bool = false) ->
  (now2 < now + OpStore.days OpStore.DEFAULT_EXPIRY_DAYS)%Z ->
  let r := remove_duplicates sp true ops now playlist_id user_id occs body_snapshot in
  let r' := undo_last_operation (snd (fst r)) true (snd r) now2 playlist_id user_id in
  SpotifyClient.uris (snd (fst r')) = SpotifyClient.uris sp.
Proof.
  intros Hcat Hlog Hexp. cbv zeta.
  set (items := sp_items sp).
  set (P := map (fun occ => Z.to_nat (occ_position occ)) (filter (occurs_at items) occs)).
  set (current_snapshot :=
         if truthy body_snapshot then body_snapshot else SpotifyClient.snapshot_id sp).
  assert (Hnone : forall l, (forall o, In o l -> In o ops) ->
            OpStore.get_latest_operation l now2 playlist_id user_id = None).
  { intros l Hl. unfold OpStore.get_latest_operation.
    rewrite SortUndoFacts.get_latest_operation_none; [reflexivity|].
    intros o Ho. apply Hlog, Hl, Ho. }
  destruct (option_string_eqb current_snapshot (SpotifyClient.snapshot_id sp)) eqn:Etok.
  2:{ destruct (remove_duplicates_undone sp ops now playlist_id user_id occs body_snapshot
                  (or_intror Etok)) as [-> ->].
      unfold undo_last_operation. cbn [negb].
      rewrite Hnone; [reflexivity|].
      intros o Ho. now apply SortUndoFacts.cleanup_expired_In in Ho. }
  assert (HPdec : P = [] \/ P <> [])
    by (destruct P; [left; reflexivity|right; discriminate]).
  destruct HPdec as [EP|HP].
  { destruct (remove_duplicates_undone sp ops now playlist_id user_id occs body_snapshot
                (or_introl EP)) as [-> ->].
    unfold undo_last_operation. cbn [negb].
    rewrite Hnone; [reflexivity|].
    intros o Ho. now apply SortUndoFacts.cleanup_expired_In in Ho. }
  rewrite (remove_duplicates_done sp ops now playlist_id user_id occs body_snapshot HP Etok).
  cbn [fst snd]. fold items. fold P. fold current_snapshot.
  set (sp1 := SpotifyClient.mutate sp (remove_items_at_positions items (sorted_set P))).
  assert (Hvalid : forall p, In p (sorted_set P) ->
            exists t, nth_error items p = Some t /\ truthy (item_uri t) = true).
  { intros p Hp. apply (proj1 (sorted_set_In p P)) in Hp.
    exact (positions_to_remove_valid items occs p Hp). }
  assert (Hne : sorted_set P <> []).
  { intros E. apply HP. destruct P as [|p P']; [reflexivity|].
    assert (Hin : In p (sorted_set (p :: P'))) by (apply sorted_set_In; now left).
    rewrite E in Hin. contradiction. }
  unfold undo_last_operation. cbn [negb].
  unfold OpStore.record_operation, OpStore.get_latest_operation.
  set (old := OpStore.cleanup_expired ops now).
  unfold OpStore.cleanup_expired at 1 2. rewrite !filter_app.
  fold (OpStore.cleanup_expired old now2).
  rewrite (SortUndoFacts.get_latest_operation_none (OpStore.cleanup_expired old now2) now2).
  2:{ intros o Ho. apply Hlog.
      now apply SortUndoFacts.cleanup_expired_In, SortUndoFacts.cleanup_expired_In in Ho. }
  apply Z.ltb_lt in Hexp.
  cbn [filter app op_expires_at op_playlist_id op_user_id op_undone op_changes_made].
  rewrite Hexp.
  cbn [filter app op_expires_at op_playlist_id op_user_id op_undone op_changes_made].
  rewrite Hexp, !String.eqb_refl. cbn [negb andb].
  cbn [OpStore.latest_created op_snapshot_after].
  unfold snapshot_conflict. rewrite IdempotenceFacts.option_string_eqb_refl.
  cbn [negb]. rewrite andb_false_r.
  unfold replay_operation. cbn [op_type op_payload payload_removed_items op_id].
  cbn [String.eqb Ascii.eqb Bool.eqb].
  destruct (map (removed_item items) (sorted_set P)) as [|ri ris] eqn:Eri.
  { exfalso. apply Hne. now apply map_eq_nil in Eri. }
  rewrite <- Eri. clear Eri ri ris. rewrite sort_by_position_recorded. cbn [fst snd].
  unfold SortService.sorted.
  rewrite (IdempotenceFacts.stable_sort_of_in_order position_key)
    by (apply position_keys_in_order, sorted_set_ascending).
  rewrite (reinsert_fold items (sorted_set P) sp1 Hcat Hvalid).
  unfold sp1, SpotifyClient.uris, SpotifyClient.mutate, remove_items_at_positions.
  cbn [sp_items]. rewrite remove_from_map. fold items.
  apply reinsert_ascending; [apply sorted_set_ascending|].
  intros p Hp. destruct (Hvalid p Hp) as (t & Ht & _).
  rewrite length_map. apply nth_error_Some. congruence.
Qed.

Lemma remove_duplicates_then_undo_restores_uris_witness :
  (forall u, track_uri (sp_catalog dup_sp u) = Some u)
  /\ (forall o, In o [] ->
        (String.eqb (op_playlist_id o) "pl1" && String.eqb (op_user_id o) "u1"
         && negb (op_undone o) && op_changes_made o)%bool = false)
  /\ (140 < 100 + OpStore.days OpStore.DEFAULT_EXPIRY_DAYS)%Z
  /\ SpotifyClient.uris
       (snd (fst (undo_last_operation
                    (snd (fst (remove_duplicates dup_sp true [] 100%Z "pl1" "u1"
                                 dup_selection None)))
                    true
                    (snd (remove_duplicates dup_sp true [] 100%Z "pl1" "u1" dup_selection
                            None))
                    140%Z "pl1" "u1")))
     = SpotifyClient.uris dup_sp.
Proof.
  assert (H1 : forall u, track_uri (sp_catalog dup_sp u) = Some u)
    by (intros u; reflexivity).
  assert (H2 : forall o : Operation, In o [] ->
                 (String.eqb (op_playlist_id o) "pl1" && String.eqb (op_user_id o) "u1"
                  && negb (op_undone o) && op_changes_made o)%bool = false)
    by (intros o []).
  assert (H3 : (140 < 100 + OpStore.days OpStore.DEFAULT_EXPIRY_DAYS)%Z)
    by (vm_compute; reflexivity).
  repeat (split; [assumption|]).
  exact (remove_duplicates_then_undo_restores_uris dup_sp [] 100%Z 140%Z "pl1" "u1"
           dup_selection None H1 H2 H3).
Defined.

Example dup_sample_run :
  SpotifyClient.uris
    (snd (fst (remove_duplicates dup_sp true [] 100%Z "pl1" "u1" dup_selection None)))
  = [Some "spotify:track:a"; Some "spotify:track:b"; Some "spotify:track:c"]%string
  /\ fst (fst (remove_duplicates dup_sp true [] 100%Z "pl1" "u1" dup_selection None))
     = HttpOk (RespDuplicatesRemoved 2)
  /\ map (fun o => payload_removed_items (op_payload o))
         (snd (remove_duplicates dup_sp true [] 100%Z "pl1" "u1" dup_selection None))
     = [[ {| removed_uri := Some "spotify:track:a"%string; removed_position := Some 2 |};
          {| removed_uri := Some "spotify:track:b"%string; removed_position := Some 4 |} ]].
Proof. repeat split; reflexivity. Qed.

End DuplicateUndoFacts.

